(** * furfsky-mini: the resource-pack pruning tool ([patch.py])

    A shallow embedding of the rule evaluator ([process_rule], [delete_path]),
    of its legacy twin, of the two metadata patchers and of [main], and of
    the patchers and [main] of the legacy script ([legacy/patch.py]).  The
    overlay copier [copy_overrides] is a parameter of both [main]s.

    Modelling conventions.
    - A Python [str] is a list of code points ([text]); ASCII literals are
      written as Rocq strings and coerced.
    - The file system is a tree of regular files and directories rooted at
      [/]; symbolic links, special files, permissions and name-length limits
      are outside the model.  A [pathlib.Path] is its list of components,
      counted from the root (a relative path is taken with the working
      directory in front); the kernel resolves [..] while walking the tree.
    - Functions that touch the disk thread the tree explicitly and collect an
      event log (diagnostics, prints, deletions, writes).  An uncaught Python
      exception is the [Crash] outcome.
    - Standard output encodes UTF-8 strictly: a [print] of a text that holds
      a lone surrogate raises [UnicodeEncodeError] and prints nothing.  The
      logger never raises.  [json.dump] into a file opened for writing may
      raise after part of the text has been written. *)

From Stdlib Require Import String Ascii NArith ZArith List Permutation Lia.
From stdpp Require Import base tactics option list.
Import ListNotations.

Local Open Scope N_scope.
Local Open Scope string_scope.
Local Open Scope list_scope.

(** ** Text *)

Definition text := list N.

Definition lit (s : string) : text :=
  map N_of_ascii (list_ascii_of_string s).

Coercion lit : string >-> text.

Definition is_prefix_of (p s : text) : bool := bool_decide (take (length p) s = p).

(** [s.split(sep)] for a one-character separator. *)
Fixpoint split_on (sep : N) (s : text) : list text :=
  match s with
  | [] => [[]]
  | c :: s' =>
      if decide (c = sep) then [] :: split_on sep s'
      else match split_on sep s' with
           | [] => [[c]]
           | w :: ws => (c :: w) :: ws
           end
  end.

(** [sep.join(pieces)]. *)
Fixpoint join_with (sep : text) (pieces : list text) : text :=
  match pieces with
  | [] => []
  | [w] => w
  | w :: ws => w ++ sep ++ join_with sep ws
  end.

(** A code point UTF-8 cannot encode: a lone surrogate. *)
Definition is_surrogate (c : N) : bool := ((55296 <=? c) && (c <=? 57343))%N.

(** The text can be encoded as UTF-8. *)
Definition printable (s : text) : bool :=
  forallb (fun c => negb (is_surrogate c)) s.

(** [needle in haystack] on strings. *)
Fixpoint contains (needle haystack : text) : bool :=
  is_prefix_of needle haystack ||
  match haystack with
  | [] => false
  | _ :: rest => contains needle rest
  end.

(** ** JSON values, as [json.load] returns them

    Objects keep the order of their members.  The tool never looks inside a
    number, so integers stand for all of them. *)

Unset Elimination Schemes.
Inductive json :=
| JNull
| JBool (b : bool)
| JNum (z : Z)
| JStr (s : text)
| JArr (items : list json)
| JObj (members : list (text * json)).
Set Elimination Schemes.

Fixpoint assoc {A} (k : text) (kvs : list (text * A)) : option A :=
  match kvs with
  | [] => None
  | (k', v) :: rest => if decide (k' = k) then Some v else assoc k rest
  end.

Definition keys {A} (kvs : list (text * A)) : list text := map fst kvs.

(** ** The file system *)

Unset Elimination Schemes.
Inductive node :=
| File (content : text)
| Dir (entries : list (text * node)).
Set Elimination Schemes.

(** A resolved location: the names from the root down. *)
Definition path := list text.

Inductive kind := KFile (content : text) | KDir.

Definition kind_of (x : node) : kind :=
  match x with File c => KFile c | Dir _ => KDir end.

Fixpoint find (q : path) (t : node) : option node :=
  match q with
  | [] => Some t
  | n :: q' =>
      match t with
      | Dir es => match assoc n es with Some x => find q' x | None => None end
      | File _ => None
      end
  end.

Definition stat (q : path) (t : node) : option kind := kind_of <$> find q t.

Definition drop_entry (n : text) (es : list (text * node)) : list (text * node) :=
  filter (fun e => e.1 <> n) es.

Fixpoint alter_entry (f : node -> node) (n : text) (es : list (text * node))
  : list (text * node) :=
  match es with
  | [] => []
  | (m, x) :: rest =>
      if decide (m = n) then (m, f x) :: rest
      else (m, x) :: alter_entry f n rest
  end.

(** Remove the entry at [q] together with everything below it. *)
Fixpoint rm (q : path) (t : node) : node :=
  match q, t with
  | [], _ => t
  | [n], Dir es => Dir (drop_entry n es)
  | n :: q', Dir es => Dir (alter_entry (rm q') n es)
  | _ :: _, File _ => t
  end.

Arguments rm : simpl never.

(** Remove everything below the directory at [q], keeping the directory. *)
Fixpoint clear (q : path) (t : node) : node :=
  match q, t with
  | [], Dir _ => Dir []
  | n :: q', Dir es => Dir (alter_entry (clear q') n es)
  | _, File _ => t
  end.

(** Names of the immediate entries of the directory at [q]. *)
Definition listdir (q : path) (t : node) : list text :=
  match find q t with
  | Some (Dir es) => keys es
  | _ => []
  end.

(** *** pathlib *)

(** Components of a path string: split on [/], drop empty pieces and [.]. *)
Definition parts (s : text) : list text :=
  filter (fun x => x <> [] /\ x <> lit ".") (split_on 47 s).

Definition is_absolute (s : text) : bool :=
  match s with c :: _ => bool_decide (c = 47) | [] => false end.

(** [p / s]: an absolute right operand replaces the left one. *)
Definition pjoin (p : list text) (s : text) : list text :=
  if is_absolute s then parts s else p ++ parts s.

(** *** Path resolution *)

Fixpoint walk (t : node) (cur : path) (comps : list text) : option path :=
  match comps with
  | [] => Some cur
  | c :: rest =>
      match stat cur t with
      | Some KDir =>
          if decide (c = lit "..") then walk t (removelast cur) rest
          else match stat (cur ++ [c]) t with
               | Some _ => walk t (cur ++ [c]) rest
               | None => None
               end
      | _ => None
      end
  end.

Definition resolve (t : node) (p : list text) : option path := walk t [] p.

Definition stat_at (t : node) (p : list text) : option kind :=
  q ← resolve t p; stat q t.

(** [Path.exists], [Path.is_file], [Path.is_dir]. *)
Definition exists_ (t : node) (p : list text) : bool :=
  bool_decide (is_Some (stat_at t p)).

Definition is_file (t : node) (p : list text) : bool :=
  match stat_at t p with Some (KFile _) => true | _ => false end.

Definition is_dir (t : node) (p : list text) : bool :=
  match stat_at t p with Some KDir => true | _ => false end.

(** [item.name for item in p.iterdir()], for a directory [p].  The names of
    a directory are distinct, so the list stands for the set the code
    builds from them. *)
Definition iterdir (t : node) (p : list text) : list text :=
  match resolve t p with
  | Some q => listdir q t
  | None => []
  end.

(** ** Outcomes, events and the effect monad *)

(** Diagnostics of [patch.py], one constructor per message with the values
    it interpolates. *)
Inductive message :=
| Path_does_not_exist (p : list text)
| Unknown_rule (rule relative_path : text)
| Incorrect_array_rule (relative_path : text)
| Unknown_mode (mode : json) (relative_path : text)
| Declarations_not_object (relative_path : text)
| Directory_does_not_exist (relative_path : text)
| Not_a_directory (relative_path : text)
| Target_directory_missing (p : list text)
| Mcmeta_missing
| Mcmeta_no_description
| Mcmeta_invalid_json
| Mcmeta_failed
| Credits_template_missing
| Credits_failed
| Config_missing (p : list text)
| Mcmeta_not_found
| Assets_missing (p : list text)
| Config_no_assets
| Overrides_missing
| Overrides_not_a_directory.

(** What the legacy script (and the last line of [main]) prints. *)
Inductive printed :=
| P_skip_missing (p : list text)
| P_deleted_file (p : list text)
| P_deleted_dir (p : list text)
| P_delete (dry_run : bool) (relative_path : text)
| P_keep (relative_path : text)
| P_unknown_rule (rule relative_path : text)
| P_enter (relative_path : text)
| P_bad_array (relative_path : text)
| P_unknown_mode (mode : json) (relative_path : text)
| P_declarations_not_object (relative_path : text)
| P_directory_missing (relative_path : text)
| P_not_a_directory (relative_path : text)
| P_whitelist (relative_path : text) (kept deleted : nat)
| P_delete_undeclared (dry_run : bool) (relative_path : text)
| P_blacklist (relative_path : text) (declared : nat)
| P_complete
| P_target_missing (target_dir : list text)
| P_mcmeta_missing
| P_mcmeta_start
| P_old_description (original_desc : text)
| P_new_description (new_desc : text)
| P_mcmeta_modified
| P_mcmeta_would_modify
| P_description_prefixed
| P_mcmeta_no_description
| P_mcmeta_invalid_json
| P_mcmeta_failed
| P_credits_start
| P_credits_signed
| P_credits_append (signature : text)
| P_credits_modified
| P_credits_would_modify
| P_credits_absent
| P_credits_created
| P_credits_would_create
| P_credits_failed
| P_config_missing (config_path : list text)
| P_reading_config (config_path : list text)
| P_searching (pack_dir : list text)
| P_mcmeta_not_found
| P_found_root (pack_root : list text)
| P_assets_missing (assets_dir : list text)
| P_assets_dir (assets_dir : list text)
| P_deleting (dry_run : bool)
| P_config_no_assets
| P_deleted
| P_all_done.

Inductive event :=
| Warning (m : message)
| Error (m : message)
| Print (m : printed)
| Unlinked (q : path)
| Tree_removed (q : path)
| Emptied (q : path)
| Written (q : path) (content : text).

Inductive res (A : Type) :=
| Done (a : A) (t : node) (log : list event)
| Crash (t : node) (log : list event).
Arguments Done {A} a t log.
Arguments Crash {A} t log.

Definition M (A : Type) := node -> res A.

Definition ret {A} (a : A) : M A := fun t => Done a t [].

(** Put the events [l] in front of those of [r]. *)
Definition after {A} (l : list event) (r : res A) : res A :=
  match r with
  | Done a t l' => Done a t (l ++ l')
  | Crash t l' => Crash t (l ++ l')
  end.

Definition bind {A B} (m : M A) (f : A -> M B) : M B := fun t =>
  match m t with
  | Done a t' l => after l (f a t')
  | Crash t' l => Crash t' l
  end.

Declare Scope eff_scope.
Delimit Scope eff_scope with eff.
Notation "x <- m ;; k" := (bind m (fun x => k))
  (at level 100, m at next level, k at level 200, right associativity) : eff_scope.
Notation "m ;; k" := (bind m (fun _ => k))
  (at level 100, k at level 200, right associativity) : eff_scope.
Local Open Scope eff_scope.

Definition emit (e : event) : M unit := fun t => Done tt t [e].
Definition raise {A} : M A := fun t => Crash t [].

(** [print(...)] of a message made of constant text and the texts [shown]
    (the components of a path, for a path): [UnicodeEncodeError] when one
    of them cannot be encoded. *)
Definition say (shown : list text) (m : printed) : M unit :=
  if forallb printable shown then emit (Print m) else raise.
Definition read {A} (f : node -> A) : M A := fun t => Done (f t) t [].

Definition for_each {A} (f : A -> M unit) : list A -> M unit :=
  fix go xs :=
    match xs with
    | [] => ret tt
    | x :: rest => f x ;; go rest
    end.

Definition final {A} (r : res A) : node :=
  match r with Done _ t _ => t | Crash t _ => t end.

Definition events {A} (r : res A) : list event :=
  match r with Done _ _ l => l | Crash _ l => l end.

Definition is_deletion (e : event) : bool :=
  match e with
  | Unlinked _ | Tree_removed _ | Emptied _ => true
  | _ => false
  end.

(** The deletions a run performed, in order. *)
Definition deletions {A} (r : res A) : list event :=
  List.filter is_deletion (events r).

(** [Path.unlink]: the path must lead to a regular file. *)
Definition unlink (p : list text) : M unit := fun t =>
  match resolve t p with
  | Some (n :: q) =>
      match stat (n :: q) t with
      | Some (KFile _) => Done tt (rm (n :: q) t) [Unlinked (n :: q)]
      | _ => Crash t []
      end
  | _ => Crash t []
  end.

(** Whether [os.rmdir(p)] succeeds on the emptied directory [q]: the path
    must still lead to it, and it must not be the root or end in [..]. *)
Definition can_rmdir (t : node) (p : list text) (q : path) : bool :=
  bool_decide (p <> [] /\ List.last p [] <> lit ".." /\ resolve t p = Some q).

(** [shutil.rmtree]: the path must lead to a directory.  Its content is
    removed through the open directory; then the directory itself is
    removed by path, and the failure of that last step is raised. *)
Definition rmtree (p : list text) : M unit := fun t =>
  match resolve t p with
  | Some q =>
      match stat q t with
      | Some KDir =>
          if can_rmdir (clear q t) p q
          then Done tt (rm q t) [Tree_removed q]
          else Crash (clear q t) [Emptied q]
      | _ => Crash t []
      end
  | None => Crash t []
  end.

(** ** The rule evaluator *)

Definition delete_path (p : list text) : M unit :=
  e <- read (fun t => exists_ t p) ;;
  if negb e then emit (Warning (Path_does_not_exist p))
  else
    f <- read (fun t => is_file t p) ;;
    if f then unlink p
    else
      d <- read (fun t => is_dir t p) ;;
      if d then rmtree p else ret tt.

(** [f"{relative_path}/{name}" if relative_path else name] *)
Definition child (relative_path name : text) : text :=
  match relative_path with
  | [] => name
  | _ :: _ => relative_path ++ lit "/" ++ name
  end.

Inductive list_mode := Preserve | Delete.

(** [isinstance(mode, str) and mode in ("preserve", "delete")] *)
Definition mode_of (mode : json) : option list_mode :=
  match mode with
  | JStr m =>
      if decide (m = lit "preserve") then Some Preserve
      else if decide (m = lit "delete") then Some Delete
      else None
  | _ => None
  end.

Section Evaluator.

(** The order in which Python iterates over the set [items_to_delete]. *)
Variable order : list text -> list text.

Fixpoint process_rule (base_path : list text) (relative_path : text)
    (rule : json) {struct rule} : M unit :=
  let current_path := pjoin base_path relative_path in
  match rule with
  | JStr r =>
      if decide (r = lit "delete") then delete_path current_path
      else if decide (r = lit "preserve") then ret tt
      else emit (Warning (Unknown_rule r relative_path))
  | JObj members =>
      for_each (fun m => process_rule base_path (child relative_path m.1) m.2)
               members
  | JArr items =>
      match items with
      | [mode; declarations] =>
          match mode_of mode with
          | None => emit (Warning (Unknown_mode mode relative_path))
          | Some m =>
              match declarations with
              | JObj decls =>
                  e <- read (fun t => exists_ t current_path) ;;
                  if negb e
                  then emit (Warning (Directory_does_not_exist relative_path))
                  else
                    d <- read (fun t => is_dir t current_path) ;;
                    if negb d
                    then emit (Warning (Not_a_directory relative_path))
                    else
                      existing_items <- read (fun t => iterdir t current_path) ;;
                      let declared_items := keys decls in
                      match m with
                      | Preserve =>
                          let items_to_delete :=
                            order (filter (fun n => n ∉ declared_items)
                                          existing_items) in
                          for_each (fun item_name =>
                                      delete_path (pjoin current_path item_name))
                                   items_to_delete ;;
                          for_each (fun m => process_rule base_path
                                               (child relative_path m.1) m.2)
                                   decls
                      | Delete =>
                          for_each (fun m => process_rule base_path
                                               (child relative_path m.1) m.2)
                                   decls
                      end
              | _ => emit (Warning (Declarations_not_object relative_path))
              end
          end
      | _ => emit (Warning (Incorrect_array_rule relative_path))
      end
  | JNull | JBool _ | JNum _ => ret tt
  end.

End Evaluator.

(** ** The legacy evaluator ([legacy/patch.py]) *)

Module Legacy.

Definition delete_path (p : list text) : M unit :=
  e <- read (fun t => exists_ t p) ;;
  if negb e then say p (P_skip_missing p)
  else
    f <- read (fun t => is_file t p) ;;
    if f then unlink p ;; say p (P_deleted_file p)
    else
      d <- read (fun t => is_dir t p) ;;
      if d then rmtree p ;; say p (P_deleted_dir p) else ret tt.

(** The texts [f"{mode}"] puts into a message: a string as it is; for any
    other value, its [repr], which escapes what cannot be encoded. *)
Definition shown_value (v : json) : list text :=
  match v with JStr s => [s] | _ => [] end.

Section Evaluator.

Variable order : list text -> list text.

Fixpoint process_rule (base_path : list text) (relative_path : text)
    (rule : json) (dry_run : bool) {struct rule} : M unit :=
  let current_path := pjoin base_path relative_path in
  match rule with
  | JStr r =>
      if decide (r = lit "delete") then
        say [relative_path] (P_delete dry_run relative_path) ;;
        if negb dry_run then delete_path current_path else ret tt
      else if decide (r = lit "preserve") then
        say [relative_path] (P_keep relative_path)
      else say [r; relative_path] (P_unknown_rule r relative_path)
  | JObj members =>
      say [relative_path] (P_enter relative_path) ;;
      for_each (fun m => process_rule base_path (child relative_path m.1)
                           m.2 dry_run)
               members
  | JArr items =>
      match items with
      | [mode; declarations] =>
          match mode_of mode with
          | None =>
              say (shown_value mode ++ [relative_path])
                  (P_unknown_mode mode relative_path)
          | Some m =>
              match declarations with
              | JObj decls =>
                  e <- read (fun t => exists_ t current_path) ;;
                  if negb e
                  then say [relative_path] (P_directory_missing relative_path)
                  else
                    d <- read (fun t => is_dir t current_path) ;;
                    if negb d
                    then say [relative_path] (P_not_a_directory relative_path)
                    else
                      existing_items <-
                        read (fun t => iterdir t current_path) ;;
                      let declared_items := keys decls in
                      match m with
                      | Preserve =>
                          let items_to_delete :=
                            order (filter (fun n => n ∉ declared_items)
                                          existing_items) in
                          say [relative_path]
                              (P_whitelist relative_path
                                 (length declared_items)
                                 (length items_to_delete)) ;;
                          for_each
                            (fun item_name =>
                               say [child relative_path item_name]
                                   (P_delete_undeclared dry_run
                                      (child relative_path item_name)) ;;
                               if negb dry_run
                               then delete_path (pjoin current_path item_name)
                               else ret tt)
                            items_to_delete ;;
                          for_each (fun m => process_rule base_path
                                               (child relative_path m.1)
                                               m.2 dry_run)
                                   decls
                      | Delete =>
                          say [relative_path]
                              (P_blacklist relative_path
                                 (length declared_items)) ;;
                          for_each (fun m => process_rule base_path
                                               (child relative_path m.1)
                                               m.2 dry_run)
                                   decls
                      end
              | _ => say [relative_path]
                         (P_declarations_not_object relative_path)
              end
          end
      | _ => say [relative_path] (P_bad_array relative_path)
      end
  | JNull | JBool _ | JNum _ => ret tt
  end.

End Evaluator.

End Legacy.

(** ** Text files *)

(** [c.isspace()] *)
Definition is_space (c : N) : bool :=
  (((9 <=? c) && (c <=? 13)) || ((28 <=? c) && (c <=? 32)) ||
   (c =? 133) || (c =? 160) || (c =? 5760) ||
   ((8192 <=? c) && (c <=? 8202)) ||
   (c =? 8232) || (c =? 8233) || (c =? 8239) || (c =? 8287) ||
   (c =? 12288))%N.

Fixpoint lstrip (s : text) : text :=
  match s with
  | c :: rest => if is_space c then lstrip rest else s
  | [] => []
  end.

Definition rstrip (s : text) : text := rev (lstrip (rev s)).

Definition strip (s : text) : text := lstrip (rstrip s).

(** What a text-mode read returns: [\r\n] and a lone [\r] become [\n]. *)
Fixpoint universal_newlines (s : text) : text :=
  match s with
  | [] => []
  | c :: rest =>
      if decide (c = 13) then
        10 :: match rest with
              | c' :: rest' =>
                  if decide (c' = 10) then universal_newlines rest'
                  else universal_newlines rest
              | [] => []
              end
      else c :: universal_newlines rest
  end.

(** [open(p, "r", encoding="utf-8").read()] *)
Definition read_text (p : list text) : M text := fun t =>
  match stat_at t p with
  | Some (KFile content) => Done (universal_newlines content) t []
  | _ => Crash t []
  end.

Fixpoint upsert (n : text) (x : node) (es : list (text * node))
  : list (text * node) :=
  match es with
  | [] => [(n, x)]
  | (m, y) :: rest =>
      if decide (m = n) then (m, x) :: rest else (m, y) :: upsert n x rest
  end.

(** Put [x] under the name [n] into the directory at [q]. *)
Fixpoint put (q : path) (n : text) (x : node) (t : node) : node :=
  match q, t with
  | [], Dir es => Dir (upsert n x es)
  | m :: q', Dir es => Dir (alter_entry (put q' n x) m es)
  | _, File _ => t
  end.

(** [open(p, "w", encoding="utf-8").write(content)]: the parent must be a
    directory and [p] itself must not be one. *)
Definition write_text (p : list text) (content : text) : M unit := fun t =>
  match p with
  | [] => Crash t []
  | _ :: _ =>
      let parent := removelast p in
      let name := List.last p [] in
      if decide (name = lit "..") then Crash t []
      else
        match resolve t parent with
        | Some q =>
            match stat q t, stat (q ++ [name]) t with
            | Some KDir, Some KDir => Crash t []
            | Some KDir, _ =>
                Done tt (put q name (File content) t)
                     [Written (q ++ [name]) content]
            | _, _ => Crash t []
            end
        | None => Crash t []
        end
  end.

(** What [json.dump(document, f, indent=2, ensure_ascii=False)] does to a
    file opened for writing: it writes all of the text, or it raises
    [UnicodeEncodeError] at a string that cannot be encoded, after the text
    in front of that string has been written. *)
Inductive dumped :=
| Dumped (content : text)
| Dump_failed (written : text).

(** [with p.open("w", encoding="utf-8") as f: json.dump(document, f, ...)],
    given what the dump does. *)
Definition dump_to (p : list text) (d : dumped) : M unit :=
  match d with
  | Dumped content => write_text p content
  | Dump_failed written => write_text p written ;; raise
  end.

(** [try: body except Exception: handler] *)
Definition catch {A} (body handler : M A) : M A := fun t =>
  match body t with
  | Done a t' l => Done a t' l
  | Crash t' l => after l (handler t')
  end.

(** ** Python operators on JSON values ([None]: the operator raises) *)

(** [key in container] *)
Definition py_in (key : text) (container : json) : option bool :=
  match container with
  | JObj members => Some (bool_decide (key ∈ keys members))
  | JArr items => Some (existsb (fun x => match x with
                                         | JStr s => bool_decide (s = key)
                                         | _ => false
                                         end) items)
  | JStr s => Some (contains key s)
  | _ => None
  end.

(** [container[key]] for a string key *)
Definition py_getitem (container : json) (key : text) : option json :=
  match container with
  | JObj members => assoc key members
  | _ => None
  end.

(** [d[key] = v] on a dict *)
Fixpoint set_member (key : text) (v : json) (members : list (text * json))
  : list (text * json) :=
  match members with
  | [] => [(key, v)]
  | (k, w) :: rest =>
      if decide (k = key) then (k, v) :: rest
      else (k, w) :: set_member key v rest
  end.

(** ** The description patcher *)

(** ["§dMINI §7"] *)
Definition prefix : text := 167 :: lit "dMINI " ++ 167 :: lit "7".

(** ["§8modified by §7TunaFish2K"] *)
Definition second_line : text :=
  167 :: lit "8modified by " ++ 167 :: lit "7TunaFish2K".

Definition patch_description (original_desc : text) : text :=
  let lines := split_on 10 original_desc in
  let lines :=
    match lines with
    | first :: rest =>
        (if is_prefix_of prefix first then first else prefix ++ first) :: rest
    | [] => []
    end in
  let lines :=
    match lines with
    | first :: _ :: rest => first :: second_line :: rest
    | _ => lines ++ [second_line]
    end in
  join_with [10] lines.

Inductive patched :=
| Unchanged
| Changed (pack_data : json)
| No_description
| Failed.

(** The body of the [try] in [modify_pack_mcmeta], on the loaded document. *)
Definition patch_pack_data (pack_data : json) : patched :=
  match py_in (lit "pack") pack_data with
  | None => Failed
  | Some false => No_description
  | Some true =>
      match py_getitem pack_data (lit "pack") with
      | None => Failed
      | Some pack =>
          match py_in (lit "description") pack with
          | None => Failed
          | Some false => No_description
          | Some true =>
              match py_getitem pack (lit "description"), pack, pack_data with
              | Some (JStr original_desc), JObj pack_members, JObj members =>
                  let new_desc := patch_description original_desc in
                  if decide (new_desc <> original_desc) then
                    Changed
                      (JObj (set_member (lit "pack")
                               (JObj (set_member (lit "description")
                                        (JStr new_desc) pack_members))
                               members))
                  else Unchanged
              | _, _, _ => Failed
              end
          end
      end
  end.

Section Codec.

(** [json.load] on the text of a file ([None]: [JSONDecodeError]) and
    [json.dump(..., indent=2, ensure_ascii=False)]. *)
Variable json_load : text -> option json.
Variable json_dump : json -> dumped.

Definition modify_pack_mcmeta (pack_root : list text) : M unit :=
  let pack_meta_path := pjoin pack_root (lit "pack.mcmeta") in
  e <- read (fun t => exists_ t pack_meta_path) ;;
  if negb e then emit (Warning Mcmeta_missing)
  else
    catch
      (source <- read_text pack_meta_path ;;
       match json_load source with
       | None => emit (Error Mcmeta_invalid_json)
       | Some pack_data =>
           match patch_pack_data pack_data with
           | Unchanged => ret tt
           | Changed pack_data' =>
               dump_to pack_meta_path (json_dump pack_data')
           | No_description => emit (Warning Mcmeta_no_description)
           | Failed => raise
           end
       end)
      (emit (Error Mcmeta_failed)).

End Codec.

(** ** The credits patcher *)

Definition modify_credits (pack_root script_root : list text) : M unit :=
  let credits_path := pjoin pack_root (lit "credits.txt") in
  let signature_path := pjoin script_root (lit "credits.txt") in
  e <- read (fun t => exists_ t signature_path) ;;
  if negb e then emit (Warning Credits_template_missing)
  else
    catch
      (template <- read_text signature_path ;;
       let signature := strip template in
       e <- read (fun t => exists_ t credits_path) ;;
       if e then
         content <- read_text credits_path ;;
         if contains signature content then ret tt
         else
           let new_content :=
             rstrip content ++ [10; 10] ++ signature ++ [10] in
           write_text credits_path new_content
       else write_text credits_path (signature ++ [10]))
      (emit (Error Credits_failed)).

(** ** Locating the pack and [main] *)

(** The directories of a tree, parents first, as paths relative to it. *)
Fixpoint directories (x : node) : list path :=
  match x with
  | File _ => []
  | Dir es => [] :: flat_map (fun e => map (cons e.1) (directories e.2)) es
  end.

(** The directory of the first match of [target_dir.rglob(name)], if any,
    relative to [target_dir]. *)
Definition rglob_first (t : node) (target_dir : list text) (name : text)
  : option (list text) :=
  match resolve t target_dir with
  | Some q =>
      match find q t with
      | Some x =>
          List.find (fun d => bool_decide (is_Some (stat (q ++ d ++ [name]) t)))
                    (directories x)
      | None => None
      end
  | None => None
  end.

Definition find_pack_mcmeta (target_dir : list text) : M (option (list text)) :=
  e <- read (fun t => exists_ t target_dir) ;;
  if negb e then
    emit (Error (Target_directory_missing target_dir)) ;; ret None
  else
    e <- read (fun t => exists_ t (pjoin target_dir (lit "pack.mcmeta"))) ;;
    if e then ret (Some target_dir)
    else
      found <- read (fun t => rglob_first t target_dir (lit "pack.mcmeta")) ;;
      match found with
      | Some d => ret (Some (target_dir ++ d))
      | None => ret None
      end.

Inductive pack_type := Legacy_pack | Modern_pack.

Section Main.

Variable json_load : text -> option json.
Variable json_dump : json -> dumped.
Variable order : list text -> list text.

(** The overlay copier is kept abstract: any computation on the tree,
    possibly raising. *)
Variable copy_overrides : list text -> list text -> M unit.

(** [main], after [argparse] has produced [pack_dir] and [--type];
    [script_root] is [Path(__file__).parent]. *)
Definition main (script_root pack_dir : list text) (type : pack_type) : M Z :=
  let script_dir :=
    match type with
    | Legacy_pack => pjoin script_root (lit "legacy")
    | Modern_pack => pjoin script_root (lit "modern")
    end in
  let config_path := pjoin script_dir (lit "delete.json") in
  e <- read (fun t => exists_ t config_path) ;;
  if negb e then emit (Error (Config_missing config_path)) ;; ret 1%Z
  else
    source <- read_text config_path ;;
    match json_load source with
    | None => raise
    | Some config =>
        pack_root <- find_pack_mcmeta pack_dir ;;
        match pack_root with
        | None => emit (Error Mcmeta_not_found) ;; ret 1%Z
        | Some pack_root =>
            let assets_dir := pjoin pack_root (lit "assets") in
            e <- read (fun t => exists_ t assets_dir) ;;
            if negb e then
              emit (Error (Assets_missing assets_dir)) ;; ret 1%Z
            else
              match py_in (lit "assets") config with
              | None => raise
              | Some false => emit (Error Config_no_assets) ;; ret 1%Z
              | Some true =>
                  match py_getitem config (lit "assets") with
                  | Some (JObj assets_rules) =>
                      for_each (fun m => process_rule order assets_dir m.1 m.2)
                               assets_rules ;;
                      copy_overrides script_dir pack_root ;;
                      modify_pack_mcmeta json_load json_dump pack_root ;;
                      modify_credits pack_root script_root ;;
                      emit (Print P_complete) ;;
                      ret 0%Z
                  | _ => raise
                  end
              end
        end
    end.

End Main.

(** The value a run returned, if it returned. *)
Definition returned {A} (r : res A) : option A :=
  match r with Done a _ _ => Some a | Crash _ _ => None end.

(** ** The legacy script: locating the pack, the patchers and [main] *)

Module LegacyScript.

Definition find_pack_mcmeta (target_dir : list text) : M (option (list text)) :=
  e <- read (fun t => exists_ t target_dir) ;;
  if negb e then
    say target_dir (P_target_missing target_dir) ;; ret None
  else
    e <- read (fun t => exists_ t (pjoin target_dir (lit "pack.mcmeta"))) ;;
    if e then ret (Some target_dir)
    else
      found <- read (fun t => rglob_first t target_dir (lit "pack.mcmeta")) ;;
      match found with
      | Some d => ret (Some (target_dir ++ d))
      | None => ret None
      end.

(** What the [try] of [modify_pack_mcmeta] finds in the loaded document
    before it prints anything. *)
Inductive described :=
| Description (original_desc : text)
              (pack_members members : list (text * json))
| No_description
| Failed.

Definition description_of (pack_data : json) : described :=
  match py_in (lit "pack") pack_data with
  | None => Failed
  | Some false => No_description
  | Some true =>
      match py_getitem pack_data (lit "pack") with
      | None => Failed
      | Some pack =>
          match py_in (lit "description") pack with
          | None => Failed
          | Some false => No_description
          | Some true =>
              match py_getitem pack (lit "description"), pack, pack_data with
              | Some (JStr original_desc), JObj pack_members, JObj members =>
                  Description original_desc pack_members members
              | _, _, _ => Failed
              end
          end
      end
  end.

Section Codec.

Variable json_load : text -> option json.
Variable json_dump : json -> dumped.

Definition modify_pack_mcmeta (pack_root : list text) (dry_run : bool)
  : M unit :=
  let pack_meta_path := pjoin pack_root (lit "pack.mcmeta") in
  e <- read (fun t => exists_ t pack_meta_path) ;;
  if negb e then emit (Print P_mcmeta_missing)
  else
    emit (Print P_mcmeta_start) ;;
    catch
      (source <- read_text pack_meta_path ;;
       match json_load source with
       | None => emit (Print P_mcmeta_invalid_json)
       | Some pack_data =>
           match description_of pack_data with
           | Description original_desc pack_members members =>
               if negb (is_prefix_of prefix original_desc) then
                 let new_desc := prefix ++ original_desc in
                 let pack_data' :=
                   JObj (set_member (lit "pack")
                           (JObj (set_member (lit "description")
                                    (JStr new_desc) pack_members))
                           members) in
                 say [original_desc] (P_old_description original_desc) ;;
                 say [new_desc] (P_new_description new_desc) ;;
                 if negb dry_run then
                   dump_to pack_meta_path (json_dump pack_data') ;;
                   emit (Print P_mcmeta_modified)
                 else emit (Print P_mcmeta_would_modify)
               else emit (Print P_description_prefixed)
           | No_description => emit (Print P_mcmeta_no_description)
           | Failed => raise
           end
       end)
      (emit (Print P_mcmeta_failed)).

End Codec.

(** The signature the legacy script carries in its text: two lines, then a
    line of four spaces. *)
Definition signature : text :=
  lit "Mini version by TunaFish2K" ++ [10] ++
  lit "Used textures of older version of Furfsky Reborn" ++ [10] ++
  lit "    ".

Definition modify_credits (pack_root : list text) (dry_run : bool) : M unit :=
  let credits_path := pjoin pack_root (lit "credits.txt") in
  emit (Print P_credits_start) ;;
  catch
    (e <- read (fun t => exists_ t credits_path) ;;
     if e then
       content <- read_text credits_path ;;
       if contains signature content then emit (Print P_credits_signed)
       else
         let new_content := rstrip content ++ [10] ++ signature ++ [10] in
         emit (Print (P_credits_append signature)) ;;
         if negb dry_run then
           write_text credits_path new_content ;;
           emit (Print P_credits_modified)
         else emit (Print P_credits_would_modify)
     else
       emit (Print P_credits_absent) ;;
       if negb dry_run then
         write_text credits_path (signature ++ [10]) ;;
         emit (Print P_credits_created)
       else emit (Print P_credits_would_create))
    (emit (Print P_credits_failed)).

Section Main.

Variable json_load : text -> option json.
Variable json_dump : json -> dumped.
Variable order : list text -> list text.

(** The overlay copier is kept abstract, as for the current script. *)
Variable copy_overrides : list text -> list text -> bool -> M unit.

(** [main], after [argparse] has produced [pack_dir] and [--dry-run];
    [script_dir] is [Path(__file__).parent.resolve()]. *)
Definition main (script_dir pack_dir : list text) (dry_run : bool) : M Z :=
  let config_path := pjoin script_dir (lit "delete.json") in
  e <- read (fun t => exists_ t config_path) ;;
  if negb e then say config_path (P_config_missing config_path) ;; ret 1%Z
  else
    say config_path (P_reading_config config_path) ;;
    source <- read_text config_path ;;
    match json_load source with
    | None => raise
    | Some config =>
        say pack_dir (P_searching pack_dir) ;;
        pack_root <- find_pack_mcmeta pack_dir ;;
        match pack_root with
        | None => emit (Print P_mcmeta_not_found) ;; ret 1%Z
        | Some pack_root =>
            say pack_root (P_found_root pack_root) ;;
            let assets_dir := pjoin pack_root (lit "assets") in
            e <- read (fun t => exists_ t assets_dir) ;;
            if negb e then
              say assets_dir (P_assets_missing assets_dir) ;; ret 1%Z
            else
              say assets_dir (P_assets_dir assets_dir) ;;
              emit (Print (P_deleting dry_run)) ;;
              match py_in (lit "assets") config with
              | None => raise
              | Some false => emit (Print P_config_no_assets) ;; ret 1%Z
              | Some true =>
                  match py_getitem config (lit "assets") with
                  | Some (JObj assets_rules) =>
                      for_each (fun m => Legacy.process_rule order assets_dir
                                           m.1 m.2 dry_run)
                               assets_rules ;;
                      emit (Print P_deleted) ;;
                      copy_overrides script_dir pack_root dry_run ;;
                      modify_pack_mcmeta json_load json_dump pack_root dry_run ;;
                      modify_credits pack_root dry_run ;;
                      emit (Print P_all_done) ;;
                      ret 0%Z
                  | _ => raise
                  end
              end
        end
    end.

End Main.

End LegacyScript.

(** ** Sample data *)

Module Sample.

Definition same_order (names : list text) : list text := names.

(** The template [credits.txt] next to the script. *)
Definition template : text := lit "Mini version by TunaFish2K" ++ [10].

(** [{"assets": {"ns": ["preserve", {"a": "preserve"}]}}] *)
Definition config : json :=
  JObj [(lit "assets",
         JObj [(lit "ns",
                JArr [JStr (lit "preserve");
                      JObj [(lit "a", JStr (lit "preserve"))]])])].

(** [{"pack": {"pack_format": 1, "description": "Foo"}}] *)
Definition mcmeta : json :=
  JObj [(lit "pack",
         JObj [(lit "pack_format", JNum 1);
               (lit "description", JStr (lit "Foo"))])].

Definition mcmeta_patched : json :=
  JObj [(lit "pack",
         JObj [(lit "pack_format", JNum 1);
               (lit "description",
                JStr (prefix ++ lit "Foo" ++ [10] ++ second_line))])].

(** A text between double quotes. *)
Definition dq (s : text) : text := 34 :: s ++ [34].

Definition config_text : text :=
  lit "{" ++ dq (lit "assets") ++ lit ": {" ++ dq (lit "ns") ++ lit ": [" ++
  dq (lit "preserve") ++ lit ", {" ++ dq (lit "a") ++ lit ": " ++
  dq (lit "preserve") ++ lit "}]}}".

(** [{"assets": []}] *)
Definition assets_list_text : text :=
  lit "{" ++ dq (lit "assets") ++ lit ": []}".

Definition mcmeta_text : text :=
  lit "{" ++ dq (lit "pack") ++ lit ": {" ++ dq (lit "pack_format") ++
  lit ": 1, " ++ dq (lit "description") ++ lit ": " ++ dq (lit "Foo") ++
  lit "}}".

(** What [json.dump(..., indent=2, ensure_ascii=False)] writes for
    [mcmeta_patched]. *)
Definition mcmeta_patched_text : text :=
  join_with [10]
    [lit "{";
     lit "  " ++ dq (lit "pack") ++ lit ": {";
     lit "    " ++ dq (lit "pack_format") ++ lit ": 1,";
     lit "    " ++ dq (lit "description") ++ lit ": " ++
       dq (prefix ++ lit "Foo" ++ [92; 110] ++ second_line);
     lit "  }";
     lit "}"].

(** [json.load] on the texts of this sample; [load] rejects every other
    text, as it must for [not json]. *)
Definition load (source : text) : option json :=
  if decide (source = lit "{}") then Some (JObj [])
  else if decide (source = assets_list_text)
  then Some (JObj [(lit "assets", JArr [])])
  else if decide (source = config_text) then Some config
  else if decide (source = mcmeta_text) then Some mcmeta
  else if decide (source = mcmeta_patched_text) then Some mcmeta_patched
  else None.

(** [json.dump] where the sample uses it: on [mcmeta_patched]. *)
Definition dump (document : json) : dumped := Dumped mcmeta_patched_text.

(** [copy_overrides] when the script has no [overrides] directory. *)
Definition no_overrides (script_dir target_dir : list text) : M unit :=
  emit (Warning Overrides_missing).

Definition namespace : node :=
  Dir [(lit "a", File (lit "A"));
       (lit "b", Dir [(lit "x", File [])]);
       (lit "c", File (lit "C"))].

Definition pack : node :=
  Dir [(lit "pack.mcmeta", File mcmeta_text);
       (lit "assets", Dir [(lit "ns", namespace)])].

Definition tool (legacy_config : text) : node :=
  Dir [(lit "credits.txt", File template);
       (lit "legacy", Dir [(lit "delete.json", File legacy_config)])].

(** [/tool] holds the script, [/pack] the resource pack. *)
Definition disk : node :=
  Dir [(lit "tool", tool config_text); (lit "pack", pack)].

(** The same, with a configuration file that is not JSON. *)
Definition disk_bad_config : node :=
  Dir [(lit "tool", tool (lit "not json")); (lit "pack", pack)].

(** The same, with the configuration [{}]. *)
Definition disk_empty_config : node :=
  Dir [(lit "tool", tool (lit "{}")); (lit "pack", pack)].

(** The same, with a configuration whose ["assets"] is a list. *)
Definition disk_assets_list : node :=
  Dir [(lit "tool", tool assets_list_text); (lit "pack", pack)].

(** The same, with an empty [credits.txt] in the pack. *)
Definition disk_empty_credits : node :=
  Dir [(lit "tool", tool config_text);
       (lit "pack", Dir [(lit "pack.mcmeta", File mcmeta_text);
                         (lit "credits.txt", File [])])].

(** [["preserve", {"a": "preserve"}]] and [["delete", {"a": "delete"}]] *)
Definition keep_a : json :=
  JArr [JStr (lit "preserve"); JObj [(lit "a", JStr (lit "preserve"))]].

Definition drop_a : json :=
  JArr [JStr (lit "delete"); JObj [(lit "a", JStr (lit "delete"))]].

Definition script_root : list text := [lit "tool"].
Definition pack_root : list text := [lit "pack"].
Definition assets : list text := [lit "pack"; lit "assets"].

End Sample.

(** ** Vocabulary of the properties *)

(** Every string of the rule, keys included, can be printed. *)
Fixpoint legible (rule : json) : bool :=
  match rule with
  | JStr r => printable r
  | JArr items => forallb legible items
  | JObj members => forallb (fun m => printable m.1 && legible m.2) members
  | _ => true
  end.

(** Every name in the tree can be printed. *)
Fixpoint names_printable (x : node) : bool :=
  match x with
  | File _ => true
  | Dir es => forallb (fun e => printable e.1 && names_printable e.2) es
  end.

(** Rule trees made of ["preserve"] leaves and mappings only. *)
Fixpoint preserve_only (rule : json) : bool :=
  match rule with
  | JStr r => bool_decide (r = lit "preserve")
  | JObj members => forallb (fun m => preserve_only m.2) members
  | _ => false
  end.

Definition completed {A} (r : res A) : bool :=
  match r with Done _ _ _ => true | Crash _ _ => false end.

(** Two runs agree when both complete or both raise, end in the same tree
    and performed the same deletions in the same order. *)
Definition agree (r1 r2 : res unit) : Prop :=
  completed r1 = completed r2 /\ final r1 = final r2 /\
  deletions r1 = deletions r2.

(** An ordinary entry name, read as a path string: one component, not [..]. *)
Definition simple_name (n : text) : Prop :=
  is_absolute n = false /\ parts n = [n] /\ n <> lit "..".

(** What is left of [t] once the entries [names] of directory [q] are gone. *)
Definition without (q : path) (names : list text) (t : node) : node :=
  foldl (fun s n => rm (q ++ [n]) s) t names.

(** [embeds t t']: every location of [t] is a location of [t'], and it is a
    directory in both or in neither. *)
Definition embeds (t t' : node) : Prop :=
  forall p k, stat p t = Some k ->
    exists k', stat p t' = Some k' /\ (k = KDir <-> k' = KDir).

(** The directory [target_dir] exists and an entry called [pack.mcmeta] is
    found in it or somewhere in its subtree. *)
Definition has_marker (t : node) (target_dir : list text) : Prop :=
  exists q r, resolve t target_dir = Some q /\
              is_Some (stat (q ++ r ++ [lit "pack.mcmeta"]) t).

(** [m] can only return [z]. *)
Definition yields {A} (z : A) (m : M A) : Prop :=
  forall t v, returned (m t) = Some v -> v = z.

Definition is_print (e : event) : bool :=
  match e with Print _ => true | _ => false end.

Definition is_warning (e : event) : bool :=
  match e with Warning _ => true | _ => false end.

(** The first line of a description as the patcher leaves it. *)
Definition prefixed (first : text) : text :=
  if is_prefix_of prefix first then first else prefix ++ first.

Definition is_error (e : event) : bool :=
  match e with Error _ => true | _ => false end.

(** A pack at [/pack] whose [credits.txt] holds [raw], beside the tool. *)
Definition disk_with_credits (raw : text) : node :=
  Dir [(lit "tool", Sample.tool Sample.config_text);
       (lit "pack", Dir [(lit "pack.mcmeta", File Sample.mcmeta_text);
                         (lit "credits.txt", File raw)])].

(** What [json.dump(..., indent=2, ensure_ascii=False)] writes for the
    sample [pack.mcmeta] once the legacy script has put the prefix in front
    of its description. *)
Definition legacy_patched_text : text :=
  join_with [10]
    [lit "{";
     lit "  " ++ Sample.dq (lit "pack") ++ lit ": {";
     lit "    " ++ Sample.dq (lit "pack_format") ++ lit ": 1,";
     lit "    " ++ Sample.dq (lit "description") ++ lit ": " ++
       Sample.dq (prefix ++ lit "Foo");
     lit "  }";
     lit "}"].

(** [json.dump] where the legacy sample uses it. *)
Definition legacy_dump (document : json) : dumped := Dumped legacy_patched_text.

(** [{"<U+D800>": "preserve", "a": "delete"}]: a mapping whose first key is
    a lone surrogate, as [json.load] returns it for the key ["\ud800"]. *)
Definition surrogate_key_rule : json :=
  JObj [([55296%N], JStr (lit "preserve")); (lit "a", JStr (lit "delete"))].

(** * Properties *)

(** ** Induction on JSON values *)

Lemma json_induction (P : json -> Prop) :
  P JNull ->
  (forall b, P (JBool b)) ->
  (forall z, P (JNum z)) ->
  (forall s, P (JStr s)) ->
  (forall items, Forall P items -> P (JArr items)) ->
  (forall members, Forall (fun m => P m.2) members -> P (JObj members)) ->
  forall j, P j.
Proof.
  intros Hnull Hbool Hnum Hstr Harr Hobj.
  fix IH 1. intros [ | b | z | s | items | members ].
  - exact Hnull.
  - apply Hbool.
  - apply Hnum.
  - apply Hstr.
  - apply Harr. induction items as [ | j items IHitems ]; constructor.
    + apply IH.
    + exact IHitems.
  - apply Hobj. induction members as [ | [k j] members IHm ]; constructor.
    + apply IH.
    + exact IHm.
Qed.

(** ** The tree operations *)

Lemma assoc_drop_entry n k es :
  assoc k (drop_entry n es) = if decide (k = n) then None else assoc k es.
Proof.
  unfold drop_entry. induction es as [ | [m x] es IH ]; simpl.
  - by destruct (decide (k = n)).
  - rewrite filter_cons. simpl.
    destruct (decide (m <> n)) as [Hmn | Hmn]; simpl.
    + destruct (decide (m = k)) as [-> | Hmk].
      * by rewrite decide_False.
      * exact IH.
    + apply dec_stable in Hmn. subst m. rewrite IH.
      destruct (decide (k = n)) as [-> | Hkn].
      * done.
      * by rewrite decide_False.
Qed.

Lemma assoc_alter_entry f n k es :
  assoc k (alter_entry f n es)
  = if decide (k = n) then f <$> assoc k es else assoc k es.
Proof.
  induction es as [ | [m x] es IH ]; simpl.
  - by destruct (decide (k = n)).
  - destruct (decide (m = n)) as [-> | Hmn]; simpl.
    + destruct (decide (n = k)) as [<- | Hnk].
      * by rewrite decide_True.
      * by rewrite decide_False.
    + destruct (decide (m = k)) as [-> | Hmk].
      * by rewrite decide_False.
      * exact IH.
Qed.

Lemma alter_entry_id f n es :
  (forall x, assoc n es = Some x -> f x = x) -> alter_entry f n es = es.
Proof.
  induction es as [ | [m x] es IH ]; simpl; intros Hf.
  - done.
  - destruct (decide (m = n)) as [-> | Hmn].
    + rewrite Hf; [done | done].
    + rewrite IH; [done | exact Hf].
Qed.

Lemma drop_entry_id n es : assoc n es = None -> drop_entry n es = es.
Proof.
  unfold drop_entry. induction es as [ | [m x] es IH ]; simpl; intros Hn.
  - done.
  - rewrite filter_cons. simpl. destruct (decide (m = n)) as [-> | Hmn].
    + discriminate.
    + rewrite decide_True by done. by rewrite IH.
Qed.

Lemma elem_of_keys_assoc {A} n (es : list (text * A)) :
  n ∈ keys es <-> is_Some (assoc n es).
Proof.
  unfold keys. induction es as [ | [m x] es IH ]; simpl.
  - split; [by intros ?%elem_of_nil | by intros [? ?]].
  - rewrite elem_of_cons, IH. destruct (decide (m = n)) as [-> | Hmn].
    + split; [by eauto | by left].
    + split; [by intros [? | ?] | by right].
Qed.

Lemma rm_cons n q t :
  rm (n :: q) t =
  match t with
  | File _ => t
  | Dir es => match q with
              | [] => Dir (drop_entry n es)
              | _ :: _ => Dir (alter_entry (rm q) n es)
              end
  end.
Proof. by destruct t, q. Qed.

Lemma find_app q p t : find (q ++ p) t = find q t ≫= find p.
Proof.
  revert t. induction q as [ | n q IH ]; intros t; simpl.
  - done.
  - destruct t as [c | es]; [done | ].
    destruct (assoc n es); [apply IH | done].
Qed.

Lemma stat_nil t : stat [] t = Some (kind_of t).
Proof. done. Qed.

Lemma stat_cons n q t :
  stat (n :: q) t =
  match t with
  | File _ => None
  | Dir es => match assoc n es with Some x => stat q x | None => None end
  end.
Proof.
  unfold stat. simpl. destruct t as [c | es]; [done | ].
  by destruct (assoc n es).
Qed.

(** Nothing is left at or below a removed location. *)
Lemma stat_rm_under q p t :
  q <> [] -> q `prefix_of` p -> stat p (rm q t) = None.
Proof.
  revert p t. induction q as [ | n q IH ]; intros p t Hq Hpre; [done | ].
  destruct Hpre as [p' ->]. rewrite rm_cons. simpl.
  destruct t as [c | es]; [by rewrite stat_cons | ].
  destruct q as [ | n' q'].
  - rewrite stat_cons, assoc_drop_entry. by rewrite decide_True.
  - rewrite stat_cons, assoc_alter_entry, decide_True by done.
    destruct (assoc n es) as [x | ]; simpl; [ | done].
    apply IH; [done | by eexists].
Qed.

(** Every other location keeps its kind and content. *)
Lemma stat_rm_other q p t :
  ~ q `prefix_of` p -> stat p (rm q t) = stat p t.
Proof.
  revert p t. induction q as [ | n q IH ]; intros p t Hpre.
  - exfalso. apply Hpre. apply prefix_nil.
  - rewrite rm_cons. destruct t as [c | es]; [done | ].
    destruct p as [ | m p].
    + by destruct q.
    + destruct q as [ | n' q'].
      * rewrite !stat_cons, assoc_drop_entry.
        destruct (decide (m = n)) as [-> | Hmn]; [ | done].
        exfalso. apply Hpre. apply prefix_cons, prefix_nil.
      * rewrite !stat_cons, assoc_alter_entry.
        destruct (decide (m = n)) as [-> | Hmn]; [ | done].
        destruct (assoc n es) as [x | ]; simpl; [ | done].
        apply IH. intros Hp. apply Hpre. by apply prefix_cons.
Qed.

(** Subtrees off the removed branch are untouched. *)
Lemma find_rm_apart q p t :
  ~ q `prefix_of` p -> ~ p `prefix_of` q -> find p (rm q t) = find p t.
Proof.
  revert p t. induction q as [ | n q IH ]; intros p t Hqp Hpq.
  - exfalso. apply Hqp. apply prefix_nil.
  - rewrite rm_cons. destruct t as [c | es]; [done | ].
    destruct p as [ | m p]; [exfalso; apply Hpq, prefix_nil | ].
    destruct q as [ | n' q']; simpl.
    + rewrite assoc_drop_entry.
      destruct (decide (m = n)) as [-> | Hmn]; [ | done].
      exfalso. apply Hqp. apply prefix_cons, prefix_nil.
    + rewrite assoc_alter_entry.
      destruct (decide (m = n)) as [-> | Hmn]; [ | done].
      destruct (assoc n es) as [x | ]; simpl; [ | done].
      apply IH; intros Hp; [apply Hqp | apply Hpq]; by apply prefix_cons.
Qed.

(** Removing what is not there changes nothing. *)
Lemma rm_absent q t : stat q t = None -> rm q t = t.
Proof.
  revert t. induction q as [ | n q IH ]; intros t Hq; [done | ].
  rewrite rm_cons. destruct t as [c | es]; [done | ].
  rewrite stat_cons in Hq. destruct q as [ | n' q'].
  - destruct (assoc n es) as [x | ] eqn:Hn; [done | ].
    by rewrite drop_entry_id.
  - f_equal. apply alter_entry_id. intros x Hx. rewrite Hx in Hq. by apply IH.
Qed.

(** Emptying a directory keeps every location that is not below it. *)
Lemma stat_clear_other q p t :
  (forall n r, p <> q ++ n :: r) -> stat p (clear q t) = stat p t.
Proof.
  revert p t. induction q as [ | n q IH ]; intros p t Hp.
  - destruct p as [ | m p]; [by destruct t | ]. by destruct (Hp m p).
  - destruct t as [c | es]; [done | ]. simpl clear.
    destruct p as [ | m p]; [done | ]. rewrite !stat_cons, assoc_alter_entry.
    destruct (decide (m = n)) as [-> | Hmn]; [ | done].
    destruct (assoc n es) as [x | ]; simpl; [ | done].
    apply IH. intros n' r ->. by apply (Hp n' r).
Qed.

Lemma stat_clear_some q p t k :
  stat p (clear q t) = Some k -> stat p t = Some k.
Proof.
  revert p t. induction q as [ | n q IH ]; intros p t.
  - destruct t as [c | es]; [done | ]. simpl clear.
    destruct p as [ | m p]; [done | ]. by rewrite stat_cons.
  - destruct t as [c | es]; [done | ]. simpl clear.
    destruct p as [ | m p]; [done | ]. rewrite !stat_cons, assoc_alter_entry.
    destruct (decide (m = n)) as [-> | Hmn]; [ | done].
    destruct (assoc n es) as [x | ]; simpl; [apply IH | done].
Qed.

Lemma stat_parent q n t k : stat (q ++ [n]) t = Some k -> stat q t = Some KDir.
Proof.
  unfold stat. rewrite find_app. destruct (find q t) as [[c | es] | ]; try done.
Qed.

Lemma stat_prefix q p t : is_Some (stat (q ++ p) t) -> is_Some (stat q t).
Proof.
  unfold stat. rewrite find_app. destruct (find q t); [by eauto | ].
  by intros [? ?].
Qed.

Lemma elem_of_listdir n q t :
  n ∈ listdir q t <-> is_Some (stat (q ++ [n]) t).
Proof.
  unfold listdir, stat. rewrite find_app.
  destruct (find q t) as [[c | es] | ]; simpl.
  - split; [by intros ?%elem_of_nil | by intros [? ?]].
  - rewrite elem_of_keys_assoc. destruct (assoc n es); simpl.
    + split; by eauto.
    + split; by intros [? ?].
  - split; [by intros ?%elem_of_nil | by intros [? ?]].
Qed.

(** ** Shrinking: one tree is what is left of another *)

(** [below t' t]: every location of [t'] is a location of [t], with the same
    kind and, for a file, the same content. *)
Definition below (t' t : node) : Prop :=
  forall p k, stat p t' = Some k -> stat p t = Some k.

Lemma below_refl t : below t t.
Proof. by intros p k. Qed.

Lemma below_trans t1 t2 t3 : below t1 t2 -> below t2 t3 -> below t1 t3.
Proof. intros H12 H23 p k Hp. by apply H23, H12. Qed.

Lemma rm_below q t : below (rm q t) t.
Proof.
  intros p k. destruct (decide (q `prefix_of` p)) as [Hpre | Hpre].
  - destruct q as [ | n q]; [done | ]. by rewrite stat_rm_under.
  - by rewrite stat_rm_other.
Qed.

Lemma clear_below q t : below (clear q t) t.
Proof. intros p k. apply stat_clear_some. Qed.

(** ** Path resolution *)

Lemma walk_app t cur p1 p2 :
  walk t cur (p1 ++ p2) = walk t cur p1 ≫= fun q => walk t q p2.
Proof.
  revert cur. induction p1 as [ | c p1 IH ]; intros cur; simpl; [done | ].
  destruct (stat cur t) as [[? | ] | ]; try done.
  destruct (decide (c = lit "..")); [apply IH | ].
  destruct (stat (cur ++ [c]) t); [apply IH | done].
Qed.

Lemma resolve_snoc t p n :
  n <> lit ".." ->
  resolve t (p ++ [n]) =
  q ← resolve t p;
  match stat q t, stat (q ++ [n]) t with
  | Some KDir, Some _ => Some (q ++ [n])
  | _, _ => None
  end.
Proof.
  intros Hn. unfold resolve. rewrite walk_app.
  destruct (walk t [] p) as [q | ]; simpl; [ | done].
  destruct (stat q t) as [[? | ] | ]; try done.
  rewrite decide_False by done. by destruct (stat (q ++ [n]) t).
Qed.

(** Resolution only ever arrives at existing locations. *)
Lemma walk_exists t cur comps q :
  is_Some (stat cur t) -> walk t cur comps = Some q -> is_Some (stat q t).
Proof.
  revert cur. induction comps as [ | c rest IH ]; intros cur Hcur; simpl.
  - by intros [= <-].
  - destruct (stat cur t) as [[? | ] | ] eqn:Hk; try done.
    destruct (decide (c = lit "..")).
    + apply IH. destruct cur as [ | n cur] using rev_ind; [by eauto | ].
      rewrite removelast_last. eapply stat_prefix. by rewrite Hk.
    + destruct (stat (cur ++ [c]) t) eqn:Hc; [ | done]. apply IH. by eauto.
Qed.

Lemma resolve_exists t p q : resolve t p = Some q -> is_Some (stat q t).
Proof. apply walk_exists. rewrite stat_nil. by eauto. Qed.

(** A path that resolves in the smaller tree resolves to the same location
    in the larger one. *)
Lemma walk_below t' t cur comps q :
  below t' t -> walk t' cur comps = Some q -> walk t cur comps = Some q.
Proof.
  intros Hb. revert cur. induction comps as [ | c rest IH ]; intros cur; simpl.
  - done.
  - destruct (stat cur t') as [[? | ] | ] eqn:Hk; try done.
    rewrite (Hb _ _ Hk). destruct (decide (c = lit "..")); [apply IH | ].
    destruct (stat (cur ++ [c]) t') eqn:Hc; [ | done].
    rewrite (Hb _ _ Hc). apply IH.
Qed.

Lemma resolve_below t' t p q :
  below t' t -> resolve t' p = Some q -> resolve t p = Some q.
Proof. apply walk_below. Qed.

(** Without [..] a path leads to itself, provided it is there. *)
Lemma walk_plain t cur comps :
  lit ".." ∉ comps -> is_Some (stat (cur ++ comps) t) ->
  (comps <> [] -> stat cur t = Some KDir) ->
  walk t cur comps = Some (cur ++ comps).
Proof.
  revert cur. induction comps as [ | c rest IH ]; intros cur Hdots Hex Hdir.
  - by rewrite app_nil_r.
  - simpl. rewrite Hdir by done.
    rewrite decide_False by (intros ->; apply Hdots; by left).
    replace (cur ++ c :: rest) with ((cur ++ [c]) ++ rest) in *
      by (by rewrite <- app_assoc).
    destruct (stat (cur ++ [c]) t) as [k | ] eqn:Hc.
    + apply IH; [ | done | ].
      * intros Hin. apply Hdots. by right.
      * intros Hrest. destruct rest as [ | c' rest']; [done | ].
        replace ((cur ++ [c]) ++ c' :: rest') with (((cur ++ [c]) ++ [c']) ++ rest')
          in Hex by (by rewrite <- (app_assoc _ [c'])).
        apply stat_prefix in Hex. destruct Hex as [k' Hk'].
        by apply stat_parent in Hk'.
    + apply stat_prefix in Hex. rewrite Hc in Hex. by destruct Hex.
Qed.

Lemma stat_dir_prefix q p t :
  p <> [] -> is_Some (stat (q ++ p) t) -> stat q t = Some KDir.
Proof.
  intros Hp Hex. destruct p as [ | n p]; [done | ].
  replace (q ++ n :: p) with ((q ++ [n]) ++ p) in Hex by (by rewrite <- app_assoc).
  apply stat_prefix in Hex. destruct Hex as [k Hk]. by apply stat_parent in Hk.
Qed.

Lemma resolve_plain t p :
  lit ".." ∉ p -> is_Some (stat p t) -> resolve t p = Some p.
Proof.
  intros Hdots Hex. unfold resolve.
  apply (walk_plain t [] p Hdots Hex). intros Hp.
  by apply (stat_dir_prefix [] p).
Qed.

Lemma stat_at_resolve t p q :
  resolve t p = Some q -> stat_at t p = stat q t.
Proof. unfold stat_at. by intros ->. Qed.

Lemma stat_at_none t p : resolve t p = None -> stat_at t p = None.
Proof. unfold stat_at. by intros ->. Qed.

Lemma exists_resolve t p : exists_ t p = true <-> is_Some (resolve t p).
Proof.
  unfold exists_. rewrite bool_decide_eq_true. unfold stat_at.
  destruct (resolve t p) as [q | ] eqn:Hq; simpl.
  - split; [by eauto | ]. intros _. by eapply resolve_exists.
  - split; by intros [? ?].
Qed.

Lemma not_exists_resolve t p : exists_ t p = false <-> resolve t p = None.
Proof.
  rewrite <- not_true_iff_false, exists_resolve.
  destruct (resolve t p) as [q | ].
  - split; [ | done]. intros H. exfalso. by eauto.
  - split; [done | ]. by intros ? [? ?].
Qed.

Lemma stat_at_below t' t p k :
  below t' t -> stat_at t' p = Some k -> stat_at t p = Some k.
Proof.
  intros Hb. unfold stat_at.
  destruct (resolve t' p) as [q | ] eqn:Hq; simpl; [ | done].
  rewrite (resolve_below _ _ _ _ Hb Hq). simpl. apply Hb.
Qed.

Lemma exists_below t' t p :
  below t' t -> exists_ t p = false -> exists_ t' p = false.
Proof.
  intros Hb. rewrite !not_exists_resolve. intros Hn.
  destruct (resolve t' p) as [q | ] eqn:Hq; [ | done].
  by rewrite (resolve_below _ _ _ _ Hb Hq) in Hn.
Qed.

Lemma is_dir_below t' t p :
  below t' t -> exists_ t' p = true -> is_dir t p = false -> is_dir t' p = false.
Proof.
  intros Hb. unfold exists_, is_dir. rewrite bool_decide_eq_true.
  intros [k Hk]. rewrite Hk, (stat_at_below _ _ _ _ Hb Hk). by destruct k.
Qed.

Lemma iterdir_below t' t p n :
  below t' t -> n ∈ iterdir t' p -> n ∈ iterdir t p.
Proof.
  intros Hb. unfold iterdir.
  destruct (resolve t' p) as [q | ] eqn:Hq; [ | by intros ?%elem_of_nil].
  rewrite (resolve_below _ _ _ _ Hb Hq), !elem_of_listdir.
  intros [k Hk]. exists k. by apply Hb.
Qed.

(** ** The effect monad *)

Lemma after_nil {A} (r : res A) : after [] r = r.
Proof. by destruct r. Qed.

Lemma final_after {A} l (r : res A) : final (after l r) = final r.
Proof. by destruct r. Qed.

Lemma events_after {A} l (r : res A) : events (after l r) = l ++ events r.
Proof. by destruct r. Qed.

Lemma deletions_after {A} l (r : res A) :
  deletions (after l r) = List.filter is_deletion l ++ deletions r.
Proof. unfold deletions. by rewrite events_after, List.filter_app. Qed.

Lemma bind_read {A B} (f : node -> A) (k : A -> M B) t :
  bind (read f) k t = k (f t) t.
Proof. unfold bind, read. apply after_nil. Qed.

Lemma bind_emit {B} e (k : unit -> M B) t :
  bind (emit e) k t = after [e] (k tt t).
Proof. done. Qed.

Lemma bind_done {A B} (m : M A) (k : A -> M B) t b t2 l :
  bind m k t = Done b t2 l ->
  exists a t1 l1 l2,
    m t = Done a t1 l1 /\ k a t1 = Done b t2 l2 /\ l = l1 ++ l2.
Proof.
  unfold bind. destruct (m t) as [a t1 l1 | ]; [ | done].
  destruct (k a t1) as [b' t2' l2 | ] eqn:Hk; simpl; [ | done].
  intros [= -> -> <-]. by exists a, t1, l1, l2.
Qed.

Lemma for_each_cons {A} (f : A -> M unit) x xs :
  for_each f (x :: xs) = bind (f x) (fun _ => for_each f xs).
Proof. done. Qed.

(** ** Deleting *)

(** [delete_path] by cases on what the path leads to. *)
Lemma delete_path_cases p t :
  delete_path p t =
  match resolve t p with
  | None => Done tt t [Warning (Path_does_not_exist p)]
  | Some q =>
      match stat q t with
      | None => Done tt t [Warning (Path_does_not_exist p)]
      | Some (KFile _) =>
          match q with
          | [] => Crash t []
          | _ :: _ => Done tt (rm q t) [Unlinked q]
          end
      | Some KDir =>
          if can_rmdir (clear q t) p q
          then Done tt (rm q t) [Tree_removed q]
          else Crash (clear q t) [Emptied q]
      end
  end.
Proof.
  unfold delete_path. rewrite bind_read. unfold exists_.
  destruct (resolve t p) as [q | ] eqn:Hq.
  - pose proof (stat_at_resolve _ _ _ Hq) as Hst. rewrite Hst.
    destruct (stat q t) as [k | ] eqn:Hk.
    + rewrite bool_decide_eq_true_2 by (by eauto).
      cbn [negb]. rewrite bind_read. unfold is_file. rewrite Hst.
      destruct k as [c | ].
      * unfold unlink. rewrite Hq. destruct q; [done | ]. by rewrite Hk.
      * rewrite bind_read. unfold is_dir. rewrite Hst.
        unfold rmtree. by rewrite Hq, Hk.
    + rewrite bool_decide_eq_false_2 by (by intros [? ?]). done.
  - rewrite (stat_at_none _ _ Hq).
    rewrite bool_decide_eq_false_2 by (by intros [? ?]). done.
Qed.

(** A path that does not end in [..] leads to something other than the
    root. *)
Lemma resolve_not_root t p q :
  p <> [] -> List.last p [] <> lit ".." -> resolve t p = Some q -> q <> [].
Proof.
  destruct p as [ | n p _] using rev_ind; [done | ]. intros _.
  rewrite last_last. intros Hn. rewrite (resolve_snoc _ _ _ Hn).
  destruct (resolve t p) as [q0 | ]; simpl; [ | done].
  repeat case_match; try done. intros [= <-]. by destruct q0.
Qed.

Lemma can_rmdir_not_root t p q : can_rmdir t p q = true -> q <> [].
Proof.
  intros (Hp & Hlast & Hq)%bool_decide_eq_true. by eapply resolve_not_root.
Qed.

Lemma delete_path_absent p t :
  exists_ t p = false ->
  delete_path p t = Done tt t [Warning (Path_does_not_exist p)].
Proof.
  rewrite not_exists_resolve. intros Hp. by rewrite delete_path_cases, Hp.
Qed.

(** On a location free of [..], deleting is [rm], whether or not anything
    is there. *)
Lemma delete_path_plain p t :
  p <> [] -> lit ".." ∉ p -> stat (removelast p) t = Some KDir ->
  delete_path p t =
  Done tt (rm p t)
       [match stat p t with
        | Some (KFile _) => Unlinked p
        | Some KDir => Tree_removed p
        | None => Warning (Path_does_not_exist p)
        end].
Proof.
  intros Hp Hdots Hparent. rewrite delete_path_cases.
  destruct p as [ | c p0 _] using rev_ind; [done | ].
  rewrite removelast_last in Hparent.
  assert (Hc : c <> lit "..").
  { intros ->. apply Hdots. apply elem_of_app. right. by left. }
  destruct (stat (p0 ++ [c]) t) as [k | ] eqn:Hk.
  - rewrite resolve_plain by (by eauto). rewrite Hk. destruct k as [content | ].
    + by destruct (p0 ++ [c]) eqn:Hpc; [destruct p0 | ].
    + replace (can_rmdir (clear (p0 ++ [c]) t) (p0 ++ [c]) (p0 ++ [c]))
        with true; [done | ].
      symmetry. apply bool_decide_eq_true. split; [done | ].
      rewrite last_last. split; [done | ].
      apply resolve_plain; [done | ]. rewrite stat_clear_other; [by eauto | ].
      intros n r Heq%(f_equal length). rewrite !length_app in Heq.
      simpl in Heq. lia.
  - rewrite (rm_absent _ _ Hk).
    assert (Hno : resolve t (p0 ++ [c]) = None).
    { rewrite (resolve_snoc _ _ _ Hc).
      destruct (resolve t p0) as [q | ] eqn:Hq; [ | done]. simpl.
      assert (q = p0) as ->.
      { unfold resolve in Hq. rewrite (walk_plain t [] p0) in Hq.
        - by injection Hq.
        - intros Hin. apply Hdots. apply elem_of_app. by left.
        - simpl. by rewrite Hparent.
        - intros Hne. apply (stat_dir_prefix [] p0); [done | ].
          simpl. by rewrite Hparent. }
      by rewrite Hparent, Hk. }
    by rewrite Hno.
Qed.

(** ** The shape of the evaluator *)

(** A well-formed list rule, by cases on the state it meets. *)
Lemma process_rule_list order base rel mode decls m t :
  mode_of mode = Some m ->
  process_rule order base rel (JArr [mode; JObj decls]) t =
  let cur := pjoin base rel in
  if negb (exists_ t cur)
  then Done tt t [Warning (Directory_does_not_exist rel)]
  else if negb (is_dir t cur)
  then Done tt t [Warning (Not_a_directory rel)]
  else match m with
       | Preserve =>
           bind (for_each (fun n => delete_path (pjoin cur n))
                   (order (filter (fun n => n ∉ keys decls) (iterdir t cur))))
                (fun _ => process_rule order base rel (JObj decls)) t
       | Delete => process_rule order base rel (JObj decls) t
       end.
Proof.
  intros Hm. simpl. rewrite Hm, bind_read.
  destruct (exists_ t (pjoin base rel)); [ | done]. cbn [negb].
  rewrite bind_read. destruct (is_dir t (pjoin base rel)); [ | done].
  cbn [negb]. rewrite bind_read. by destruct m.
Qed.

(** Any property of computations that holds of the primitive steps and is
    kept by sequencing holds of the evaluator. *)
Lemma process_rule_closed (ok : M unit -> Prop) :
  ok (ret tt) ->
  (forall m, ok (emit (Warning m))) ->
  (forall p, ok (delete_path p)) ->
  (forall A (f : node -> A) k, (forall a, ok (k a)) -> ok (bind (read f) k)) ->
  (forall m k, ok m -> ok k -> ok (bind m (fun _ => k))) ->
  forall order base rel rule, ok (process_rule order base rel rule).
Proof.
  intros Hret Hemit Hdel Hread Hseq order base rel rule. revert rel.
  assert (Hloop : forall A (f : A -> M unit) xs,
             (forall x, x ∈ xs -> ok (f x)) -> ok (for_each f xs)).
  { intros A f xs. induction xs as [ | x xs IH ]; intros Hf; [exact Hret | ].
    rewrite for_each_cons. apply Hseq.
    - apply Hf. by left.
    - apply IH. intros y Hy. apply Hf. by right. }
  induction rule as [ | b | z | r | items IH | members IH ] using json_induction;
    intros rel.
  - exact Hret.
  - exact Hret.
  - exact Hret.
  - simpl. destruct (decide (r = lit "delete")); [apply Hdel | ].
    destruct (decide (r = lit "preserve")); [exact Hret | apply Hemit].
  - destruct items as [ | mode [ | declarations [ | x items]]];
      try apply Hemit.
    simpl. destruct (mode_of mode) as [m | ]; [ | apply Hemit].
    destruct declarations as [ | | | | | decls]; try apply Hemit.
    apply Forall_cons_1 in IH as [_ IH]. apply Forall_cons_1 in IH as [IH _].
    apply Hread. intros e. destruct e; cbn [negb]; [ | apply Hemit].
    apply Hread. intros d. destruct d; cbn [negb]; [ | apply Hemit].
    apply Hread. intros existing. destruct m.
    + apply Hseq; [ | apply (IH rel)]. apply Hloop. intros n _. apply Hdel.
    + apply (IH rel).
  - simpl. apply Hloop. intros m Hm.
    rewrite Forall_forall in IH. by apply IH.
Qed.

(** ** The evaluator only removes *)

Definition shrinks {A} (m : M A) : Prop := forall t, below (final (m t)) t.

Lemma shrinks_bind {A B} (m : M A) (k : A -> M B) :
  shrinks m -> (forall a, shrinks (k a)) -> shrinks (bind m k).
Proof.
  intros Hm Hk t. unfold bind. specialize (Hm t).
  destruct (m t) as [a t1 l1 | t1 l1]; [ | done].
  rewrite final_after. eapply below_trans; [apply Hk | exact Hm].
Qed.

Lemma shrinks_delete_path p : shrinks (delete_path p).
Proof.
  intros t. rewrite delete_path_cases.
  destruct (resolve t p) as [q | ]; [ | apply below_refl].
  destruct (stat q t) as [[c | ] | ] eqn:Hk.
  - destruct q; [apply below_refl | apply rm_below].
  - destruct (can_rmdir _ _ _); [apply rm_below | apply clear_below].
  - apply below_refl.
Qed.

Lemma shrinks_process_rule order base rel rule :
  shrinks (process_rule order base rel rule).
Proof.
  apply process_rule_closed.
  - intros t. apply below_refl.
  - intros m t. apply below_refl.
  - apply shrinks_delete_path.
  - intros A f k Hk. apply shrinks_bind; [ | exact Hk]. intros t. apply below_refl.
  - intros m k Hm Hk. apply shrinks_bind; [exact Hm | by intros _].
Qed.

Lemma shrinks_for_each {A} (f : A -> M unit) xs :
  (forall x, shrinks (f x)) -> shrinks (for_each f xs).
Proof.
  intros Hf. induction xs as [ | x xs IH ]; [intros t; apply below_refl | ].
  rewrite for_each_cons. apply shrinks_bind; [apply Hf | by intros _].
Qed.

(** C10 — the rule evaluator only removes entries: whatever the rule, the
    paths and the starting tree, every location present afterwards (also
    when the run is cut short by an exception) was present before, with the
    same kind and, for a file, the same content. *)
Theorem process_rule_only_removes order base rel rule t p k :
  stat p (final (process_rule order base rel rule t)) = Some k ->
  stat p t = Some k.
Proof. apply shrinks_process_rule. Qed.

(** ** Running the evaluator again *)

(** [settled m t1]: on [t1], and on anything that is left of it, [m] returns
    normally, changes nothing and deletes nothing. *)
Definition settled (m : M unit) (t1 : node) : Prop :=
  forall s, below s t1 ->
    exists l, m s = Done tt s l /\ List.filter is_deletion l = [].

(** [absorbs m1 m2]: once [m1] has completed, [m2] is settled. *)
Definition absorbs (m1 m2 : M unit) : Prop :=
  forall t t1 l1, m1 t = Done tt t1 l1 -> settled m2 t1.

Lemma settled_below m t1 t2 : settled m t1 -> below t2 t1 -> settled m t2.
Proof. intros Hm Hb s Hs. apply Hm. by eapply below_trans. Qed.

Lemma settled_ret t : settled (ret tt) t.
Proof. intros s _. by exists []. Qed.

Lemma settled_warning w t : settled (emit (Warning w)) t.
Proof. intros s _. by exists [Warning w]. Qed.

Lemma settled_seq m k t : settled m t -> settled k t -> settled (bind m (fun _ => k)) t.
Proof.
  intros Hm Hk s Hs. destruct (Hm s Hs) as (l1 & Hl1 & Hd1).
  destruct (Hk s Hs) as (l2 & Hl2 & Hd2). exists (l1 ++ l2).
  unfold bind. rewrite Hl1, Hl2. simpl. split; [done | ].
  by rewrite List.filter_app, Hd1, Hd2.
Qed.

Lemma settled_for_each {A} (f : A -> M unit) xs t :
  (forall x, x ∈ xs -> settled (f x) t) -> settled (for_each f xs) t.
Proof.
  induction xs as [ | x xs IH ]; intros Hf; [apply settled_ret | ].
  rewrite for_each_cons. apply settled_seq.
  - apply Hf. by left.
  - apply IH. intros y Hy. apply Hf. by right.
Qed.

(** After a completed loop, every one of its steps is absorbed. *)
Lemma absorbed_for_each {A} (f g : A -> M unit) xs t t1 l1 :
  (forall x, shrinks (f x)) ->
  (forall x, x ∈ xs -> absorbs (f x) (g x)) ->
  for_each f xs t = Done tt t1 l1 ->
  forall x, x ∈ xs -> settled (g x) t1.
Proof.
  intros Hs. revert t l1.
  induction xs as [ | x xs IH ]; intros t l1 Hfg Hrun y Hy.
  - by apply elem_of_nil in Hy.
  - rewrite for_each_cons in Hrun.
    apply bind_done in Hrun as ([] & t' & l' & l'' & Hx & Hrest & _).
    apply elem_of_cons in Hy as [-> | Hy].
    + eapply settled_below.
      * eapply Hfg; [by left | exact Hx].
      * pose proof (shrinks_for_each f xs Hs t') as Hb. by rewrite Hrest in Hb.
    + eapply IH; [ | exact Hrest | exact Hy].
      intros z Hz. apply Hfg. by right.
Qed.

Lemma absorbs_for_each {A} (f g : A -> M unit) xs :
  (forall x, shrinks (f x)) ->
  (forall x, x ∈ xs -> absorbs (f x) (g x)) ->
  absorbs (for_each f xs) (for_each g xs).
Proof.
  intros Hs Hfg t t1 l1 Hrun. apply settled_for_each.
  by eapply absorbed_for_each.
Qed.

(** What [delete_path] has dealt with stays gone. *)
Lemma delete_path_gone p t t1 l1 s :
  delete_path p t = Done tt t1 l1 -> below s t1 -> exists_ s p = false.
Proof.
  rewrite delete_path_cases. intros Hrun Hs.
  apply not_exists_resolve.
  destruct (resolve s p) as [r | ] eqn:Hr; [exfalso | done].
  assert (Ht1 : below t1 t).
  { pose proof (shrinks_delete_path p t) as Hb.
    by rewrite delete_path_cases, Hrun in Hb. }
  pose proof (resolve_below _ _ _ _ Hs Hr) as Hr1.
  pose proof (resolve_below _ _ _ _ Ht1 Hr1) as Hr0.
  pose proof (resolve_exists _ _ _ Hr1) as [k Hk].
  rewrite Hr0 in Hrun.
  destruct (stat r t) as [[c | ] | ] eqn:Hk0.
  - destruct r as [ | n r]; [done | ]. injection Hrun as <- _.
    rewrite stat_rm_under in Hk; done.
  - destruct (can_rmdir _ _ _) eqn:Hrmdir; [ | done].
    apply can_rmdir_not_root in Hrmdir. injection Hrun as <- _.
    rewrite stat_rm_under in Hk; done.
  - pose proof (Ht1 _ _ Hk). congruence.
Qed.

Lemma absorbs_delete_path p : absorbs (delete_path p) (delete_path p).
Proof.
  intros t t1 l1 Hrun s Hs. eexists. split.
  - apply delete_path_absent. by eapply delete_path_gone.
  - done.
Qed.

Section Again.

Variables order1 order2 : list text -> list text.
Hypothesis order1_perm : forall l, Permutation (order1 l) l.
Hypothesis order2_perm : forall l, Permutation (order2 l) l.

Lemma absorbs_process_rule base rel rule :
  absorbs (process_rule order1 base rel rule) (process_rule order2 base rel rule).
Proof.
  revert rel.
  induction rule as [ | b | z | r | items IH | members IH ] using json_induction;
    intros rel.
  - intros t t1 l1 _. apply settled_ret.
  - intros t t1 l1 _. apply settled_ret.
  - intros t t1 l1 _. apply settled_ret.
  - simpl. destruct (decide (r = lit "delete")); [apply absorbs_delete_path | ].
    destruct (decide (r = lit "preserve")); intros t t1 l1 _;
      [apply settled_ret | apply settled_warning].
  - destruct items as [ | mode [ | declarations [ | x items]]];
      try (intros t t1 l1 _; apply settled_warning).
    destruct (mode_of mode) as [m | ] eqn:Hm;
      [ | simpl; rewrite Hm; intros t t1 l1 _; apply settled_warning].
    destruct declarations as [ | | | | | decls];
      try (simpl; rewrite Hm; intros t t1 l1 _; apply settled_warning).
    apply Forall_cons_1 in IH as [_ IH]. apply Forall_cons_1 in IH as [IH _].
    specialize (IH rel).
    intros t t1 l1 Hrun s Hs.
    rewrite (process_rule_list _ _ _ _ _ _ _ Hm) in Hrun.
    rewrite (process_rule_list _ _ _ _ _ _ _ Hm).
    cbv zeta in *. set (cur := pjoin base rel) in *.
    assert (Hbelow : below t1 t).
    { pose proof (shrinks_process_rule order1 base rel
                    (JArr [mode; JObj decls]) t) as Hb.
      rewrite (process_rule_list _ _ _ _ _ _ _ Hm) in Hb. cbv zeta in Hb.
      fold cur in Hb. by rewrite Hrun in Hb. }
    assert (Hst : below s t) by (by eapply below_trans).
    destruct (exists_ s cur) eqn:Hes; cbn [negb]; [ | by eexists].
    destruct (is_dir s cur) eqn:Hds; cbn [negb]; [ | by eexists].
    destruct (exists_ t cur) eqn:Het; cbn [negb] in Hrun.
    2:{ by rewrite (exists_below _ _ _ Hst Het) in Hes. }
    destruct (is_dir t cur) eqn:Hdt; cbn [negb] in Hrun.
    2:{ by rewrite (is_dir_below _ _ _ Hst Hes Hdt) in Hds. }
    destruct m.
    + apply bind_done in Hrun as ([] & t' & l' & l'' & Hloop & Hrest & _).
      assert (Hb1 : below t1 t').
      { pose proof (shrinks_process_rule order1 base rel (JObj decls) t') as Hb.
        by rewrite Hrest in Hb. }
      refine (settled_seq _ _ t1 _ _ s Hs); [ | by eapply IH].
      apply settled_for_each. intros n Hn.
      eapply settled_below; [ | exact Hb1].
      eapply (absorbed_for_each _ _ _ _ _ _
                (fun n => shrinks_delete_path _)
                (fun n _ => absorbs_delete_path _) Hloop).
      rewrite order2_perm in Hn. rewrite order1_perm.
      apply list_elem_of_filter in Hn as [Hnd Hn].
      apply list_elem_of_filter. split; [done | ].
      by eapply iterdir_below.
    + by eapply IH.
  - simpl. apply absorbs_for_each.
    + intros m. apply shrinks_process_rule.
    + intros m Hm. rewrite Forall_forall in IH. by apply IH.
Qed.

End Again.

(** C3 — idempotence: for every rule tree, base path, relative path and
    starting tree, running the evaluator twice in succession ends in the
    state one run ends in, and the second run deletes nothing: a second run
    starts only when the first has completed, and then it completes too and
    changes nothing.  The two runs may iterate over sets in different
    orders. *)
Theorem process_rule_idempotent order1 order2 base rel rule t :
  (forall l, Permutation (order1 l) l) ->
  (forall l, Permutation (order2 l) l) ->
  let once := process_rule order1 base rel rule in
  let twice := bind once (fun _ => process_rule order2 base rel rule) in
  final (twice t) = final (once t) /\
  deletions (twice t) = deletions (once t) /\
  completed (twice t) = completed (once t) /\
  (completed (once t) = true ->
   exists l, process_rule order2 base rel rule (final (once t))
             = Done tt (final (once t)) l /\
             List.filter is_deletion l = []).
Proof.
  intros H1 H2 once twice. subst twice. unfold bind.
  destruct (once t) as [[] t1 l1 | t1 l1] eqn:Hrun; [ | done].
  destruct (absorbs_process_rule order1 order2 H1 H2 base rel rule
              t t1 l1 Hrun t1 (below_refl t1)) as (l2 & Hagain & Hl2).
  rewrite Hagain. simpl. unfold deletions. simpl.
  rewrite List.filter_app, Hl2, app_nil_r. repeat split. by exists l2.
Qed.

(** ** Rules that delete nothing *)

Lemma for_each_idle {A} (f : A -> M unit) xs t :
  (forall x, x ∈ xs -> f x t = Done tt t []) -> for_each f xs t = Done tt t [].
Proof.
  induction xs as [ | x xs IH ]; intros Hf; [done | ].
  rewrite for_each_cons. unfold bind. rewrite Hf by (by left). simpl.
  rewrite IH; [done | ]. intros y Hy. apply Hf. by right.
Qed.

Lemma preserve_only_idle order base rel rule t :
  preserve_only rule = true ->
  process_rule order base rel rule t = Done tt t [].
Proof.
  revert rel.
  induction rule as [ | b | z | r | items IH | members IH ] using json_induction;
    intros rel Hrule; try done.
  - simpl in *. apply bool_decide_eq_true in Hrule as ->.
    rewrite decide_False by done. by rewrite decide_True.
  - simpl in *. apply for_each_idle. intros m Hm.
    rewrite Forall_forall in IH. apply IH; [done | ].
    rewrite forallb_forall in Hrule. apply Hrule. by apply list_elem_of_In.
Qed.

(** C4 — a rule tree built only from ["preserve"] leaves and mappings
    deletes nothing: the run completes, the tree afterwards is the tree
    before, and no event (deletion or diagnostic) is recorded. *)
Theorem preserve_only_deletes_nothing order base rel rule t :
  preserve_only rule = true ->
  process_rule order base rel rule t = Done tt t [].
Proof. apply preserve_only_idle. Qed.

(** ** Rejected list rules *)

(** C5 — a list rule is rejected when its length is not 2, or its first
    element is not one of the strings ["preserve"] / ["delete"], or its second
    element is not a mapping, or the target does not exist, or the target is
    not a directory.  A rejected rule emits exactly one warning, returns
    normally and leaves the tree unchanged; the mapping it sits in then goes
    on with the remaining siblings, in the same state. *)
Theorem rejected_list_rule order base parent name items rest t :
  let rel := child parent name in
  let cur := pjoin base rel in
  length items <> 2%nat \/
  (items !! 0%nat <> Some (JStr (lit "preserve")) /\
   items !! 0%nat <> Some (JStr (lit "delete"))) \/
  (forall decls, items !! 1%nat <> Some (JObj decls)) \/
  exists_ t cur = false \/
  is_dir t cur = false ->
  exists w,
    process_rule order base rel (JArr items) t = Done tt t [Warning w] /\
    process_rule order base parent (JObj ((name, JArr items) :: rest)) t
    = after [Warning w] (process_rule order base parent (JObj rest) t).
Proof.
  intros rel cur Hbad.
  assert (Hone : exists w,
             process_rule order base rel (JArr items) t = Done tt t [Warning w]).
  { destruct items as [ | mode [ | declarations [ | x items]]];
      try (by eexists).
    destruct (mode_of mode) as [m | ] eqn:Hm;
      [ | simpl; rewrite Hm; by eexists].
    destruct declarations as [ | | | | | decls];
      try (simpl; rewrite Hm; by eexists).
    rewrite (process_rule_list _ _ _ _ _ _ _ Hm). cbv zeta. fold rel cur.
    destruct (exists_ t cur) eqn:He; cbn [negb]; [ | by eexists].
    destruct (is_dir t cur) eqn:Hd; cbn [negb]; [ | by eexists].
    exfalso. destruct Hbad as [Hlen | [[Hp Hd'] | [Hobj | [? | ?]]]]; try done.
    - destruct mode as [ | | | s | | ]; try done. simpl in Hm.
      destruct (decide (s = lit "preserve")) as [-> | ?]; [done | ].
      destruct (decide (s = lit "delete")) as [-> | ?]; done.
    - by eapply Hobj. }
  destruct Hone as [w Hw]. exists w. split; [exact Hw | ].
  change (process_rule order base parent (JObj ((name, JArr items) :: rest)))
    with (bind (process_rule order base rel (JArr items))
               (fun _ => process_rule order base parent (JObj rest))).
  unfold bind. by rewrite Hw.
Qed.

(** ** The legacy evaluator against the current one *)

Lemma agree_after l1 l2 r1 r2 :
  List.filter is_deletion l1 = List.filter is_deletion l2 ->
  agree r1 r2 -> agree (after l1 r1) (after l2 r2).
Proof.
  intros Hl (Hc & Hf & Hd). unfold agree.
  rewrite !final_after, !deletions_after, Hl, Hd.
  by destruct r1, r2.
Qed.

Lemma agree_printed m r1 r2 : agree (after [Print m] r1) r2 <-> agree r1 r2.
Proof.
  unfold agree. rewrite final_after, deletions_after. simpl.
  by destruct r1.
Qed.

Lemma agree_bind (I : node -> Prop) (m1 m2 k1 k2 : M unit) t :
  agree (m1 t) (m2 t) -> I (final (m2 t)) ->
  (forall s, I s -> agree (k1 s) (k2 s)) ->
  agree (bind m1 (fun _ => k1) t) (bind m2 (fun _ => k2) t).
Proof.
  intros (Hc & Hf & Hd) HI Hk. unfold bind.
  destruct (m1 t) as [[] t1 l1 | t1 l1], (m2 t) as [[] t2 l2 | t2 l2];
    simpl in *; try done.
  subst t2. apply agree_after; [done | by apply Hk].
Qed.

Lemma agree_for_each {A} (I : node -> Prop) (f g : A -> M unit) xs :
  (forall x s, x ∈ xs -> I s -> agree (f x s) (g x s)) ->
  (forall x s, x ∈ xs -> I s -> I (final (g x s))) ->
  forall t, I t -> agree (for_each f xs t) (for_each g xs t).
Proof.
  induction xs as [ | x xs IH ]; intros Hfg Hkeep t Ht; [done | ].
  rewrite !for_each_cons. apply (agree_bind I).
  - apply Hfg; [by left | done].
  - apply Hkeep; [by left | done].
  - apply IH.
    + intros y s Hy. apply Hfg. by right.
    + intros y s Hy. apply Hkeep. by right.
Qed.

Lemma agree_then_print (m : M unit) x t :
  agree (bind m (fun _ => emit (Print x)) t) (m t).
Proof.
  unfold bind, agree. destruct (m t) as [[] t1 l1 | t1 l1]; simpl; [ | done].
  unfold deletions. simpl. rewrite List.filter_app. simpl.
  by rewrite app_nil_r.
Qed.

(** *** What can be printed *)

Lemma say_printable shown m :
  forallb printable shown = true -> say shown m = emit (Print m).
Proof. unfold say. by intros ->. Qed.

Lemma printable_app a b : printable (a ++ b) = printable a && printable b.
Proof. apply forallb_app. Qed.

Lemma printable_child rel n :
  printable rel = true -> printable n = true -> printable (child rel n) = true.
Proof.
  intros Hrel Hn. destruct rel as [ | c rel]; [done | ].
  unfold child. by rewrite !printable_app, Hrel, Hn.
Qed.

Lemma split_on_pieces sep s w c : w ∈ split_on sep s -> c ∈ w -> c ∈ s.
Proof.
  revert w. induction s as [ | x s IH ]; intros w; simpl.
  - intros ->%list_elem_of_singleton. by intros ?%elem_of_nil.
  - destruct (decide (x = sep)) as [-> | Hx].
    + intros [-> | Hw]%elem_of_cons Hc; [by apply elem_of_nil in Hc | ].
      right. by eapply IH.
    + destruct (split_on sep s) as [ | v vs] eqn:Hsplit.
      * intros ->%list_elem_of_singleton Hc.
        apply list_elem_of_singleton in Hc as ->. by left.
      * intros [-> | Hw]%elem_of_cons Hc.
        -- apply elem_of_cons in Hc as [-> | Hc]; [by left | right].
           apply (IH v); [by left | done].
        -- right. apply (IH w); [by right | done].
Qed.

Lemma printable_parts s :
  printable s = true -> forallb printable (parts s) = true.
Proof.
  intros Hs. apply forallb_forall. intros w Hw.
  apply list_elem_of_In in Hw. unfold parts in Hw.
  apply list_elem_of_filter in Hw as [_ Hw].
  apply forallb_forall. intros c Hc. apply list_elem_of_In in Hc.
  unfold printable in Hs. rewrite forallb_forall in Hs.
  apply Hs, list_elem_of_In. by eapply split_on_pieces.
Qed.

Lemma printable_pjoin base rel :
  forallb printable base = true -> printable rel = true ->
  forallb printable (pjoin base rel) = true.
Proof.
  intros Hbase Hrel. unfold pjoin. pose proof (printable_parts rel Hrel).
  destruct (is_absolute rel); [done | ]. rewrite forallb_app. by rewrite Hbase.
Qed.

(** Every location of the tree has a path that can be printed. *)
Definition legible_tree (t : node) : Prop :=
  forall p, is_Some (stat p t) -> forallb printable p = true.

Lemma names_printable_legible t : names_printable t = true -> legible_tree t.
Proof.
  intros Ht p. revert t Ht. induction p as [ | n q IH ]; intros t Ht; [done | ].
  unfold stat. simpl. destruct t as [c | es]; [by intros [? ?] | ].
  simpl in Ht. induction es as [ | [m x] es IHes ]; simpl; [by intros [? ?] | ].
  simpl in Ht. apply andb_prop in Ht as [Hmx Hes].
  apply andb_prop in Hmx as [Hm Hx].
  destruct (decide (m = n)) as [-> | Hmn].
  - intros Hfound. rewrite Hm. by apply (IH x).
  - by apply IHes.
Qed.

Lemma legible_tree_below s t : below s t -> legible_tree t -> legible_tree s.
Proof. intros Hst Ht p [k Hk]. apply Ht. exists k. by apply Hst. Qed.

Lemma legible_iterdir t p n :
  legible_tree t -> n ∈ iterdir t p -> printable n = true.
Proof.
  intros Ht. unfold iterdir. destruct (resolve t p) as [q | ];
    [ | by intros ?%elem_of_nil].
  intros Hn%elem_of_listdir. apply Ht in Hn.
  rewrite forallb_app in Hn. apply andb_prop in Hn as [_ Hn].
  simpl in Hn. by apply andb_prop in Hn as [Hn _].
Qed.

Lemma legacy_delete_path_agrees p t :
  forallb printable p = true ->
  agree (Legacy.delete_path p t) (delete_path p t).
Proof.
  intros Hp. unfold Legacy.delete_path, delete_path.
  rewrite !(say_printable _ _ Hp), !bind_read.
  destruct (exists_ t p); cbn [negb]; [ | done].
  rewrite !bind_read. destruct (is_file t p); [apply agree_then_print | ].
  rewrite !bind_read. destruct (is_dir t p); [apply agree_then_print | done].
Qed.

Lemma legacy_agrees order base rule :
  (forall l, Permutation (order l) l) ->
  forallb printable base = true -> legible rule = true ->
  forall rel t,
    printable rel = true -> legible_tree t ->
    agree (Legacy.process_rule order base rel rule false t)
          (process_rule order base rel rule t).
Proof.
  intros Hperm Hbase.
  assert (Hone : forall rel, printable rel = true ->
                             forallb printable [rel] = true).
  { intros rel Hrel. simpl. by rewrite Hrel. }
  assert (Hloop : forall decls rel,
    Forall (fun m => printable m.1 = true /\
                     forall rel t,
                       printable rel = true -> legible_tree t ->
                       agree (Legacy.process_rule order base rel m.2 false t)
                             (process_rule order base rel m.2 t)) decls ->
    printable rel = true ->
    forall s, legible_tree s ->
      agree (for_each (fun m => Legacy.process_rule order base
                                  (child rel m.1) m.2 false) decls s)
            (for_each (fun m => process_rule order base
                                  (child rel m.1) m.2) decls s)).
  { intros decls rel Hall Hrel. rewrite Forall_forall in Hall.
    apply (agree_for_each legible_tree).
    - intros m s Hm Hs. destruct (Hall m Hm) as [Hkey Hm2].
      apply Hm2; [by apply printable_child | done].
    - intros m s Hm Hs.
      eapply legible_tree_below; [apply shrinks_process_rule | done]. }
  induction rule as [ | b | z | r | items IH | members IH ] using json_induction;
    intros Hrule rel t Hrel Ht; try done.
  - simpl in Hrule. simpl. destruct (decide (r = lit "delete")).
    + rewrite (say_printable _ _ (Hone _ Hrel)), bind_emit.
      apply agree_printed. apply legacy_delete_path_agrees.
      by apply printable_pjoin.
    + destruct (decide (r = lit "preserve")).
      * by rewrite (say_printable _ _ (Hone _ Hrel)).
      * rewrite say_printable; [done | ]. simpl. by rewrite Hrule, Hrel.
  - destruct items as [ | mode [ | declarations [ | x items]]];
      try (simpl; by rewrite (say_printable _ _ (Hone _ Hrel))).
    simpl in Hrule. apply andb_prop in Hrule as [Hmode Hrule].
    apply andb_prop in Hrule as [Hdecls _].
    simpl. destruct (mode_of mode) as [m | ].
    2:{ rewrite say_printable; [done | ].
        rewrite forallb_app. simpl. rewrite Hrel.
        destruct mode; simpl in *; by rewrite ?Hmode. }
    destruct declarations as [ | | | | | decls];
      try by rewrite (say_printable _ _ (Hone _ Hrel)).
    apply Forall_cons_1 in IH as [_ IH]. apply Forall_cons_1 in IH as [IH _].
    assert (Hsub : forall s, legible_tree s ->
      agree (for_each (fun m => Legacy.process_rule order base
                                  (child rel m.1) m.2 false) decls s)
            (for_each (fun m => process_rule order base
                                  (child rel m.1) m.2) decls s)).
    { intros s Hs. specialize (IH Hdecls rel s Hrel Hs). simpl in IH.
      rewrite (say_printable _ _ (Hone _ Hrel)), bind_emit in IH.
      by apply agree_printed in IH. }
    rewrite !bind_read. destruct (exists_ t (pjoin base rel)); cbn [negb];
      [ | by rewrite (say_printable _ _ (Hone _ Hrel))].
    rewrite !bind_read.
    destruct (is_dir t (pjoin base rel)); cbn [negb];
      [ | by rewrite (say_printable _ _ (Hone _ Hrel))].
    rewrite !bind_read.
    destruct m; rewrite (say_printable _ _ (Hone _ Hrel)).
    + rewrite bind_emit. apply agree_printed.
      apply (agree_bind legible_tree); [ | | exact Hsub].
      * apply (agree_for_each legible_tree); [ | | done].
        -- intros n s Hn Hs.
           rewrite Hperm in Hn. apply list_elem_of_filter in Hn as [_ Hn].
           pose proof (legible_iterdir _ _ _ Ht Hn) as Hname.
           rewrite (say_printable _ _ (Hone _ (printable_child _ _ Hrel Hname))).
           rewrite bind_emit. apply agree_printed.
           apply legacy_delete_path_agrees.
           apply printable_pjoin; [by apply printable_pjoin | done].
        -- intros n s _ Hs.
           eapply legible_tree_below; [apply shrinks_delete_path | done].
      * eapply legible_tree_below; [ | exact Ht].
        apply shrinks_for_each. intros n. apply shrinks_delete_path.
    + rewrite bind_emit. apply agree_printed. by apply Hsub.
  - simpl in Hrule. simpl.
    rewrite (say_printable _ _ (Hone _ Hrel)), bind_emit. apply agree_printed.
    apply Hloop; [ | done | done].
    rewrite Forall_forall in IH. apply Forall_forall. intros m Hm.
    rewrite forallb_forall in Hrule.
    specialize (Hrule m (proj1 (list_elem_of_In _ _) Hm)).
    apply andb_prop in Hrule as [Hkey Hm2]. split; [done | ].
    by apply IH.
Qed.

(** C9, as amended — when every text the legacy evaluator prints can be
    encoded (the base path, the relative path, the strings and keys of the
    rule and the names in the tree hold no lone surrogate), the legacy
    evaluator, run with [dry_run = False], and the current evaluator perform
    the same deletions in the same order and end in the same tree (both
    iterating over sets in the same order); they also complete or raise
    together. *)
Theorem legacy_process_rule_agrees order base rel rule t :
  let old := Legacy.process_rule order base rel rule false t in
  let new := process_rule order base rel rule t in
  (forall l, Permutation (order l) l) ->
  forallb printable base = true -> printable rel = true ->
  legible rule = true -> names_printable t = true ->
  deletions old = deletions new /\ final old = final new /\
  completed old = completed new.
Proof.
  intros old new Hperm Hbase Hrel Hrule Ht.
  destruct (legacy_agrees order base rule Hperm Hbase Hrule rel t Hrel)
    as (Hc & Hf & Hd); [by apply names_printable_legible | done].
Qed.

(** ** Path strings *)

Lemma split_on_nonempty sep s : split_on sep s <> [].
Proof.
  destruct s as [ | c s]; simpl; [done | ].
  destruct (decide (c = sep)); [done | ]. by destruct (split_on sep s).
Qed.

Lemma split_on_app sep x y :
  split_on sep (x ++ sep :: y) = split_on sep x ++ split_on sep y.
Proof.
  induction x as [ | c x IH ]; simpl.
  - by rewrite decide_True.
  - destruct (decide (c = sep)); [by rewrite IH | ]. rewrite IH.
    pose proof (split_on_nonempty sep x). by destruct (split_on sep x).
Qed.

Lemma parts_app x y : parts (x ++ 47 :: y) = parts x ++ parts y.
Proof. unfold parts. by rewrite split_on_app, filter_app. Qed.

(** The path of a child rule is the path of its parent, one step down. *)
Lemma pjoin_child base rel n :
  simple_name n -> pjoin base (child rel n) = pjoin base rel ++ [n].
Proof.
  intros (Habs & Hparts & _). unfold pjoin, child.
  destruct rel as [ | c rel].
  - rewrite Habs, Hparts. simpl. by rewrite app_nil_r.
  - change ((c :: rel) ++ lit "/" ++ n) with ((c :: rel) ++ 47 :: n).
    rewrite parts_app, Hparts. simpl.
    destruct (bool_decide (c = 47)); [done | by rewrite app_assoc].
Qed.

Lemma pjoin_simple p n : simple_name n -> pjoin p n = p ++ [n].
Proof. intros (Habs & Hparts & _). unfold pjoin. by rewrite Habs, Hparts. Qed.

Lemma simple_name_a : simple_name (lit "a").
Proof. by repeat split. Qed.

Lemma simple_name_b : simple_name (lit "b").
Proof. by repeat split. Qed.

Lemma simple_name_c : simple_name (lit "c").
Proof. by repeat split. Qed.

Lemma prefix_snoc_inv (q : path) (n m : text) p :
  (q ++ [n]) `prefix_of` (q ++ [m] ++ p) -> n = m.
Proof.
  intros [r Hr]. rewrite <- !app_assoc in Hr.
  apply app_inv_head in Hr. by injection Hr.
Qed.

Lemma not_prefix_sibling (q : path) (n m : text) :
  n <> m -> ~ (q ++ [n]) `prefix_of` (q ++ [m]).
Proof.
  intros Hnm Hpre. apply Hnm. apply (prefix_snoc_inv q n m []).
  by rewrite app_nil_r.
Qed.

(** ** The two worked examples *)

(** C2 — on a directory (reached by a path without [..]) whose entries are
    exactly [a], [b] and [c], the rule [["delete", {"a": "delete"}]] removes
    entry [a] (unlinking a file, removing a directory with what it holds)
    and nothing else: the tree afterwards is the tree before without [a];
    the subtrees at [b] and [c] are the same, and so is every location
    outside [a]. *)
Theorem delete_mode_example order base rel t :
  let rule := JArr [JStr (lit "delete");
                    JObj [(lit "a", JStr (lit "delete"))]] in
  let cur := pjoin base rel in
  let r := process_rule order base rel rule t in
  lit ".." ∉ cur ->
  (forall n, n ∈ listdir cur t <-> n ∈ [lit "a"; lit "b"; lit "c"]) ->
  completed r = true /\
  final r = rm (cur ++ [lit "a"]) t /\
  (deletions r = [Unlinked (cur ++ [lit "a"])] \/
   deletions r = [Tree_removed (cur ++ [lit "a"])]) /\
  stat (cur ++ [lit "a"]) (final r) = None /\
  find (cur ++ [lit "b"]) (final r) = find (cur ++ [lit "b"]) t /\
  find (cur ++ [lit "c"]) (final r) = find (cur ++ [lit "c"]) t /\
  (forall p, ~ (cur ++ [lit "a"]) `prefix_of` p -> stat p (final r) = stat p t).
Proof.
  intros rule cur r Hdots Hls.
  assert (Ha : is_Some (stat (cur ++ [lit "a"]) t)).
  { apply elem_of_listdir, Hls. by left. }
  destruct Ha as [k Hk].
  pose proof (stat_parent _ _ _ _ Hk) as Hdir.
  assert (Hcur : resolve t cur = Some cur)
    by (apply resolve_plain; [done | by eauto]).
  assert (Hrun : r = Done tt (rm (cur ++ [lit "a"]) t)
                       [match k with
                        | KFile _ => Unlinked (cur ++ [lit "a"])
                        | KDir => Tree_removed (cur ++ [lit "a"])
                        end]).
  { subst r rule.
    rewrite (process_rule_list order base rel _ _ Delete) by done.
    cbv zeta. fold cur. unfold exists_, is_dir.
    rewrite (stat_at_resolve _ _ _ Hcur), Hdir.
    rewrite bool_decide_eq_true_2 by (by eauto). cbn [negb].
    simpl. rewrite (pjoin_child _ _ _ simple_name_a). fold cur.
    unfold bind. rewrite (delete_path_plain (cur ++ [lit "a"]) t), Hk.
    - by destruct k.
    - by destruct cur.
    - intros [Hin | Hin%list_elem_of_singleton]%elem_of_app; done.
    - by rewrite removelast_last. }
  rewrite Hrun. simpl.
  repeat split; try done.
  - destruct k; by eauto.
  - apply stat_rm_under; [by destruct cur | done].
  - apply find_rm_apart; by apply not_prefix_sibling.
  - apply find_rm_apart; by apply not_prefix_sibling.
  - intros p Hp. by apply stat_rm_other.
Qed.

Lemma without_below q names t : below (without q names t) t.
Proof.
  revert t. induction names as [ | n names IH ]; intros t; [apply below_refl | ].
  eapply below_trans; [apply IH | apply rm_below].
Qed.

Lemma stat_without_gone q names n t :
  n ∈ names -> stat (q ++ [n]) (without q names t) = None.
Proof.
  revert t. induction names as [ | m names IH ]; intros t Hn.
  - by apply elem_of_nil in Hn.
  - apply elem_of_cons in Hn as [-> | Hn]; [ | by apply IH].
    destruct (stat (q ++ [m]) (without q (m :: names) t)) as [k | ] eqn:Hk;
      [ | done].
    apply (without_below q names (rm (q ++ [m]) t)) in Hk.
    rewrite stat_rm_under in Hk; [done | by destruct q | done].
Qed.

Lemma stat_without_other q names p t :
  (forall n, n ∈ names -> ~ (q ++ [n]) `prefix_of` p) ->
  stat p (without q names t) = stat p t.
Proof.
  revert t. induction names as [ | m names IH ]; intros t Hp; [done | ].
  simpl. rewrite IH by (intros n Hn; apply Hp; by right).
  apply stat_rm_other. apply Hp. by left.
Qed.

Lemma find_without_apart q names p t :
  (forall n, n ∈ names ->
     ~ (q ++ [n]) `prefix_of` p /\ ~ p `prefix_of` (q ++ [n])) ->
  find p (without q names t) = find p t.
Proof.
  revert t. induction names as [ | m names IH ]; intros t Hp; [done | ].
  simpl. rewrite IH by (intros n Hn; apply Hp; by right).
  apply find_rm_apart; apply Hp; by left.
Qed.

(** In a directory reached without [..], the whitelist loop removes exactly
    the entries it is given. *)
Lemma delete_loop_plain cur names t :
  lit ".." ∉ cur -> stat cur t = Some KDir ->
  (forall n, n ∈ names -> simple_name n) ->
  exists l,
    for_each (fun n => delete_path (pjoin cur n)) names t
    = Done tt (without cur names t) l.
Proof.
  intros Hdots. revert t.
  induction names as [ | n names IH ]; intros t Hdir Hnames; [by eexists | ].
  assert (Hn : simple_name n) by (apply Hnames; by left).
  rewrite for_each_cons. unfold bind. rewrite (pjoin_simple _ _ Hn).
  rewrite (delete_path_plain (cur ++ [n]) t).
  - destruct (IH (rm (cur ++ [n]) t)) as [l' Hl'].
    + rewrite stat_rm_other; [done | ].
      intros Hpre%prefix_length. rewrite length_app in Hpre. simpl in Hpre. lia.
    + intros m Hm. apply Hnames. by right.
    + rewrite Hl'. by eexists.
  - by destruct cur.
  - intros [Hin | Hin%list_elem_of_singleton]%elem_of_app; [done | ].
    by destruct Hn as (_ & _ & Hn).
  - by rewrite removelast_last.
Qed.

(** C1 — on a directory (reached by a path without [..]) whose entries are
    exactly [a], [b] and [c], the rule [["preserve", {"a": "preserve"}]]
    removes the entries [b] and [c] with everything below them and keeps
    [a]: afterwards nothing is found at [b] or [c], the subtree at [a] is
    the one that was there, and every location outside [b] and [c] is as it
    was. *)
Theorem preserve_mode_example order base rel t :
  let rule := JArr [JStr (lit "preserve");
                    JObj [(lit "a", JStr (lit "preserve"))]] in
  let cur := pjoin base rel in
  let r := process_rule order base rel rule t in
  (forall l, Permutation (order l) l) ->
  lit ".." ∉ cur ->
  (forall n, n ∈ listdir cur t <-> n ∈ [lit "a"; lit "b"; lit "c"]) ->
  completed r = true /\
  stat (cur ++ [lit "b"]) (final r) = None /\
  stat (cur ++ [lit "c"]) (final r) = None /\
  is_Some (find (cur ++ [lit "a"]) (final r)) /\
  find (cur ++ [lit "a"]) (final r) = find (cur ++ [lit "a"]) t /\
  (forall p, ~ (cur ++ [lit "b"]) `prefix_of` p ->
             ~ (cur ++ [lit "c"]) `prefix_of` p ->
             stat p (final r) = stat p t).
Proof.
  intros rule cur r Hperm Hdots Hls.
  assert (Ha : is_Some (stat (cur ++ [lit "a"]) t)).
  { apply elem_of_listdir, Hls. by left. }
  destruct Ha as [k Hk]. pose proof (stat_parent _ _ _ _ Hk) as Hdir.
  assert (Hcur : resolve t cur = Some cur)
    by (apply resolve_plain; [done | by eauto]).
  set (names := order (filter (fun n => n ∉ keys [(lit "a", JStr (lit "preserve"))])
                              (iterdir t cur))).
  assert (Hnames : forall n, n ∈ names <-> n = lit "b" \/ n = lit "c").
  { intros n. subst names. rewrite Hperm, list_elem_of_filter.
    unfold iterdir. rewrite Hcur, Hls.
    change (keys [(lit "a", JStr (lit "preserve"))]) with [lit "a"].
    rewrite list_elem_of_singleton, !elem_of_cons, elem_of_nil.
    split.
    - intros [Hna [-> | [-> | [-> | []]]]]; [done | by left | by right].
    - intros [-> | ->]; split; try done; by eauto. }
  assert (Hrun : exists l, r = Done tt (without cur names t) l).
  { subst r rule. rewrite (process_rule_list order base rel _ _ Preserve) by done.
    cbv zeta. fold cur. unfold exists_, is_dir.
    rewrite (stat_at_resolve _ _ _ Hcur), Hdir.
    rewrite bool_decide_eq_true_2 by (by eauto). cbn [negb]. fold names.
    destruct (delete_loop_plain cur names t Hdots Hdir) as [l Hl].
    { intros n [-> | ->]%Hnames; [apply simple_name_b | apply simple_name_c]. }
    unfold bind. rewrite Hl, preserve_only_idle by done. by eexists. }
  destruct Hrun as [l Hrun]. rewrite Hrun. simpl.
  assert (Hsib : forall n, n ∈ names ->
            ~ (cur ++ [n]) `prefix_of` (cur ++ [lit "a"]) /\
            ~ (cur ++ [lit "a"]) `prefix_of` (cur ++ [n])).
  { intros n [-> | ->]%Hnames; split; by apply not_prefix_sibling. }
  assert (Hfa : find (cur ++ [lit "a"]) (without cur names t)
                = find (cur ++ [lit "a"]) t)
    by (by apply find_without_apart).
  repeat split.
  - apply stat_without_gone, Hnames. by left.
  - apply stat_without_gone, Hnames. by right.
  - rewrite Hfa. unfold stat in Hk. by destruct (find (cur ++ [lit "a"]) t).
  - exact Hfa.
  - intros p Hb Hc. apply stat_without_other.
    by intros n [-> | ->]%Hnames.
Qed.

(** ** Lines *)

Lemma split_on_no_sep sep s : Forall (fun w => sep ∉ w) (split_on sep s).
Proof.
  induction s as [ | c s IH ]; simpl.
  - constructor; [by intros ?%elem_of_nil | constructor].
  - destruct (decide (c = sep)) as [-> | Hc].
    + constructor; [by intros ?%elem_of_nil | exact IH].
    + destruct (split_on sep s) as [ | w ws]; constructor.
      * intros [-> | ?%elem_of_nil]%elem_of_cons; done.
      * constructor.
      * apply Forall_cons_1 in IH as [Hw _].
        intros [-> | Hin]%elem_of_cons; done.
      * by apply Forall_cons_1 in IH as [_ Hws].
Qed.

Lemma split_on_plain sep w : sep ∉ w -> split_on sep w = [w].
Proof.
  induction w as [ | c w IH ]; intros Hw; [done | ]. simpl.
  rewrite decide_False by (intros ->; apply Hw; by left).
  rewrite IH; [done | ]. intros Hin. apply Hw. by right.
Qed.

(** Splitting what was joined gives the pieces back. *)
Lemma split_on_join sep ls :
  ls <> [] -> Forall (fun w => sep ∉ w) ls ->
  split_on sep (join_with [sep] ls) = ls.
Proof.
  induction ls as [ | w ls IH ]; intros Hne Hls; [done | ].
  apply Forall_cons_1 in Hls as [Hw Hls].
  destruct ls as [ | w' ls']; simpl.
  - by apply split_on_plain.
  - change (w ++ sep :: join_with [sep] (w' :: ls'))
      with (w ++ sep :: join_with [sep] (w' :: ls')).
    rewrite split_on_app, split_on_plain by done.
    simpl. f_equal. by apply IH.
Qed.

Lemma is_prefix_of_app p s : is_prefix_of p (p ++ s) = true.
Proof.
  unfold is_prefix_of. apply bool_decide_eq_true. by rewrite take_app_length.
Qed.

Lemma prefix_no_newline : 10 ∉ prefix.
Proof. by apply (bool_decide_unpack _). Qed.

Lemma second_line_no_newline : 10 ∉ second_line.
Proof. by apply (bool_decide_unpack _). Qed.

(** ** The description patcher *)


(** Joining what was split gives the text back. *)
Lemma patch_description_split desc :
  exists first rest,
    split_on 10 desc = first :: rest /\
    split_on 10 (patch_description desc)
    = prefixed first :: second_line :: tl rest.
Proof.
  unfold patch_description, prefixed.
  pose proof (split_on_no_sep 10 desc) as Hlines.
  destruct (split_on 10 desc) as [ | first rest] eqn:Hsplit;
    [by apply split_on_nonempty in Hsplit | ].
  exists first, rest. split; [done | ].
  apply Forall_cons_1 in Hlines as [Hfirst Hrest].
  set (first' := if is_prefix_of prefix first then first else prefix ++ first).
  assert (Hf' : 10 ∉ first').
  { subst first'. destruct (is_prefix_of prefix first); [done | ].
    intros [Hin | Hin]%elem_of_app; [by apply prefix_no_newline | done]. }
  destruct rest as [ | second rest'].
  - simpl. rewrite split_on_app, !split_on_plain;
      [done | apply second_line_no_newline | done].
  - apply split_on_join; [done | ].
    apply Forall_cons_1 in Hrest as [_ Hrest'].
    repeat constructor; [done | apply second_line_no_newline | done].
Qed.

Lemma join_split sep s : join_with [sep] (split_on sep s) = s.
Proof.
  induction s as [ | c s IH ]; simpl; [done | ].
  pose proof (split_on_nonempty sep s) as Hne.
  destruct (decide (c = sep)) as [-> | Hc].
  - destruct (split_on sep s) as [ | w ws]; [done | ]. simpl in *. by rewrite IH.
  - destruct (split_on sep s) as [ | w [ | w' ws']]; [done | | ];
      simpl in *; by rewrite <- IH.
Qed.


(** ** Writing files *)

Lemma assoc_upsert n x k es :
  assoc k (upsert n x es) = if decide (k = n) then Some x else assoc k es.
Proof.
  induction es as [ | [m y] es IH ]; simpl.
  - destruct (decide (n = k)) as [-> | Hnk].
    + by rewrite decide_True.
    + by rewrite decide_False.
  - destruct (decide (m = n)) as [-> | Hmn]; simpl.
    + destruct (decide (n = k)) as [-> | Hnk].
      * by rewrite decide_True.
      * by rewrite decide_False.
    + destruct (decide (m = k)) as [-> | Hmk].
      * by rewrite decide_False.
      * exact IH.
Qed.

(** After a file is put at [q/n] (where no directory was), it is found
    there, and every other location is as before. *)
Lemma stat_put q n c p t :
  stat q t = Some KDir -> stat (q ++ [n]) t <> Some KDir ->
  stat p (put q n (File c) t)
  = if decide (p = q ++ [n]) then Some (KFile c) else stat p t.
Proof.
  revert p t. induction q as [ | m q IH ]; intros p t Hq Hn.
  - destruct t as [c0 | es]; [done | ]. simpl in *.
    destruct p as [ | k p']; [done | ].
    rewrite !stat_cons, assoc_upsert. rewrite stat_cons in Hn.
    destruct (decide (k = n)) as [-> | Hkn].
    + destruct p' as [ | k' p'']; [by rewrite decide_True | ].
      rewrite decide_False by done. rewrite stat_cons.
      destruct (assoc n es) as [[c1 | es1] | ]; by rewrite ?stat_cons.
    + rewrite decide_False; [done | ]. by intros [= ->].
  - destruct t as [c0 | es]; [done | ]. rewrite stat_cons in Hq.
    simpl put. destruct p as [ | k p'].
    + by rewrite decide_False.
    + rewrite !stat_cons, assoc_alter_entry.
      simpl in Hn. rewrite stat_cons in Hn.
      destruct (decide (k = m)) as [-> | Hkm].
      * destruct (assoc m es) as [x | ]; [ | done]. simpl.
        rewrite IH by done. repeat case_decide; by simplify_eq.
      * rewrite decide_False; [done | ]. by intros [= ->].
Qed.

Lemma put_embeds q n c t :
  stat q t = Some KDir -> stat (q ++ [n]) t <> Some KDir ->
  embeds t (put q n (File c) t).
Proof.
  intros Hq Hn p k Hk. rewrite stat_put by done.
  destruct (decide (p = q ++ [n])) as [-> | Hp].
  - exists (KFile c). split; [done | ]. split; [ | done].
    intros ->. by rewrite Hk in Hn.
  - by exists k.
Qed.

Lemma walk_embeds t t' cur comps q :
  embeds t t' -> walk t cur comps = Some q -> walk t' cur comps = Some q.
Proof.
  intros He. revert cur. induction comps as [ | c rest IH ]; intros cur; simpl.
  - done.
  - destruct (stat cur t) as [[? | ] | ] eqn:Hk; try done.
    destruct (He _ _ Hk) as (k' & -> & Hdir).
    assert (k' = KDir) as -> by (by apply Hdir).
    destruct (decide (c = lit "..")); [apply IH | ].
    destruct (stat (cur ++ [c]) t) eqn:Hc; [ | done].
    destruct (He _ _ Hc) as (k'' & -> & _). apply IH.
Qed.

Lemma resolve_embeds t t' p q :
  embeds t t' -> resolve t p = Some q -> resolve t' p = Some q.
Proof. apply walk_embeds. Qed.

(** Writing [p0/n] where the parent is a directory and [p0/n] is not. *)
Lemma write_text_at p0 n c t q :
  n <> lit ".." -> resolve t p0 = Some q ->
  stat q t = Some KDir -> stat (q ++ [n]) t <> Some KDir ->
  write_text (p0 ++ [n]) c t
  = Done tt (put q n (File c) t) [Written (q ++ [n]) c].
Proof.
  intros Hn Hq Hdir Hfile. unfold write_text.
  destruct (p0 ++ [n]) as [ | x xs] eqn:Hp; [by destruct p0 | ].
  rewrite <- Hp, removelast_last, last_last, decide_False, Hq, Hdir by done.
  by destruct (stat (q ++ [n]) t) as [[? | ] | ].
Qed.

Lemma catch_done {A} (body handler : M A) t a t' l :
  body t = Done a t' l -> catch body handler t = Done a t' l.
Proof. unfold catch. by intros ->. Qed.


(** ** Stripping and newlines *)

Lemma universal_newlines_no_cr s : 13 ∉ universal_newlines s.
Proof.
  assert (H : forall n s, (length s <= n)%nat -> 13 ∉ universal_newlines s).
  { clear s. induction n as [ | n IH ]; intros s Hlen.
    - destruct s; [by intros ?%elem_of_nil | simpl in Hlen; lia].
    - destruct s as [ | c rest]; simpl; [by intros ?%elem_of_nil | ].
      simpl in Hlen. destruct (decide (c = 13)) as [-> | Hc].
      + intros [? | Hin]%elem_of_cons; [done | ].
        destruct rest as [ | c' rest']; [by apply elem_of_nil in Hin | ].
        simpl in Hlen. destruct (decide (c' = 10)).
        * apply (IH rest'); [lia | done].
        * apply (IH (c' :: rest')); [simpl; lia | done].
      + intros [? | Hin]%elem_of_cons; [done | ].
        apply (IH rest); [lia | done]. }
  by apply (H (length s)).
Qed.

Lemma universal_newlines_id s : 13 ∉ s -> universal_newlines s = s.
Proof.
  induction s as [ | c s IH ]; intros Hs; [done | ]. simpl.
  rewrite decide_False by (intros ->; apply Hs; by left).
  rewrite IH; [done | ]. intros Hin. apply Hs. by right.
Qed.

Lemma lstrip_subset s c : c ∈ lstrip s -> c ∈ s.
Proof.
  induction s as [ | x s IH ]; simpl; [done | ].
  destruct (is_space x); [ | done]. intros Hin. right. by apply IH.
Qed.

Lemma rstrip_subset s c : c ∈ rstrip s -> c ∈ s.
Proof.
  unfold rstrip. rewrite !list_elem_of_In, <- in_rev, <- list_elem_of_In.
  intros Hin%lstrip_subset. by rewrite list_elem_of_In, <- in_rev in Hin.
Qed.

Lemma strip_subset s c : c ∈ strip s -> c ∈ s.
Proof. unfold strip. intros Hin%lstrip_subset. by apply rstrip_subset. Qed.

Lemma contains_unfold needle haystack :
  contains needle haystack =
  is_prefix_of needle haystack ||
  match haystack with [] => false | _ :: rest => contains needle rest end.
Proof. by destruct haystack. Qed.

Lemma contains_here needle rest : contains needle (needle ++ rest) = true.
Proof. by rewrite contains_unfold, is_prefix_of_app. Qed.

Lemma contains_later needle before rest :
  contains needle rest = true -> contains needle (before ++ rest) = true.
Proof.
  intros Hc. induction before as [ | c before IH ]; [done | ]. simpl.
  rewrite IH. apply orb_true_r.
Qed.

(** ** The credits patcher *)

Lemma read_text_file p t content :
  stat_at t p = Some (KFile content) ->
  read_text p t = Done (universal_newlines content) t [].
Proof. unfold read_text. by intros ->. Qed.

Lemma exists_stat_at t p : exists_ t p = bool_decide (is_Some (stat_at t p)).
Proof. done. Qed.

Lemma simple_name_credits : simple_name (lit "credits.txt").
Proof. by repeat split. Qed.

Lemma simple_name_mcmeta : simple_name (lit "pack.mcmeta").
Proof. by repeat split. Qed.

(** [modify_credits] by cases on the two files. *)
Lemma modify_credits_cases pack_root script_root t :
  modify_credits pack_root script_root t =
  let credits_path := pack_root ++ [lit "credits.txt"] in
  match stat_at t (script_root ++ [lit "credits.txt"]) with
  | None => Done tt t [Warning Credits_template_missing]
  | Some KDir => Done tt t [Error Credits_failed]
  | Some (KFile template) =>
      let signature := strip (universal_newlines template) in
      match stat_at t credits_path with
      | Some (KFile raw) =>
          let content := universal_newlines raw in
          if contains signature content then Done tt t []
          else catch (write_text credits_path
                        (rstrip content ++ [10; 10] ++ signature ++ [10]))
                     (emit (Error Credits_failed)) t
      | Some KDir => Done tt t [Error Credits_failed]
      | None => catch (write_text credits_path (signature ++ [10]))
                      (emit (Error Credits_failed)) t
      end
  end.
Proof.
  unfold modify_credits. rewrite !(pjoin_simple _ _ simple_name_credits).
  rewrite bind_read, exists_stat_at.
  destruct (stat_at t (script_root ++ [lit "credits.txt"]))
    as [[template | ] | ] eqn:Htpl; cbn [bool_decide negb]; [ | | done].
  - rewrite bool_decide_eq_true_2 by (by eauto). cbn [negb].
    unfold catch at 1. unfold bind at 1.
    rewrite (read_text_file _ _ _ Htpl), after_nil, bind_read, exists_stat_at.
    cbv zeta.
    destruct (stat_at t (pack_root ++ [lit "credits.txt"]))
      as [[raw | ] | ] eqn:Hcr.
    + rewrite bool_decide_eq_true_2 by (by eauto).
      unfold bind. rewrite (read_text_file _ _ _ Hcr), after_nil.
      destruct (contains _ _); [done | ]. unfold catch.
      by destruct (write_text _ _ t).
    + rewrite bool_decide_eq_true_2 by (by eauto).
      unfold bind, read_text. by rewrite Hcr.
    + rewrite bool_decide_eq_false_2 by (by intros [? ?]).
      unfold catch. by destruct (write_text _ _ t).
  - rewrite bool_decide_eq_true_2 by (by eauto). cbn [negb].
    unfold catch, bind, read_text. by rewrite Htpl.
Qed.

Lemma stat_at_snoc t p n q :
  n <> lit ".." -> resolve t p = Some q -> stat q t = Some KDir ->
  stat_at t (p ++ [n]) = stat (q ++ [n]) t.
Proof.
  intros Hn Hq Hdir. unfold stat_at. rewrite (resolve_snoc _ _ _ Hn), Hq.
  cbn [mbind option_bind]. rewrite Hdir.
  by destruct (stat (q ++ [n]) t) eqn:Hk.
Qed.

Lemma stat_at_dir t p :
  stat_at t p = Some KDir ->
  exists q, resolve t p = Some q /\ stat q t = Some KDir.
Proof.
  unfold stat_at. destruct (resolve t p) as [q | ]; [ | done]. by exists q.
Qed.

(** What a write leaves behind, seen through paths. *)
Lemma stat_at_written t p0 n c q p k :
  n <> lit ".." -> resolve t p0 = Some q ->
  stat q t = Some KDir -> stat (q ++ [n]) t <> Some KDir ->
  let t' := put q n (File c) t in
  stat_at t' (p0 ++ [n]) = Some (KFile c) /\
  (stat_at t p = Some k -> stat_at t p <> stat (q ++ [n]) t ->
   stat_at t' p = Some k).
Proof.
  intros Hn Hq Hdir Hfile t'. subst t'.
  pose proof (put_embeds q n c t Hdir Hfile) as Hemb. split.
  - rewrite (stat_at_snoc _ p0 n q Hn).
    + rewrite stat_put by done. by rewrite decide_True.
    + by eapply resolve_embeds.
    + rewrite stat_put by done. rewrite decide_False; [done | ].
      intros Heq%(f_equal length). rewrite length_app in Heq. simpl in Heq. lia.
  - unfold stat_at. destruct (resolve t p) as [r | ] eqn:Hr; [ | done].
    cbn [mbind option_bind]. intros Hk Hne.
    rewrite (resolve_embeds _ _ _ _ Hemb Hr). cbn [mbind option_bind].
    rewrite stat_put by done. rewrite decide_False; [done | ].
    intros ->. done.
Qed.

Lemma signature_no_cr template : 13 ∉ strip (universal_newlines template).
Proof. intros Hin%strip_subset. by apply universal_newlines_no_cr in Hin. Qed.

(** One run of the credits patcher on a pack without [credits.txt], or with
    an empty one, followed by a second run. *)
Lemma modify_credits_fresh pack_root script_root template t before :
  let credits_path := pack_root ++ [lit "credits.txt"] in
  let signature := strip (universal_newlines template) in
  stat_at t (script_root ++ [lit "credits.txt"]) = Some (KFile template) ->
  stat_at t pack_root = Some KDir ->
  (stat_at t credits_path = None /\ before = []) \/
  (stat_at t credits_path = Some (KFile []) /\ signature <> [] /\
   before = [10; 10]) ->
  exists t' l,
    modify_credits pack_root script_root t = Done tt t' l /\
    stat_at t' credits_path = Some (KFile (before ++ signature ++ [10])) /\
    modify_credits pack_root script_root t' = Done tt t' [].
Proof.
  intros credits_path signature Htpl Hroot Hcase.
  destruct (stat_at_dir _ _ Hroot) as (q & Hq & Hdir).
  pose proof (stat_at_snoc t pack_root (lit "credits.txt") q
                ltac:(done) Hq Hdir) as Hcr. fold credits_path in Hcr.
  set (content := before ++ signature ++ [10]).
  assert (Hwrite : modify_credits pack_root script_root t
                   = catch (write_text credits_path content)
                           (emit (Error Credits_failed)) t).
  { rewrite modify_credits_cases, Htpl. cbv zeta. fold credits_path signature.
    destruct Hcase as [[-> ->] | (-> & Hsig & ->)]; [done | ].
    change (universal_newlines []) with (@nil N).
    replace (contains signature []) with false; [done | ].
    destruct signature; [done | ]. done. }
  assert (Hfile : stat (q ++ [lit "credits.txt"]) t <> Some KDir).
  { rewrite <- Hcr. by destruct Hcase as [[-> _] | (-> & _)]. }
  assert (Hother : stat_at t (script_root ++ [lit "credits.txt"])
                   <> stat (q ++ [lit "credits.txt"]) t).
  { rewrite <- Hcr, Htpl.
    destruct Hcase as [[-> _] | (-> & Hsig & _)]; [done | ].
    intros [= ->]. by apply Hsig. }
  destruct (stat_at_written t pack_root (lit "credits.txt") content q
              (script_root ++ [lit "credits.txt"]) (KFile template)
              ltac:(done) Hq Hdir Hfile) as [Hnew Hkeep].
  specialize (Hkeep Htpl Hother).
  eexists _, _. split; [ | split; [exact Hnew | ]].
  - rewrite Hwrite. apply catch_done.
    by apply (write_text_at pack_root (lit "credits.txt") content t q).
  - rewrite modify_credits_cases, Hkeep. cbv zeta.
    fold credits_path signature in Hnew |- *. rewrite Hnew.
    assert (Hcr13 : 13 ∉ content).
    { subst content.
      intros [Hin | [Hin | Hin]%elem_of_app]%elem_of_app.
      - destruct Hcase as [[_ ->] | (_ & _ & ->)];
          [by apply elem_of_nil in Hin | ].
        apply elem_of_cons in Hin as [? | Hin]; [done | ].
        by apply list_elem_of_singleton in Hin.
      - by apply signature_no_cr in Hin.
      - by apply list_elem_of_singleton in Hin. }
    rewrite (universal_newlines_id _ Hcr13). subst content.
    by rewrite contains_later by apply contains_here.
Qed.

(** C6, as amended — with the template in place and the pack root a
    directory: when [credits.txt] is missing, the patcher creates it with
    the signature (the stripped template) and a newline; when it exists
    and is empty, the patcher writes two newlines, the signature and a
    newline (or leaves it empty when the signature itself is empty).  In
    each case a second run changes nothing. *)
Theorem credits_patch pack_root script_root template t :
  let credits_path := pjoin pack_root (lit "credits.txt") in
  let signature := strip (universal_newlines template) in
  let once := modify_credits pack_root script_root t in
  let twice := modify_credits pack_root script_root (final once) in
  stat_at t (pjoin script_root (lit "credits.txt")) = Some (KFile template) ->
  stat_at t pack_root = Some KDir ->
  (stat_at t credits_path = None ->
   stat_at (final once) credits_path = Some (KFile (signature ++ [10])) /\
   twice = Done tt (final once) []) /\
  (stat_at t credits_path = Some (KFile []) -> signature <> [] ->
   stat_at (final once) credits_path
   = Some (KFile ([10; 10] ++ signature ++ [10])) /\
   twice = Done tt (final once) []) /\
  (stat_at t credits_path = Some (KFile []) -> signature = [] ->
   once = Done tt t []).
Proof.
  intros credits_path signature once twice.
  subst credits_path once twice.
  rewrite !(pjoin_simple _ _ simple_name_credits).
  intros Htpl Hroot. split; [ | split].
  - intros Hcr.
    destruct (modify_credits_fresh pack_root script_root template t []
                Htpl Hroot) as (t' & l & -> & Hnew & Hagain); by eauto.
  - intros Hcr Hsig.
    destruct (modify_credits_fresh pack_root script_root template t [10; 10]
                Htpl Hroot) as (t' & l & -> & Hnew & Hagain); by eauto.
  - intros Hcr Hsig. rewrite modify_credits_cases, Htpl. cbv zeta.
    rewrite Hcr. fold signature. by rewrite Hsig.
Qed.

(** ** The description patcher on documents and files *)

Lemma assoc_set_member key v k members :
  assoc k (set_member key v members)
  = if decide (k = key) then Some v else assoc k members.
Proof.
  induction members as [ | [m w] members IH ]; simpl.
  - destruct (decide (key = k)) as [-> | Hk].
    + by rewrite decide_True.
    + by rewrite decide_False.
  - destruct (decide (m = key)) as [-> | Hm]; simpl.
    + destruct (decide (key = k)) as [-> | Hk].
      * by rewrite decide_True.
      * by rewrite decide_False.
    + destruct (decide (m = k)) as [-> | Hk].
      * by rewrite decide_False.
      * exact IH.
Qed.

Lemma py_in_member key v members :
  assoc key members = Some v -> py_in key (JObj members) = Some true.
Proof.
  intros Hk. simpl. f_equal. apply bool_decide_eq_true.
  apply elem_of_keys_assoc. by eauto.
Qed.


Lemma stat_at_snoc_inv t p n k :
  n <> lit ".." -> stat_at t (p ++ [n]) = Some k ->
  exists q, resolve t p = Some q /\ stat q t = Some KDir /\
            stat (q ++ [n]) t = Some k.
Proof.
  intros Hn. unfold stat_at. rewrite (resolve_snoc _ _ _ Hn).
  destruct (resolve t p) as [q | ]; cbn [mbind option_bind]; [ | done].
  destruct (stat q t) as [[? | ] | ] eqn:Hq; try done.
  destruct (stat (q ++ [n]) t) as [k' | ] eqn:Hk; [ | done].
  cbn [mbind option_bind]. rewrite Hk. intros [= ->]. by exists q.
Qed.

Section DescriptionFile.

Variable json_load : text -> option json.
Variable json_dump : json -> dumped.

(** [modify_pack_mcmeta] on a file that loads. *)
Lemma modify_pack_mcmeta_loaded pack_root t source pack_data :
  let pack_meta_path := pack_root ++ [lit "pack.mcmeta"] in
  stat_at t pack_meta_path = Some (KFile source) ->
  json_load (universal_newlines source) = Some pack_data ->
  modify_pack_mcmeta json_load json_dump pack_root t =
  match patch_pack_data pack_data with
  | Unchanged => Done tt t []
  | Changed pack_data' =>
      catch (dump_to pack_meta_path (json_dump pack_data'))
            (emit (Error Mcmeta_failed)) t
  | No_description => Done tt t [Warning Mcmeta_no_description]
  | Failed => Done tt t [Error Mcmeta_failed]
  end.
Proof.
  intros pack_meta_path Hfile Hload. unfold modify_pack_mcmeta.
  rewrite (pjoin_simple _ _ simple_name_mcmeta). fold pack_meta_path.
  rewrite bind_read, exists_stat_at, Hfile.
  rewrite bool_decide_eq_true_2 by (by eauto). cbn [negb].
  unfold catch at 1. unfold bind.
  rewrite (read_text_file _ _ _ Hfile), Hload, after_nil.
  by destruct (patch_pack_data pack_data).
Qed.

End DescriptionFile.


(** ** Locating the pack *)

Lemma assoc_elem_of {A} n (x : A) es : assoc n es = Some x -> (n, x) ∈ es.
Proof.
  induction es as [ | [m y] es IH ]; simpl; [done | ].
  destruct (decide (m = n)) as [-> | Hmn].
  - intros [= ->]. by left.
  - intros Hn. right. by apply IH.
Qed.

(** [directories] misses no directory. *)
Lemma directories_complete r x es :
  find r x = Some (Dir es) -> r ∈ directories x.
Proof.
  revert x. induction r as [ | n r IH ]; intros x; simpl.
  - intros [= ->]. by left.
  - destruct x as [c | es']; [done | ].
    destruct (assoc n es') as [y | ] eqn:Hn; [ | done]. intros Hr.
    simpl. right. apply list_elem_of_In, in_flat_map.
    exists (n, y). split; [by apply list_elem_of_In, assoc_elem_of | ].
    apply in_map. by apply list_elem_of_In, IH.
Qed.

Lemma find_pack_mcmeta_cases target_dir t :
  exists found l,
    find_pack_mcmeta target_dir t = Done found t l /\
    match found with
    | Some _ => has_marker t target_dir
    | None => ~ has_marker t target_dir
    end.
Proof.
  unfold find_pack_mcmeta. rewrite bind_read.
  destruct (exists_ t target_dir) eqn:Hex; cbn [negb].
  - apply exists_resolve in Hex as [q Hq].
    rewrite bind_read, (pjoin_simple _ _ simple_name_mcmeta).
    destruct (exists_ t (target_dir ++ [lit "pack.mcmeta"])) eqn:Hhere.
    + eexists _, _. split; [done | ]. exists q, []. split; [done | ].
      apply bool_decide_eq_true in Hhere. destruct Hhere as [k Hk].
      apply stat_at_snoc_inv in Hk; [ | done].
      destruct Hk as (q' & Hq' & Hdir & Hk).
      assert (q' = q) as -> by congruence. by exists k.
    + rewrite bind_read. unfold rglob_first. rewrite Hq.
      destruct (resolve_exists _ _ _ Hq) as [k Hk]. unfold stat in Hk.
      destruct (find q t) as [x | ] eqn:Hx; [ | done].
      match goal with
      | |- context [List.find ?f ?l] =>
          destruct (List.find f l) as [d | ] eqn:Hfind
      end.
      * eexists _, _. split; [done | ]. apply find_some in Hfind as [_ Hd].
        apply bool_decide_eq_true in Hd. by exists q, d.
      * eexists _, _. split; [done | ].
        intros (q' & r & Hq' & [k' Hk']).
        assert (q' = q) as -> by congruence.
        assert (Hdir : exists es, find r x = Some (Dir es)).
        { rewrite app_assoc in Hk'. apply stat_parent in Hk'.
          unfold stat in Hk'. rewrite find_app, Hx in Hk'. simpl in Hk'.
          destruct (find r x) as [[c | es] | ]; try done. by eexists. }
        destruct Hdir as [es Hes].
        apply directories_complete, list_elem_of_In in Hes.
        apply (find_none _ _ Hfind) in Hes.
        apply bool_decide_eq_false in Hes. apply Hes. by eauto.
  - eexists _, _. split; [done | ].
    intros (q & r & Hq & _). apply not_exists_resolve in Hex. congruence.
Qed.

(** ** The exit code of [main] *)

Lemma returned_after {A} l (r : res A) : returned (after l r) = returned r.
Proof. by destruct r. Qed.

Lemma returned_bind {A B} (m : M A) (k : A -> M B) t a t' l :
  m t = Done a t' l -> returned (bind m k t) = returned (k a t').
Proof. unfold bind. intros ->. apply returned_after. Qed.

Lemma yields_bind {A B} (z : B) (m : M A) (k : A -> M B) :
  (forall a, yields z (k a)) -> yields z (bind m k).
Proof.
  intros Hk t v. unfold bind. destruct (m t) as [a t' l | ]; [ | done].
  rewrite returned_after. apply Hk.
Qed.

Lemma yields_ret {A} (z : A) : yields z (ret z).
Proof. by intros t v [= <-]. Qed.

Lemma main_returns_0_or_1 json_load json_dump order copy_overrides
    script_root pack_dir type t z :
  returned (main json_load json_dump order copy_overrides
              script_root pack_dir type t) = Some z ->
  z = 0%Z \/ z = 1%Z.
Proof.
  assert (Hone : forall A (m : M A) s v,
             returned (bind m (fun _ => ret 1%Z) s) = Some v ->
             v = 0%Z \/ v = 1%Z).
  { intros A m s v Hv. right. revert Hv. apply yields_bind.
    intros _. apply yields_ret. }
  revert t z.
  assert (Hbind : forall A (m : M A) (k : A -> M Z),
             (forall a s v, returned (k a s) = Some v -> v = 0%Z \/ v = 1%Z) ->
             forall s v, returned (bind m k s) = Some v -> v = 0%Z \/ v = 1%Z).
  { intros A m k Hk s v. unfold bind.
    destruct (m s) as [a s' l | ]; [ | done]. rewrite returned_after. apply Hk. }
  unfold main. apply Hbind. intros e. destruct e; cbn [negb]; [ | apply Hone].
  apply Hbind. intros source. destruct (json_load source) as [config | ]; [ | done].
  apply Hbind. intros [pack_root | ]; [ | apply Hone].
  apply Hbind. intros e. destruct e; cbn [negb]; [ | apply Hone].
  destruct (py_in (lit "assets") config) as [[ | ] | ]; [ | apply Hone | done].
  destruct (py_getitem config (lit "assets")) as [[ | | | | | rules] | ];
    try done.
  intros s v Hv. left. revert s v Hv.
  repeat (apply yields_bind; intros ?). apply yields_ret.
Qed.

(** C8, as amended — [main] returns only 0 or 1.  It returns 1 when the
    configuration file is missing.  When the configuration file holds a JSON
    object, it returns 1 exactly when the target directory does not exist or
    has no [pack.mcmeta] in its subtree, or [assets] is absent under the
    located pack root, or the object has no ["assets"] key.  A configuration
    file that is not valid JSON makes [main] raise, before any of the other
    checks, instead of returning. *)
Theorem main_exit_code json_load json_dump order copy_overrides
    script_root pack_dir type t :
  let script_dir :=
    match type with
    | Legacy_pack => pjoin script_root (lit "legacy")
    | Modern_pack => pjoin script_root (lit "modern")
    end in
  let config_path := pjoin script_dir (lit "delete.json") in
  let r := main json_load json_dump order copy_overrides
             script_root pack_dir type t in
  (forall z, returned r = Some z -> z = 0%Z \/ z = 1%Z) /\
  (exists_ t config_path = false -> returned r = Some 1%Z) /\
  (forall source members,
     stat_at t config_path = Some (KFile source) ->
     json_load (universal_newlines source) = Some (JObj members) ->
     (returned r = Some 1%Z <->
      ~ has_marker t pack_dir \/
      (exists pack_root,
         returned (find_pack_mcmeta pack_dir t) = Some (Some pack_root) /\
         exists_ t (pjoin pack_root (lit "assets")) = false) \/
      lit "assets" ∉ keys members)) /\
  (forall source,
     stat_at t config_path = Some (KFile source) ->
     json_load (universal_newlines source) = None ->
     returned r = None).
Proof.
  intros script_dir config_path r.
  split; [intros z; apply main_returns_0_or_1 | ].
  subst r. unfold main. fold script_dir. fold config_path.
  rewrite bind_read. split; [ | split].
  - by intros ->.
  - intros source members Hfile Hload. rewrite exists_stat_at, Hfile.
    rewrite bool_decide_eq_true_2 by (by eauto). cbn [negb].
    rewrite (returned_bind _ _ _ _ _ _ (read_text_file _ _ _ Hfile)), Hload.
    destruct (find_pack_mcmeta_cases pack_dir t) as (found & l & Hfind & Hnone).
    rewrite (returned_bind _ _ _ _ _ _ Hfind), Hfind. simpl returned at 2.
    destruct found as [pack_root | ].
    + rename Hnone into Hmarker. rewrite bind_read.
      destruct (exists_ t (pjoin pack_root (lit "assets"))) eqn:Hassets;
        cbn [negb].
      * cbn [py_in py_getitem].
        destruct (bool_decide (lit "assets" ∈ keys members)) eqn:Hkey.
        -- apply bool_decide_eq_true in Hkey. split.
           ++ intros Hret. exfalso.
              destruct (assoc (lit "assets") members)
                as [[ | | | | | rules] | ]; try done.
              revert Hret.
              match goal with
              | |- returned (?m t) = _ -> _ =>
                  assert (Hy : yields 0%Z m)
                    by (repeat (apply yields_bind; intros ?); apply yields_ret);
                  intros Hret; by apply Hy in Hret
              end.
           ++ intros [Hno | [(root & [= <-] & Hmiss) | Hno]]; try done.
              congruence.
        -- apply bool_decide_eq_false in Hkey. split; [by eauto | done].
      * split; [ | done]. intros _. right. left. by exists pack_root.
    + split; [ | done]. intros _. by left.
  - intros source Hfile Hload. rewrite exists_stat_at, Hfile.
    rewrite bool_decide_eq_true_2 by (by eauto). cbn [negb].
    by rewrite (returned_bind _ _ _ _ _ _ (read_text_file _ _ _ Hfile)), Hload.
Qed.

(** ** The theorems at work on the sample disk *)

Lemma preserve_mode_example_witness :
  (forall n, n ∈ listdir (pjoin Sample.assets (lit "ns")) Sample.disk
             <-> n ∈ [lit "a"; lit "b"; lit "c"]) /\
  stat (pjoin Sample.assets (lit "ns") ++ [lit "b"])
       (final (process_rule Sample.same_order Sample.assets (lit "ns")
                 Sample.keep_a Sample.disk)) = None.
Proof.
  assert (Hls : forall n,
             n ∈ listdir (pjoin Sample.assets (lit "ns")) Sample.disk
             <-> n ∈ [lit "a"; lit "b"; lit "c"]) by (intros n; reflexivity).
  split; [exact Hls | ].
  apply (preserve_mode_example Sample.same_order Sample.assets (lit "ns")
           Sample.disk).
  - intros l. apply Permutation_refl.
  - apply (bool_decide_unpack _). vm_compute. exact I.
  - exact Hls.
Defined.

Lemma delete_mode_example_witness :
  (forall n, n ∈ listdir (pjoin Sample.assets (lit "ns")) Sample.disk
             <-> n ∈ [lit "a"; lit "b"; lit "c"]) /\
  final (process_rule Sample.same_order Sample.assets (lit "ns")
           Sample.drop_a Sample.disk)
  = rm (pjoin Sample.assets (lit "ns") ++ [lit "a"]) Sample.disk.
Proof.
  assert (Hls : forall n,
             n ∈ listdir (pjoin Sample.assets (lit "ns")) Sample.disk
             <-> n ∈ [lit "a"; lit "b"; lit "c"]) by (intros n; reflexivity).
  split; [exact Hls | ].
  apply (delete_mode_example Sample.same_order Sample.assets (lit "ns")
           Sample.disk).
  - apply (bool_decide_unpack _). vm_compute. exact I.
  - exact Hls.
Defined.

Lemma process_rule_idempotent_witness :
  final (bind (process_rule Sample.same_order Sample.assets (lit "ns")
                 Sample.keep_a)
              (fun _ => process_rule Sample.same_order Sample.assets (lit "ns")
                          Sample.keep_a)
              Sample.disk)
  = final (process_rule Sample.same_order Sample.assets (lit "ns")
             Sample.keep_a Sample.disk).
Proof.
  apply (process_rule_idempotent Sample.same_order Sample.same_order
           Sample.assets (lit "ns") Sample.keep_a Sample.disk).
  - intros l. apply Permutation_refl.
  - intros l. apply Permutation_refl.
Defined.

Lemma preserve_only_deletes_nothing_witness :
  preserve_only (JObj [(lit "ns", JObj [(lit "a", JStr (lit "preserve"))])])
  = true /\
  process_rule Sample.same_order Sample.assets []
    (JObj [(lit "ns", JObj [(lit "a", JStr (lit "preserve"))])]) Sample.disk
  = Done tt Sample.disk [].
Proof.
  split; [vm_compute; reflexivity | ].
  apply (preserve_only_deletes_nothing Sample.same_order Sample.assets []
           (JObj [(lit "ns", JObj [(lit "a", JStr (lit "preserve"))])])
           Sample.disk).
  vm_compute. reflexivity.
Defined.

Lemma rejected_list_rule_witness :
  is_dir Sample.disk (pjoin Sample.assets (child [] (lit "ns/a"))) = false /\
  exists w,
    process_rule Sample.same_order Sample.assets (child [] (lit "ns/a"))
      (JArr [JStr (lit "preserve"); JObj []]) Sample.disk
    = Done tt Sample.disk [Warning w].
Proof.
  assert (Hfile : is_dir Sample.disk
                    (pjoin Sample.assets (child [] (lit "ns/a"))) = false)
    by (vm_compute; reflexivity).
  split; [exact Hfile | ].
  destruct (rejected_list_rule Sample.same_order Sample.assets []
              (lit "ns/a") [JStr (lit "preserve"); JObj []] [] Sample.disk)
    as [w [Hw _]].
  - right. right. right. right. exact Hfile.
  - exists w. exact Hw.
Defined.

Lemma process_rule_only_removes_witness :
  stat [lit "pack"; lit "assets"; lit "ns"; lit "a"]
       (final (process_rule Sample.same_order Sample.assets (lit "ns")
                 Sample.keep_a Sample.disk)) = Some (KFile (lit "A")) /\
  stat [lit "pack"; lit "assets"; lit "ns"; lit "a"] Sample.disk
  = Some (KFile (lit "A")).
Proof.
  assert (Hafter : stat [lit "pack"; lit "assets"; lit "ns"; lit "a"]
                     (final (process_rule Sample.same_order Sample.assets
                               (lit "ns") Sample.keep_a Sample.disk))
                   = Some (KFile (lit "A"))) by (vm_compute; reflexivity).
  split; [exact Hafter | ].
  exact (process_rule_only_removes Sample.same_order Sample.assets (lit "ns")
           Sample.keep_a Sample.disk _ _ Hafter).
Defined.

Lemma credits_patch_witness :
  stat_at Sample.disk (pjoin Sample.pack_root (lit "credits.txt")) = None /\
  stat_at (final (modify_credits Sample.pack_root Sample.script_root
                    Sample.disk))
          (pjoin Sample.pack_root (lit "credits.txt"))
  = Some (KFile (lit "Mini version by TunaFish2K" ++ [10])).
Proof.
  assert (Hmissing : stat_at Sample.disk
                       (pjoin Sample.pack_root (lit "credits.txt")) = None)
    by (vm_compute; reflexivity).
  split; [exact Hmissing | ].
  destruct (credits_patch Sample.pack_root Sample.script_root Sample.template
              Sample.disk) as [Hnew _].
  - vm_compute. reflexivity.
  - vm_compute. reflexivity.
  - destruct (Hnew Hmissing) as [Hcontent _]. exact Hcontent.
Defined.


Lemma main_exit_code_witness :
  stat_at Sample.disk_empty_config
          [lit "tool"; lit "legacy"; lit "delete.json"]
  = Some (KFile (lit "{}")) /\
  returned (main Sample.load Sample.dump Sample.same_order Sample.no_overrides
              Sample.script_root Sample.pack_root Legacy_pack
              Sample.disk_empty_config) = Some 1%Z.
Proof.
  assert (Hfile : stat_at Sample.disk_empty_config
                    [lit "tool"; lit "legacy"; lit "delete.json"]
                  = Some (KFile (lit "{}"))) by (vm_compute; reflexivity).
  split; [exact Hfile | ].
  destruct (main_exit_code Sample.load Sample.dump Sample.same_order
              Sample.no_overrides Sample.script_root Sample.pack_root
              Legacy_pack Sample.disk_empty_config) as (_ & _ & Hiff & _).
  apply (Hiff (lit "{}") [] Hfile eq_refl).
  right. right. vm_compute. intros Hin. inversion Hin.
Defined.

Lemma legacy_process_rule_agrees_witness :
  names_printable Sample.disk = true /\
  final (Legacy.process_rule Sample.same_order Sample.assets (lit "ns")
           Sample.keep_a false Sample.disk)
  = final (process_rule Sample.same_order Sample.assets (lit "ns")
             Sample.keep_a Sample.disk).
Proof.
  assert (Hnames : names_printable Sample.disk = true)
    by (vm_compute; reflexivity).
  split; [exact Hnames | ].
  apply (legacy_process_rule_agrees Sample.same_order Sample.assets (lit "ns")
           Sample.keep_a Sample.disk).
  - intros l. apply Permutation_refl.
  - reflexivity.
  - reflexivity.
  - reflexivity.
  - exact Hnames.
Defined.

(** ** Where the spec says more than the code does *)

(** An empty [credits.txt] does not end up as the signature and a newline:
    the patcher puts a blank separator in front. *)
Lemma credits_patch_empty_file :
  stat_at Sample.disk_empty_credits (pjoin Sample.pack_root (lit "credits.txt"))
  = Some (KFile []) /\
  stat_at Sample.disk_empty_credits (pjoin Sample.script_root (lit "credits.txt"))
  = Some (KFile Sample.template) /\
  stat_at (final (modify_credits Sample.pack_root Sample.script_root
                    Sample.disk_empty_credits))
          (pjoin Sample.pack_root (lit "credits.txt"))
  = Some (KFile ([10; 10] ++ lit "Mini version by TunaFish2K" ++ [10])) /\
  stat_at (final (modify_credits Sample.pack_root Sample.script_root
                    Sample.disk_empty_credits))
          (pjoin Sample.pack_root (lit "credits.txt"))
  <> Some (KFile (strip (universal_newlines Sample.template) ++ [10])).
Proof. vm_compute. repeat split. discriminate. Qed.

(** Three runs that the four listed conditions do not account for.  With a
    configuration that is not JSON, or one whose ["assets"] is a list, and the
    pack in place, none of the conditions holds, yet [main] raises instead of
    returning 0.  With a configuration that is not JSON and a target
    directory that does not exist, a listed condition holds, yet [main]
    raises instead of returning 1. *)
Lemma main_raises :
  (exists_ Sample.disk_bad_config [lit "tool"; lit "legacy"; lit "delete.json"]
   = true /\
   Sample.load (universal_newlines (lit "not json")) = None /\
   returned (find_pack_mcmeta Sample.pack_root Sample.disk_bad_config)
   = Some (Some Sample.pack_root) /\
   exists_ Sample.disk_bad_config (pjoin Sample.pack_root (lit "assets"))
   = true /\
   returned (main Sample.load Sample.dump Sample.same_order Sample.no_overrides
               Sample.script_root Sample.pack_root Legacy_pack
               Sample.disk_bad_config) = None) /\
  (exists_ Sample.disk_assets_list [lit "tool"; lit "legacy"; lit "delete.json"]
   = true /\
   Sample.load (universal_newlines Sample.assets_list_text)
   = Some (JObj [(lit "assets", JArr [])]) /\
   returned (find_pack_mcmeta Sample.pack_root Sample.disk_assets_list)
   = Some (Some Sample.pack_root) /\
   exists_ Sample.disk_assets_list (pjoin Sample.pack_root (lit "assets"))
   = true /\
   returned (main Sample.load Sample.dump Sample.same_order Sample.no_overrides
               Sample.script_root Sample.pack_root Legacy_pack
               Sample.disk_assets_list) = None) /\
  (exists_ Sample.disk_bad_config [lit "nowhere"] = false /\
   returned (main Sample.load Sample.dump Sample.same_order Sample.no_overrides
               Sample.script_root [lit "nowhere"] Legacy_pack
               Sample.disk_bad_config) = None).
Proof. vm_compute. repeat split. Qed.

(** On a mapping whose first key cannot be printed, the legacy evaluator
    raises at the print of that key and deletes nothing, while the current
    evaluator goes on and deletes [a]. *)
Lemma legacy_stops_at_unprintable_key :
  deletions (Legacy.process_rule Sample.same_order Sample.assets (lit "ns")
               surrogate_key_rule false Sample.disk) = [] /\
  final (Legacy.process_rule Sample.same_order Sample.assets (lit "ns")
           surrogate_key_rule false Sample.disk) = Sample.disk /\
  deletions (process_rule Sample.same_order Sample.assets (lit "ns")
               surrogate_key_rule Sample.disk)
  = [Unlinked [lit "pack"; lit "assets"; lit "ns"; lit "a"]] /\
  final (process_rule Sample.same_order Sample.assets (lit "ns")
           surrogate_key_rule Sample.disk)
  = rm [lit "pack"; lit "assets"; lit "ns"; lit "a"] Sample.disk /\
  rm [lit "pack"; lit "assets"; lit "ns"; lit "a"] Sample.disk <> Sample.disk.
Proof. vm_compute. repeat split. discriminate. Qed.

(** * Further properties of the code *)

(** ** [delete_path] *)

(** X1 — When [delete_path] returns, nothing is left at the path. *)
Theorem delete_path_leaves_nothing p t :
  completed (delete_path p t) = true ->
  exists_ (final (delete_path p t)) p = false.
Proof.
  destruct (delete_path p t) as [[] t1 l | ] eqn:Hrun; [ | done]. intros _.
  simpl. eapply delete_path_gone; [exact Hrun | apply below_refl].
Qed.

Lemma delete_path_leaves_nothing_witness :
  completed (delete_path [lit "pack"; lit "assets"; lit "ns"; lit "b"]
               Sample.disk) = true /\
  exists_ (final (delete_path [lit "pack"; lit "assets"; lit "ns"; lit "b"]
                    Sample.disk))
          [lit "pack"; lit "assets"; lit "ns"; lit "b"] = false.
Proof.
  assert (Hdone : completed (delete_path
                               [lit "pack"; lit "assets"; lit "ns"; lit "b"]
                               Sample.disk) = true) by (vm_compute; reflexivity).
  split; [exact Hdone | ].
  exact (delete_path_leaves_nothing _ _ Hdone).
Defined.

(** X2 — On a path without [..] whose parent is a directory, [delete_path]
    removes the entry with what is below it and nothing else, and records
    one event: an unlink for a file, a tree removal for a directory, a
    warning when nothing is there. *)
Theorem delete_path_removes_exactly p t :
  p <> [] -> lit ".." ∉ p -> stat (removelast p) t = Some KDir ->
  delete_path p t =
  Done tt (rm p t)
       [match stat p t with
        | Some (KFile _) => Unlinked p
        | Some KDir => Tree_removed p
        | None => Warning (Path_does_not_exist p)
        end] /\
  (forall p', p `prefix_of` p' -> stat p' (rm p t) = None) /\
  (forall p', ~ p `prefix_of` p' -> stat p' (rm p t) = stat p' t).
Proof.
  intros Hp Hdots Hparent. split; [by apply delete_path_plain | ]. split.
  - intros p' Hpre. by apply stat_rm_under.
  - intros p' Hpre. by apply stat_rm_other.
Qed.

Lemma delete_path_removes_exactly_witness :
  stat (removelast [lit "pack"; lit "assets"; lit "ns"; lit "b"]) Sample.disk
  = Some KDir /\
  delete_path [lit "pack"; lit "assets"; lit "ns"; lit "b"] Sample.disk
  = Done tt (rm [lit "pack"; lit "assets"; lit "ns"; lit "b"] Sample.disk)
         [Tree_removed [lit "pack"; lit "assets"; lit "ns"; lit "b"]].
Proof.
  assert (Hparent : stat (removelast [lit "pack"; lit "assets"; lit "ns"; lit "b"])
                         Sample.disk = Some KDir) by (vm_compute; reflexivity).
  split; [exact Hparent | ].
  destruct (delete_path_removes_exactly
              [lit "pack"; lit "assets"; lit "ns"; lit "b"] Sample.disk)
    as [Hrun _].
  - discriminate.
  - apply (bool_decide_unpack _). vm_compute. exact I.
  - exact Hparent.
  - exact Hrun.
Defined.

(** ** What the evaluator records *)

Lemma events_bind {A B} (m : M A) (k : A -> M B) t :
  events (bind m k t) =
  match m t with
  | Done a t' l => l ++ events (k a t')
  | Crash _ l => l
  end.
Proof.
  unfold bind. destruct (m t) as [a t' l | ]; [ | done]. apply events_after.
Qed.

(** X3 — The evaluator writes no file, prints nothing and logs no error: every
    event of a run is a warning or a deletion. *)
Theorem process_rule_events order base rel rule t :
  Forall (fun e => is_warning e || is_deletion e = true)
         (events (process_rule order base rel rule t)).
Proof.
  revert t.
  apply (process_rule_closed
           (fun m => forall t, Forall (fun e => is_warning e || is_deletion e = true)
                                      (events (m t)))).
  - intros t. constructor.
  - intros m t. by repeat constructor.
  - intros p t. rewrite delete_path_cases.
    destruct (resolve t p) as [q | ]; [ | by repeat constructor].
    destruct (stat q t) as [[c | ] | ].
    + destruct q; by repeat constructor.
    + destruct (can_rmdir _ _ _); by repeat constructor.
    + by repeat constructor.
  - intros A f k Hk t. rewrite bind_read. apply Hk.
  - intros m k Hm Hk t. rewrite events_bind. specialize (Hm t).
    destruct (m t) as [a t' l | ]; simpl in Hm; [ | done].
    apply Forall_app. split; [done | apply Hk].
Qed.

(** ** The legacy evaluator in a dry run *)

(** A computation that leaves the tree as it is, whether it returns or
    raises, and only prints. *)
Definition idle {A} (m : M A) : Prop :=
  forall t, final (m t) = t /\
            Forall (fun e => is_print e = true) (events (m t)).

Lemma idle_ret {A} (a : A) : idle (ret a).
Proof. by intros t. Qed.

Lemma idle_raise {A} : idle (@raise A).
Proof. by intros t. Qed.

Lemma idle_emit m : idle (emit (Print m)).
Proof. intros t. split; [done | by repeat constructor]. Qed.

Lemma idle_read {A} (f : node -> A) : idle (read f).
Proof. by intros t. Qed.

Lemma idle_read_text p : idle (read_text p).
Proof. intros t. unfold read_text. by destruct (stat_at t p) as [[c | ] | ]. Qed.

Lemma idle_bind {A B} (m : M A) (k : A -> M B) :
  idle m -> (forall a, idle (k a)) -> idle (bind m k).
Proof.
  intros Hm Hk t. destruct (Hm t) as [Hf He]. unfold bind.
  destruct (m t) as [a t' l | t' l]; simpl in Hf, He; subst t'; [ | done].
  rewrite final_after, events_after. destruct (Hk a t) as [Hf' He'].
  split; [done | by apply Forall_app].
Qed.

Lemma idle_catch {A} (body handler : M A) :
  idle body -> idle handler -> idle (catch body handler).
Proof.
  intros Hb Hh t. destruct (Hb t) as [Hf He]. unfold catch.
  destruct (body t) as [a t' l | t' l]; simpl in Hf, He; subst t'; [done | ].
  rewrite final_after, events_after. destruct (Hh t) as [Hf' He'].
  split; [done | by apply Forall_app].
Qed.

Lemma idle_say shown m : idle (say shown m).
Proof.
  unfold say. destruct (forallb printable shown);
    [apply idle_emit | apply idle_raise].
Qed.

Lemma idle_for_each {A} (f : A -> M unit) xs :
  (forall x, x ∈ xs -> idle (f x)) -> idle (for_each f xs).
Proof.
  induction xs as [ | x xs IH ]; intros Hf; [apply idle_ret | ].
  rewrite for_each_cons. apply idle_bind.
  - apply Hf. by left.
  - intros _. apply IH. intros y Hy. apply Hf. by right.
Qed.

Lemma idle_dry_members order base rule :
  (forall rel, idle (Legacy.process_rule order base rel rule true)) /\
  match rule with
  | JObj members =>
      forall rel, idle (for_each
                          (fun m => Legacy.process_rule order base
                                      (child rel m.1) m.2 true) members)
  | _ => True
  end.
Proof.
  induction rule as [ | b | z | r | items IH | members IH ] using json_induction;
    try (split; [intros rel; apply idle_ret | done]).
  - split; [ | done]. intros rel.
    simpl. destruct (decide (r = lit "delete")).
    + apply idle_bind; [apply idle_say | intros _; apply idle_ret].
    + destruct (decide (r = lit "preserve")); apply idle_say.
  - split; [ | done]. intros rel.
    destruct items as [ | mode [ | declarations [ | x items]]];
      try apply idle_say.
    simpl. destruct (mode_of mode) as [m | ]; [ | apply idle_say].
    destruct declarations as [ | | | | | decls]; try apply idle_say.
    apply Forall_cons_1 in IH as [_ IH]. apply Forall_cons_1 in IH as [IH _].
    destruct IH as [_ Hdecls]. specialize (Hdecls rel).
    apply idle_bind; [apply idle_read | ]. intros e.
    destruct e; cbn [negb]; [ | apply idle_say].
    apply idle_bind; [apply idle_read | ]. intros d.
    destruct d; cbn [negb]; [ | apply idle_say].
    apply idle_bind; [apply idle_read | ]. intros existing. destruct m.
    + apply idle_bind; [apply idle_say | intros _].
      apply idle_bind; [ | intros _; exact Hdecls].
      apply idle_for_each. intros n _.
      apply idle_bind; [apply idle_say | intros _; apply idle_ret].
    + apply idle_bind; [apply idle_say | intros _; exact Hdecls].
  - assert (Hloop : forall rel,
              idle (for_each (fun m => Legacy.process_rule order base
                                         (child rel m.1) m.2 true) members)).
    { intros rel. apply idle_for_each. intros m Hm.
      rewrite Forall_forall in IH. by apply IH. }
    split; [ | exact Hloop]. intros rel. simpl.
    apply idle_bind; [apply idle_say | intros _; apply Hloop].
Qed.

Lemma idle_dry_process_rule order base rel rule :
  idle (Legacy.process_rule order base rel rule true).
Proof. apply idle_dry_members. Qed.

(** *** When the dry run returns *)

Lemma completed_after {A} l (r : res A) : completed (after l r) = completed r.
Proof. by destruct r. Qed.

Lemma completed_bind {A B} (m : M A) (k : A -> M B) t :
  idle m -> completed (m t) = true ->
  (forall a, completed (k a t) = true) -> completed (bind m k t) = true.
Proof.
  intros Hm Hc Hk. destruct (Hm t) as [Hf _]. unfold bind.
  destruct (m t) as [a t' l | ]; [ | done]. simpl in Hf. subst t'.
  rewrite completed_after. apply Hk.
Qed.

Lemma completed_for_each {A} (f : A -> M unit) xs t :
  (forall x, x ∈ xs -> idle (f x)) ->
  (forall x, x ∈ xs -> completed (f x t) = true) ->
  completed (for_each f xs t) = true.
Proof.
  induction xs as [ | x xs IH ]; intros Hi Hc; [done | ].
  rewrite for_each_cons. apply completed_bind.
  - apply Hi. by left.
  - apply Hc. by left.
  - intros _. apply IH; intros y Hy; [apply Hi | apply Hc]; by right.
Qed.

Lemma completed_say shown m t :
  forallb printable shown = true -> completed (say shown m t) = true.
Proof. intros Hs. by rewrite (say_printable _ _ Hs). Qed.

Lemma dry_process_rule_completes order base rule t :
  (forall l, Permutation (order l) l) -> legible_tree t ->
  legible rule = true ->
  forall rel, printable rel = true ->
    completed (Legacy.process_rule order base rel rule true t) = true.
Proof.
  intros Hperm Ht.
  assert (Hone : forall rel m, printable rel = true ->
                               completed (say [rel] m t) = true).
  { intros rel m Hrel. apply completed_say. simpl. by rewrite Hrel. }
  induction rule as [ | b | z | r | items IH | members IH ] using json_induction;
    intros Hrule rel Hrel; try done.
  - simpl in Hrule. simpl. destruct (decide (r = lit "delete")).
    + apply completed_bind; [apply idle_say | by apply Hone | done].
    + destruct (decide (r = lit "preserve")); [by apply Hone | ].
      apply completed_say. simpl. by rewrite Hrule, Hrel.
  - destruct items as [ | mode [ | declarations [ | x items]]];
      try by apply Hone.
    simpl in Hrule. apply andb_prop in Hrule as [Hmode Hrule].
    apply andb_prop in Hrule as [Hdecls _].
    simpl. destruct (mode_of mode) as [m | ].
    2:{ apply completed_say. rewrite forallb_app. simpl. rewrite Hrel.
        destruct mode; simpl in *; by rewrite ?Hmode. }
    destruct declarations as [ | | | | | decls]; try by apply Hone.
    apply Forall_cons_1 in IH as [_ IH]. apply Forall_cons_1 in IH as [IH _].
    assert (Hsub : completed
                     (for_each (fun m => Legacy.process_rule order base
                                           (child rel m.1) m.2 true) decls t)
                   = true).
    { specialize (IH Hdecls rel Hrel). simpl in IH.
      rewrite (say_printable [rel]) in IH by (simpl; by rewrite Hrel).
      by rewrite bind_emit, completed_after in IH. }
    rewrite bind_read. destruct (exists_ t (pjoin base rel)); cbn [negb];
      [ | by apply Hone].
    rewrite bind_read. destruct (is_dir t (pjoin base rel)); cbn [negb];
      [ | by apply Hone].
    rewrite bind_read. destruct m.
    + apply completed_bind; [apply idle_say | by apply Hone | intros _].
      apply completed_bind; [ | | by intros _].
      * apply idle_for_each. intros n _.
        apply idle_bind; [apply idle_say | intros _; apply idle_ret].
      * apply completed_for_each.
        -- intros n _.
           apply idle_bind; [apply idle_say | intros _; apply idle_ret].
        -- intros n Hn. rewrite Hperm in Hn.
           apply list_elem_of_filter in Hn as [_ Hn].
           pose proof (legible_iterdir _ _ _ Ht Hn) as Hname.
           apply completed_bind; [apply idle_say | | done].
           apply Hone. by apply printable_child.
    + apply completed_bind; [apply idle_say | by apply Hone | by intros _].
  - simpl in Hrule. simpl.
    apply completed_bind; [apply idle_say | by apply Hone | intros _].
    rewrite forallb_forall in Hrule. rewrite Forall_forall in IH.
    apply completed_for_each.
    + intros m _. apply idle_dry_process_rule.
    + intros m Hm.
      specialize (Hrule m (proj1 (list_elem_of_In _ _) Hm)).
      apply andb_prop in Hrule as [Hkey Hm2].
      apply IH; [done | done | by apply printable_child].
Qed.

(** X4 — With [dry_run] set, the legacy evaluator changes nothing on disk and
    does nothing but print, on every rule and tree and whether it returns or
    a print raises; it returns whenever every text it prints can be encoded
    (the relative path, the strings and keys of the rule and the names in
    the tree hold no lone surrogate). *)
Theorem dry_run_changes_nothing order base rel rule t :
  let r := Legacy.process_rule order base rel rule true t in
  final r = t /\
  Forall (fun e => is_print e = true) (events r) /\
  ((forall l, Permutation (order l) l) ->
   printable rel = true -> legible rule = true -> names_printable t = true ->
   completed r = true).
Proof.
  cbv zeta. destruct (idle_dry_process_rule order base rel rule t) as [Hf He].
  split; [done | ]. split; [done | ]. intros Hperm Hrel Hrule Ht.
  apply dry_process_rule_completes; try done.
  by apply names_printable_legible.
Qed.

(** A computation that returns, leaves the tree as it is and only prints. *)
Definition only_prints (m : M unit) : Prop :=
  forall t, exists l, m t = Done tt t l /\ Forall (fun e => is_print e = true) l.

Lemma only_prints_emit m : only_prints (emit (Print m)).
Proof. intros t. exists [Print m]. split; [done | by repeat constructor]. Qed.

Lemma only_prints_seq (m k : M unit) :
  only_prints m -> only_prints k -> only_prints (bind m (fun _ => k)).
Proof.
  intros Hm Hk t. destruct (Hm t) as (l1 & E1 & F1).
  destruct (Hk t) as (l2 & E2 & F2). exists (l1 ++ l2).
  unfold bind. rewrite E1, E2. split; [done | by apply Forall_app].
Qed.

Lemma only_prints_read {A} (f : node -> A) (k : A -> M unit) :
  (forall a, only_prints (k a)) -> only_prints (bind (read f) k).
Proof. intros Hk t. rewrite bind_read. apply Hk. Qed.

(** ** List rules in general *)

Lemma dir_exists t p : is_dir t p = true -> exists_ t p = true.
Proof.
  unfold is_dir, exists_. by destruct (stat_at t p) as [[c | ] | ].
Qed.

Lemma plain_dir t cur :
  lit ".." ∉ cur -> stat cur t = Some KDir ->
  resolve t cur = Some cur /\ exists_ t cur = true /\ is_dir t cur = true /\
  iterdir t cur = listdir cur t.
Proof.
  intros Hdots Hdir.
  assert (Hcur : resolve t cur = Some cur)
    by (apply resolve_plain; [done | by eauto]).
  assert (His : is_dir t cur = true).
  { unfold is_dir. by rewrite (stat_at_resolve _ _ _ Hcur), Hdir. }
  split; [done | ]. split; [by apply dir_exists | ]. split; [done | ].
  unfold iterdir. by rewrite Hcur.
Qed.

(** X5 — On an existing directory a [["delete", declarations]] rule is the
    mapping rule [declarations]; so is a [["preserve", declarations]] rule
    when every entry of the directory is declared. *)
Theorem list_rule_as_mapping order base rel decls t :
  (forall l, Permutation (order l) l) ->
  is_dir t (pjoin base rel) = true ->
  process_rule order base rel (JArr [JStr (lit "delete"); JObj decls]) t
  = process_rule order base rel (JObj decls) t /\
  ((forall n, n ∈ iterdir t (pjoin base rel) -> n ∈ keys decls) ->
   process_rule order base rel (JArr [JStr (lit "preserve"); JObj decls]) t
   = process_rule order base rel (JObj decls) t).
Proof.
  intros Hperm His. pose proof (dir_exists _ _ His) as Hex. split.
  - rewrite (process_rule_list order base rel _ _ Delete) by done.
    cbv zeta. by rewrite Hex, His.
  - intros Hall.
    rewrite (process_rule_list order base rel _ _ Preserve) by done.
    cbv zeta. rewrite Hex, His. cbn [negb].
    assert (Hnone : filter (fun n => n ∉ keys decls)
                           (iterdir t (pjoin base rel)) = []).
    { apply elem_of_nil_inv. intros n [Hn Hin]%list_elem_of_filter.
      by apply Hn, Hall. }
    rewrite Hnone.
    assert (Hnil : order [] = []) by (apply Permutation_nil, Permutation_sym, Hperm).
    rewrite Hnil. unfold bind. simpl. apply after_nil.
Qed.

Lemma list_rule_as_mapping_witness :
  is_dir Sample.disk (pjoin Sample.assets (lit "ns")) = true /\
  process_rule Sample.same_order Sample.assets (lit "ns") Sample.drop_a
               Sample.disk
  = process_rule Sample.same_order Sample.assets (lit "ns")
                 (JObj [(lit "a", JStr (lit "delete"))]) Sample.disk.
Proof.
  assert (His : is_dir Sample.disk (pjoin Sample.assets (lit "ns")) = true)
    by (vm_compute; reflexivity).
  split; [exact His | ].
  apply (list_rule_as_mapping Sample.same_order Sample.assets (lit "ns")
           [(lit "a", JStr (lit "delete"))] Sample.disk).
  - intros l. apply Permutation_refl.
  - exact His.
Defined.

(** X6 — After a [["preserve", declarations]] rule on a directory reached
    without [..], every entry left in the directory is a declared one,
    whatever the rules of the declared entries are and whether they complete
    or raise. *)
Theorem whitelist_keeps_only_declared order base rel decls t :
  let cur := pjoin base rel in
  let r := process_rule order base rel
             (JArr [JStr (lit "preserve"); JObj decls]) t in
  (forall l, Permutation (order l) l) ->
  lit ".." ∉ cur -> stat cur t = Some KDir ->
  (forall n, n ∈ listdir cur t -> simple_name n) ->
  forall n, n ∈ listdir cur (final r) -> n ∈ keys decls.
Proof.
  intros cur r Hperm Hdots Hdir Hsimple n Hn.
  destruct (plain_dir t cur Hdots Hdir) as (Hcur & Hex & His & Hls).
  set (names := order (filter (fun n => n ∉ keys decls) (iterdir t cur))).
  assert (Hnames : forall m, m ∈ names <-> (m ∉ keys decls) /\ m ∈ listdir cur t).
  { intros m. subst names. by rewrite Hperm, list_elem_of_filter, Hls. }
  destruct (delete_loop_plain cur names t Hdots Hdir) as [l Hl].
  { intros m [_ Hm]%Hnames. by apply Hsimple. }
  assert (Hbelow : below (final r) (without cur names t)).
  { subst r. rewrite (process_rule_list order base rel _ _ Preserve) by done.
    cbv zeta. fold cur. rewrite Hex, His. cbn [negb]. fold names.
    unfold bind. rewrite Hl, final_after. apply shrinks_process_rule. }
  apply elem_of_listdir in Hn as [k Hk]. apply Hbelow in Hk.
  destruct (decide (n ∈ keys decls)) as [ | Hnot]; [done | exfalso].
  assert (Hin : n ∈ names).
  { apply Hnames. split; [done | ]. apply elem_of_listdir.
    exists k. by apply (without_below cur names t). }
  by rewrite (stat_without_gone cur names n t Hin) in Hk.
Qed.

Lemma whitelist_keeps_only_declared_witness :
  stat (pjoin Sample.assets (lit "ns")) Sample.disk = Some KDir /\
  (forall n,
     n ∈ listdir (pjoin Sample.assets (lit "ns"))
           (final (process_rule Sample.same_order Sample.assets (lit "ns")
                     Sample.keep_a Sample.disk)) ->
     n ∈ keys [(lit "a", JStr (lit "preserve"))]).
Proof.
  assert (Hdir : stat (pjoin Sample.assets (lit "ns")) Sample.disk = Some KDir)
    by (vm_compute; reflexivity).
  split; [exact Hdir | ].
  apply (whitelist_keeps_only_declared Sample.same_order Sample.assets
           (lit "ns") [(lit "a", JStr (lit "preserve"))] Sample.disk).
  - intros l. apply Permutation_refl.
  - apply (bool_decide_unpack _). vm_compute. exact I.
  - exact Hdir.
  - intros n Hn.
    change (n ∈ [lit "a"; lit "b"; lit "c"]) in Hn.
    apply elem_of_cons in Hn as [-> | Hn]; [apply simple_name_a | ].
    apply elem_of_cons in Hn as [-> | Hn]; [apply simple_name_b | ].
    apply elem_of_cons in Hn as [-> | Hn]; [apply simple_name_c | ].
    by apply elem_of_nil in Hn.
Defined.

Lemma list_dir_names t cur :
  stat cur t = Some KDir -> lit ".." ∉ cur ->
  forall names,
    (forall n, n ∈ names -> simple_name n) ->
    (forall n, n ∈ names -> stat (cur ++ [n]) (without cur names t) = None) /\
    (forall n, n ∉ names ->
       find (cur ++ [n]) (without cur names t) = find (cur ++ [n]) t) /\
    (forall p, ~ cur `prefix_of` p -> stat p (without cur names t) = stat p t).
Proof.
  intros Hdir Hdots names Hsimple. split; [ | split].
  - intros n Hn. by apply stat_without_gone.
  - intros n Hn. apply find_without_apart. intros m Hm.
    assert (m <> n) by (by intros ->).
    split; by apply not_prefix_sibling.
  - intros p Hp. apply stat_without_other. intros n _ [r Hr]. apply Hp.
    exists ([n] ++ r). by rewrite Hr, <- app_assoc.
Qed.

(** X7 — A [["preserve", declarations]] rule whose declarations are all
    ["preserve"] (or mappings of such), on a directory reached without
    [..]: the run completes, every undeclared entry is gone with what was
    below it, every declared entry keeps its subtree, and nothing outside
    the directory changes. *)
Theorem whitelist_of_preserves order base rel decls t :
  let cur := pjoin base rel in
  let r := process_rule order base rel
             (JArr [JStr (lit "preserve"); JObj decls]) t in
  (forall l, Permutation (order l) l) ->
  preserve_only (JObj decls) = true ->
  lit ".." ∉ cur -> stat cur t = Some KDir ->
  (forall n, n ∈ listdir cur t -> simple_name n) ->
  completed r = true /\
  (forall n, n ∈ listdir cur t -> n ∉ keys decls ->
             stat (cur ++ [n]) (final r) = None) /\
  (forall n, n ∈ keys decls ->
             find (cur ++ [n]) (final r) = find (cur ++ [n]) t) /\
  (forall p, ~ cur `prefix_of` p -> stat p (final r) = stat p t).
Proof.
  intros cur r Hperm Hkeep Hdots Hdir Hsimple.
  destruct (plain_dir t cur Hdots Hdir) as (Hcur & Hex & His & Hls).
  set (names := order (filter (fun n => n ∉ keys decls) (iterdir t cur))).
  assert (Hnames : forall m, m ∈ names <-> (m ∉ keys decls) /\ m ∈ listdir cur t).
  { intros m. subst names. by rewrite Hperm, list_elem_of_filter, Hls. }
  assert (Hsimple' : forall m, m ∈ names -> simple_name m).
  { intros m [_ Hm]%Hnames. by apply Hsimple. }
  destruct (delete_loop_plain cur names t Hdots Hdir Hsimple') as [l Hl].
  assert (Hrun : r = Done tt (without cur names t) (l ++ [])).
  { subst r. rewrite (process_rule_list order base rel _ _ Preserve) by done.
    cbv zeta. fold cur. rewrite Hex, His. cbn [negb]. fold names.
    unfold bind. by rewrite Hl, preserve_only_idle. }
  rewrite Hrun. simpl.
  destruct (list_dir_names t cur Hdir Hdots names Hsimple') as (Hgone & Hkept & Hout).
  split; [done | ]. split; [ | split; [ | done]].
  - intros n Hn Hnot. apply Hgone, Hnames. by split.
  - intros n Hn. apply Hkept. by intros [Hnot _]%Hnames.
Qed.

Lemma whitelist_of_preserves_witness :
  stat (pjoin Sample.assets (lit "ns")) Sample.disk = Some KDir /\
  completed (process_rule Sample.same_order Sample.assets (lit "ns")
               Sample.keep_a Sample.disk) = true.
Proof.
  assert (Hdir : stat (pjoin Sample.assets (lit "ns")) Sample.disk = Some KDir)
    by (vm_compute; reflexivity).
  split; [exact Hdir | ].
  apply (whitelist_of_preserves Sample.same_order Sample.assets
           (lit "ns") [(lit "a", JStr (lit "preserve"))] Sample.disk).
  - intros l. apply Permutation_refl.
  - reflexivity.
  - apply (bool_decide_unpack _). vm_compute. exact I.
  - exact Hdir.
  - intros n Hn.
    change (n ∈ [lit "a"; lit "b"; lit "c"]) in Hn.
    apply elem_of_cons in Hn as [-> | Hn]; [apply simple_name_a | ].
    apply elem_of_cons in Hn as [-> | Hn]; [apply simple_name_b | ].
    apply elem_of_cons in Hn as [-> | Hn]; [apply simple_name_c | ].
    by apply elem_of_nil in Hn.
Defined.

Lemma delete_leaves_loop order base rel decls t :
  Forall (fun m => m.2 = JStr (lit "delete") /\ simple_name m.1) decls ->
  process_rule order base rel (JObj decls) t
  = for_each (fun n => delete_path (pjoin (pjoin base rel) n)) (keys decls) t.
Proof.
  intros Hall. revert t.
  induction Hall as [ | [k v] decls [Hv Hk] _ IH ]; intros t; [done | ].
  simpl in Hv, Hk. subst v.
  change (process_rule order base rel
            (JObj ((k, JStr (lit "delete")) :: decls)) t)
    with (bind (delete_path (pjoin base (child rel k)))
               (fun _ => process_rule order base rel (JObj decls)) t).
  change (keys ((k, JStr (lit "delete")) :: decls)) with (k :: keys decls).
  rewrite for_each_cons, (pjoin_child base rel k Hk),
    (pjoin_simple (pjoin base rel) k Hk).
  unfold bind.
  destruct (delete_path (pjoin base rel ++ [k]) t) as [[] t' l | ]; [ | done].
  f_equal. apply IH.
Qed.

(** X8 — A [["delete", declarations]] rule whose declarations are all
    ["delete"], on a directory reached without [..]: the run completes,
    every declared entry is gone with what was below it, every other entry
    keeps its subtree, and nothing outside the directory changes. *)
Theorem blacklist_of_deletes order base rel decls t :
  let cur := pjoin base rel in
  let r := process_rule order base rel
             (JArr [JStr (lit "delete"); JObj decls]) t in
  Forall (fun m => m.2 = JStr (lit "delete") /\ simple_name m.1) decls ->
  lit ".." ∉ cur -> stat cur t = Some KDir ->
  completed r = true /\
  (forall n, n ∈ keys decls -> stat (cur ++ [n]) (final r) = None) /\
  (forall n, n ∉ keys decls ->
             find (cur ++ [n]) (final r) = find (cur ++ [n]) t) /\
  (forall p, ~ cur `prefix_of` p -> stat p (final r) = stat p t).
Proof.
  intros cur r Hall Hdots Hdir.
  destruct (plain_dir t cur Hdots Hdir) as (Hcur & Hex & His & Hls).
  assert (Hsimple : forall n, n ∈ keys decls -> simple_name n).
  { intros n Hn. unfold keys in Hn. apply list_elem_of_fmap in Hn as (m & -> & Hm).
    rewrite Forall_forall in Hall. by apply Hall. }
  destruct (delete_loop_plain cur (keys decls) t Hdots Hdir Hsimple) as [l Hl].
  assert (Hrun : r = Done tt (without cur (keys decls) t) l).
  { subst r. rewrite (process_rule_list order base rel _ _ Delete) by done.
    cbv zeta. fold cur. rewrite Hex, His. cbn [negb].
    by rewrite delete_leaves_loop. }
  rewrite Hrun. simpl. split; [done | ].
  by apply list_dir_names.
Qed.

Lemma blacklist_of_deletes_witness :
  stat (pjoin Sample.assets (lit "ns")) Sample.disk = Some KDir /\
  completed (process_rule Sample.same_order Sample.assets (lit "ns")
               Sample.drop_a Sample.disk) = true.
Proof.
  assert (Hdir : stat (pjoin Sample.assets (lit "ns")) Sample.disk = Some KDir)
    by (vm_compute; reflexivity).
  split; [exact Hdir | ].
  apply (blacklist_of_deletes Sample.same_order Sample.assets
           (lit "ns") [(lit "a", JStr (lit "delete"))] Sample.disk).
  - constructor; [ | constructor]. split; [reflexivity | apply simple_name_a].
  - apply (bool_decide_unpack _). vm_compute. exact I.
  - exact Hdir.
Defined.

(** ** Where a key leads *)

(** X9 — Below the top level a key is always joined under the current path:
    the path of the entry is the current path followed by the components of
    the key, also for a key that starts with [/]. *)
Theorem nested_key_joined_below base rel name :
  rel <> [] ->
  pjoin base (child rel name) = pjoin base rel ++ parts name.
Proof.
  intros Hrel. destruct rel as [ | c rel]; [done | ].
  unfold child, pjoin.
  change (lit "/" ++ name) with (47%N :: name).
  rewrite parts_app.
  change (is_absolute ((c :: rel) ++ 47%N :: name)) with (is_absolute (c :: rel)).
  destruct (is_absolute (c :: rel)); [done | by rewrite app_assoc].
Qed.

Lemma nested_key_joined_below_witness :
  pjoin Sample.assets (child (lit "ns") (lit "/etc"))
  = [lit "pack"; lit "assets"; lit "ns"; lit "etc"].
Proof.
  rewrite (nested_key_joined_below Sample.assets (lit "ns") (lit "/etc"));
    [reflexivity | discriminate].
Defined.

Lemma for_each_ext {A} (f g : A -> M unit) xs :
  (forall x, x ∈ xs -> forall t, f x t = g x t) ->
  forall t, for_each f xs t = for_each g xs t.
Proof.
  induction xs as [ | x xs IH ]; intros Hfg t; [done | ].
  rewrite !for_each_cons. unfold bind. rewrite (Hfg x) by (by left).
  destruct (g x t) as [[] t' l | ]; [ | done].
  f_equal. apply IH. intros y Hy. apply Hfg. by right.
Qed.

(** X10 — A rule whose relative path starts with [/] is applied at that absolute
    location: the run does not depend on the base directory at all. *)
Theorem absolute_rule_ignores_base order base base' rel rule t :
  is_absolute rel = true ->
  process_rule order base rel rule t = process_rule order base' rel rule t.
Proof.
  revert rel t.
  induction rule as [ | b | z | r | items IH | members IH ] using json_induction;
    intros rel t Habs; try done.
  - simpl. unfold pjoin. by rewrite Habs.
  - assert (Hchild : forall name, is_absolute (child rel name) = true).
    { intros name. by destruct rel. }
    destruct items as [ | mode [ | declarations [ | x items]]]; try done.
    destruct (mode_of mode) as [m | ] eqn:Hm; [ | simpl; by rewrite Hm].
    destruct declarations as [ | | | | | decls]; try (simpl; by rewrite Hm).
    apply Forall_cons_1 in IH as [_ IH]. apply Forall_cons_1 in IH as [IH _].
    rewrite !(process_rule_list order _ rel mode decls m) by done.
    cbv zeta. unfold pjoin. rewrite Habs.
    destruct (negb (exists_ t (parts rel))); [done | ].
    destruct (negb (is_dir t (parts rel))); [done | ].
    destruct m; [ | by apply IH].
    unfold bind.
    destruct (for_each _ _ t) as [[] t' l | ]; [ | done].
    f_equal. by apply IH.
  - assert (Hchild : forall name, is_absolute (child rel name) = true).
    { intros name. by destruct rel. }
    simpl. apply for_each_ext. intros m Hm t'.
    rewrite Forall_forall in IH. by apply IH.
Qed.

Lemma absolute_rule_ignores_base_witness :
  process_rule Sample.same_order Sample.assets (lit "/pack/assets/ns")
               Sample.keep_a Sample.disk
  = process_rule Sample.same_order [lit "tool"] (lit "/pack/assets/ns")
                 Sample.keep_a Sample.disk.
Proof.
  apply (absolute_rule_ignores_base Sample.same_order Sample.assets
           [lit "tool"] (lit "/pack/assets/ns") Sample.keep_a Sample.disk).
  reflexivity.
Defined.

(** ** The patchers in general *)

Lemma write_text_outcome p0 n c t :
  n <> lit ".." ->
  write_text (p0 ++ [n]) c t = Crash t [] \/
  exists q, resolve t p0 = Some q /\ stat q t = Some KDir /\
            stat (q ++ [n]) t <> Some KDir /\
            write_text (p0 ++ [n]) c t
            = Done tt (put q n (File c) t) [Written (q ++ [n]) c].
Proof.
  intros Hn. unfold write_text.
  destruct (p0 ++ [n]) as [ | m p] eqn:Hp; [by left | ]. rewrite <- Hp.
  rewrite removelast_last, last_last. cbv zeta.
  rewrite decide_False by done.
  destruct (resolve t p0) as [q | ]; [ | by left].
  destruct (stat q t) as [[c0 | ] | ] eqn:Hq; try by left.
  destruct (stat (q ++ [n]) t) as [[c1 | ] | ] eqn:Hk; [ | by left | ];
    right; exists q; by rewrite ?Hk.
Qed.

(** A guarded write either fails, is reported and changes nothing, or
    replaces one file. *)
Lemma catch_write_outcome p0 n c m t :
  n <> lit ".." ->
  catch (write_text (p0 ++ [n]) c) (emit (Error m)) t = Done tt t [Error m] \/
  exists q, resolve t p0 = Some q /\ stat q t = Some KDir /\
            stat (q ++ [n]) t <> Some KDir /\
            catch (write_text (p0 ++ [n]) c) (emit (Error m)) t
            = Done tt (put q n (File c) t) [Written (q ++ [n]) c].
Proof.
  intros Hn. unfold catch.
  destruct (write_text_outcome p0 n c t Hn) as [-> | (q & Hq & Hdir & Hk & ->)];
    [by left | right]. by exists q.
Qed.

(** [r] returned, and all it may have changed of [t] is the entry [n] of
    the directory [root]. *)
Definition touches_only (root : list text) (n : text) (t : node)
    (r : res unit) : Prop :=
  completed r = true /\
  forall p, stat p (final r) = stat p t \/
            exists q, resolve t root = Some q /\ p = q ++ [n].

Lemma touches_only_idle root n t l : touches_only root n t (Done tt t l).
Proof. split; [done | ]. intros p. by left. Qed.

Lemma touches_only_write root n c m t :
  n <> lit ".." ->
  touches_only root n t
    (catch (write_text (root ++ [n]) c) (emit (Error m)) t).
Proof.
  intros Hn.
  destruct (catch_write_outcome root n c m t Hn)
    as [-> | (q & Hq & Hdir & Hk & ->)]; [apply touches_only_idle | ].
  split; [done | ]. intros p. simpl. rewrite stat_put by done.
  case_decide; [right; by exists q | by left].
Qed.

Lemma touches_only_dump root n d m t :
  n <> lit ".." ->
  touches_only root n t
    (catch (dump_to (root ++ [n]) d) (emit (Error m)) t).
Proof.
  intros Hn. unfold catch, dump_to.
  assert (Hput : forall q c l,
            stat q t = Some KDir -> stat (q ++ [n]) t <> Some KDir ->
            resolve t root = Some q ->
            touches_only root n t (Done tt (put q n (File c) t) l)).
  { intros q c l Hdir Hk Hq. split; [done | ]. intros p. simpl.
    rewrite stat_put by done.
    case_decide; [right; by exists q | by left]. }
  destruct d as [c | w].
  - destruct (write_text_outcome root n c t Hn)
      as [-> | (q & Hq & Hdir & Hk & ->)];
      [apply touches_only_idle | by apply Hput].
  - unfold bind.
    destruct (write_text_outcome root n w t Hn)
      as [-> | (q & Hq & Hdir & Hk & ->)];
      [apply touches_only_idle | by apply Hput].
Qed.

Lemma modify_pack_mcmeta_cases json_load json_dump pack_root t :
  modify_pack_mcmeta json_load json_dump pack_root t =
  let pack_meta_path := pack_root ++ [lit "pack.mcmeta"] in
  match stat_at t pack_meta_path with
  | None => Done tt t [Warning Mcmeta_missing]
  | Some KDir => Done tt t [Error Mcmeta_failed]
  | Some (KFile source) =>
      match json_load (universal_newlines source) with
      | None => Done tt t [Error Mcmeta_invalid_json]
      | Some pack_data =>
          match patch_pack_data pack_data with
          | Unchanged => Done tt t []
          | Changed pack_data' =>
              catch (dump_to pack_meta_path (json_dump pack_data'))
                    (emit (Error Mcmeta_failed)) t
          | No_description => Done tt t [Warning Mcmeta_no_description]
          | Failed => Done tt t [Error Mcmeta_failed]
          end
      end
  end.
Proof.
  cbv zeta.
  destruct (stat_at t (pack_root ++ [lit "pack.mcmeta"]))
    as [[source | ] | ] eqn:Hfile.
  - destruct (json_load (universal_newlines source)) as [pack_data | ] eqn:Hload.
    + by apply (modify_pack_mcmeta_loaded _ _ _ _ source).
    + unfold modify_pack_mcmeta.
      rewrite (pjoin_simple _ _ simple_name_mcmeta).
      rewrite bind_read, exists_stat_at, Hfile.
      rewrite bool_decide_eq_true_2 by (by eauto). cbn [negb].
      unfold catch, bind. by rewrite (read_text_file _ _ _ Hfile), Hload.
  - unfold modify_pack_mcmeta.
    rewrite (pjoin_simple _ _ simple_name_mcmeta).
    rewrite bind_read, exists_stat_at, Hfile.
    rewrite bool_decide_eq_true_2 by (by eauto). cbn [negb].
    unfold catch, bind, read_text. by rewrite Hfile.
  - unfold modify_pack_mcmeta.
    rewrite (pjoin_simple _ _ simple_name_mcmeta).
    rewrite bind_read, exists_stat_at, Hfile.
    by rewrite bool_decide_eq_false_2 by (by intros [? ?]).
Qed.

(** X11 — [modify_pack_mcmeta] never raises, whatever the file holds and whatever
    the JSON codec does, and the only location it may change is
    [pack.mcmeta] in the pack root: every other location keeps its kind and
    its content. *)
Theorem description_patcher_contained json_load json_dump pack_root t :
  let r := modify_pack_mcmeta json_load json_dump pack_root t in
  completed r = true /\
  forall p, stat p (final r) = stat p t \/
            exists q, resolve t pack_root = Some q /\
                      p = q ++ [lit "pack.mcmeta"].
Proof.
  cbv zeta.
  change (touches_only pack_root (lit "pack.mcmeta") t
            (modify_pack_mcmeta json_load json_dump pack_root t)).
  rewrite modify_pack_mcmeta_cases. cbv zeta.
  destruct (stat_at t _) as [[source | ] | ]; try apply touches_only_idle.
  destruct (json_load _) as [pack_data | ]; [ | apply touches_only_idle].
  destruct (patch_pack_data pack_data); try apply touches_only_idle.
  by apply touches_only_dump.
Qed.

(** X12 — [modify_credits] never raises, and the only location it may change is
    [credits.txt] in the pack root: every other location keeps its kind and
    its content. *)
Theorem credits_patcher_contained pack_root script_root t :
  let r := modify_credits pack_root script_root t in
  completed r = true /\
  forall p, stat p (final r) = stat p t \/
            exists q, resolve t pack_root = Some q /\
                      p = q ++ [lit "credits.txt"].
Proof.
  cbv zeta.
  change (touches_only pack_root (lit "credits.txt") t
            (modify_credits pack_root script_root t)).
  rewrite modify_credits_cases. cbv zeta.
  destruct (stat_at t (script_root ++ _)) as [[template | ] | ];
    try apply touches_only_idle.
  destruct (stat_at t (pack_root ++ _)) as [[raw | ] | ];
    try apply touches_only_idle.
  - destruct (contains _ _); [apply touches_only_idle | ].
    by apply touches_only_write.
  - by apply touches_only_write.
Qed.

(** ** The description, line by line *)

(** X13 — The patched description, line by line: the first line gets the prefix
    unless it starts with it, the second line is the attribution, which
    takes the place of the second line the description had, and the lines
    after it are kept in order. *)
Theorem patch_description_shape desc :
  exists first rest,
    split_on 10 desc = first :: rest /\
    split_on 10 (patch_description desc)
    = prefixed first :: second_line :: tl rest.
Proof. apply patch_description_split. Qed.

(** X14 — The patcher leaves a description as it is exactly when its first line
    starts with the prefix and its second line is the attribution. *)
Theorem patch_description_fixed desc :
  patch_description desc = desc <->
  exists first rest,
    split_on 10 desc = first :: second_line :: rest /\
    is_prefix_of prefix first = true.
Proof.
  split.
  - intros Hfix.
    destruct (patch_description_split desc) as (first & rest & Hsplit & Hnew).
    rewrite Hfix, Hsplit in Hnew. injection Hnew as Hfirst Hrest.
    exists first, (tl rest). split; [by rewrite Hsplit, Hrest at 1 | ].
    unfold prefixed in Hfirst.
    destruct (is_prefix_of prefix first) eqn:Hpre; [done | ].
    rewrite Hfirst in Hpre at 1. by rewrite is_prefix_of_app in Hpre.
  - intros (first & rest & Hsplit & Hpre).
    unfold patch_description. rewrite Hsplit, Hpre, <- Hsplit.
    apply join_split.
Qed.

(** ** What the description patcher reports *)

(** X15 — The failures of [modify_pack_mcmeta]: a missing file and a document
    without [pack] or without [pack.description] give a warning, a file
    that does not parse gives the JSON error, a directory in the place of
    the file and a description that is not a string give the general
    error; each time one event is logged and the tree is left as it is. *)
Theorem description_patcher_reports json_load json_dump pack_root t :
  let pack_meta_path := pjoin pack_root (lit "pack.mcmeta") in
  let r := modify_pack_mcmeta json_load json_dump pack_root t in
  (exists_ t pack_meta_path = false -> r = Done tt t [Warning Mcmeta_missing]) /\
  (is_dir t pack_meta_path = true -> r = Done tt t [Error Mcmeta_failed]) /\
  (forall source,
     stat_at t pack_meta_path = Some (KFile source) ->
     (json_load (universal_newlines source) = None ->
      r = Done tt t [Error Mcmeta_invalid_json]) /\
     (forall members,
        json_load (universal_newlines source) = Some (JObj members) ->
        (lit "pack" ∉ keys members ->
         r = Done tt t [Warning Mcmeta_no_description]) /\
        (forall pack,
           assoc (lit "pack") members = Some (JObj pack) ->
           (lit "description" ∉ keys pack ->
            r = Done tt t [Warning Mcmeta_no_description]) /\
           (forall v,
              assoc (lit "description") pack = Some v ->
              (forall s, v <> JStr s) ->
              r = Done tt t [Error Mcmeta_failed])))).
Proof.
  cbv zeta. rewrite (pjoin_simple _ _ simple_name_mcmeta).
  rewrite modify_pack_mcmeta_cases. cbv zeta.
  unfold exists_, is_dir.
  split; [ | split].
  - destruct (stat_at t _) as [k | ]; [ | done].
    by rewrite bool_decide_eq_true_2 by (by eauto).
  - by destruct (stat_at t _) as [[source | ] | ].
  - intros source ->. split; [by intros -> | ].
    intros members ->. split; [ | intros pack Hpack; split].
    + intros Hno. unfold patch_pack_data. simpl.
      by rewrite bool_decide_eq_false_2.
    + intros Hno. unfold patch_pack_data.
      rewrite (py_in_member _ _ _ Hpack). simpl. rewrite Hpack. simpl.
      by rewrite bool_decide_eq_false_2.
    + intros v Hv Hnot. unfold patch_pack_data.
      rewrite (py_in_member _ _ _ Hpack). simpl. rewrite Hpack.
      rewrite (py_in_member _ _ _ Hv). simpl. rewrite Hv.
      destruct v as [ | b | z | s | items | ms]; try done.
      by destruct (Hnot s).
Qed.

Lemma description_patcher_reports_witness :
  exists_ Sample.disk (pjoin Sample.script_root (lit "pack.mcmeta")) = false /\
  modify_pack_mcmeta Sample.load Sample.dump Sample.script_root Sample.disk
  = Done tt Sample.disk [Warning Mcmeta_missing].
Proof.
  assert (Hno : exists_ Sample.disk
                  (pjoin Sample.script_root (lit "pack.mcmeta")) = false)
    by (vm_compute; reflexivity).
  split; [exact Hno | ].
  exact (proj1 (description_patcher_reports Sample.load Sample.dump
                  Sample.script_root Sample.disk) Hno).
Defined.

(** ** The credits file in general *)

Lemma lstrip_split s : exists a, s = a ++ lstrip s.
Proof.
  induction s as [ | c s [a IH] ]; [by exists [] | ]. simpl.
  destruct (is_space c); [ | by exists []].
  exists (c :: a). simpl. by rewrite <- IH.
Qed.

Lemma rstrip_split s : exists b, s = rstrip s ++ b.
Proof.
  unfold rstrip. destruct (lstrip_split (rev s)) as [a Ha].
  exists (rev a). rewrite <- rev_app_distr, <- Ha. by rewrite rev_involutive.
Qed.

Lemma contains_strip s : contains (strip s) s = true.
Proof.
  destruct (rstrip_split s) as [b Hb].
  destruct (lstrip_split (rstrip s)) as [a Ha].
  rewrite Hb at 2. rewrite Ha. unfold strip. rewrite <- app_assoc.
  apply contains_later, contains_here.
Qed.

(** X16 — With the template in place and a [credits.txt] in the pack: when the
    file already contains the signature it is left alone; otherwise it is
    rewritten as its content without trailing white space, a blank line,
    the signature and a newline, and a second run changes nothing. *)
Theorem credits_patch_appends pack_root script_root template raw t :
  let credits_path := pjoin pack_root (lit "credits.txt") in
  let signature := strip (universal_newlines template) in
  let content := universal_newlines raw in
  let once := modify_credits pack_root script_root t in
  let twice := modify_credits pack_root script_root (final once) in
  stat_at t (pjoin script_root (lit "credits.txt")) = Some (KFile template) ->
  stat_at t credits_path = Some (KFile raw) ->
  (contains signature content = true -> once = Done tt t []) /\
  (contains signature content = false ->
   completed once = true /\
   stat_at (final once) credits_path
   = Some (KFile (rstrip content ++ [10; 10] ++ signature ++ [10])) /\
   twice = Done tt (final once) []).
Proof.
  cbv zeta. rewrite !(pjoin_simple _ _ simple_name_credits).
  intros Htpl Hcr.
  set (signature := strip (universal_newlines template)).
  set (content := universal_newlines raw).
  set (new_content := rstrip content ++ [10; 10] ++ signature ++ [10]).
  assert (Hcases : modify_credits pack_root script_root t
                   = if contains signature content then Done tt t []
                     else catch (write_text (pack_root ++ [lit "credits.txt"])
                                   new_content)
                                (emit (Error Credits_failed)) t).
  { rewrite modify_credits_cases, Htpl. cbv zeta. by rewrite Hcr. }
  rewrite Hcases. split; [by intros -> | ]. intros Hnot. rewrite Hnot.
  destruct (stat_at_snoc_inv t pack_root (lit "credits.txt") _ ltac:(done) Hcr)
    as (q & Hq & Hdir & Hk).
  assert (Hfile : stat (q ++ [lit "credits.txt"]) t <> Some KDir)
    by (by rewrite Hk).
  assert (Hother : stat_at t (script_root ++ [lit "credits.txt"])
                   <> stat (q ++ [lit "credits.txt"]) t).
  { rewrite Htpl, Hk. intros [= ->].
    subst signature content. by rewrite contains_strip in Hnot. }
  destruct (stat_at_written t pack_root (lit "credits.txt") new_content q
              (script_root ++ [lit "credits.txt"]) (KFile template)
              ltac:(done) Hq Hdir Hfile) as [Hnew Hkeep].
  specialize (Hkeep Htpl Hother).
  rewrite (catch_done _ _ _ _ _ _
             (write_text_at pack_root (lit "credits.txt") new_content t q
                ltac:(done) Hq Hdir Hfile)).
  simpl. split; [done | ]. split; [exact Hnew | ].
  rewrite modify_credits_cases, Hkeep. cbv zeta. rewrite Hnew.
  assert (Hcr13 : 13 ∉ new_content).
  { subst new_content.
    intros [Hin | [Hin | [Hin | Hin]%elem_of_app]%elem_of_app]%elem_of_app.
    - apply rstrip_subset in Hin. by apply universal_newlines_no_cr in Hin.
    - apply elem_of_cons in Hin as [? | Hin]; [done | ].
      by apply list_elem_of_singleton in Hin.
    - by apply signature_no_cr in Hin.
    - by apply list_elem_of_singleton in Hin. }
  rewrite (universal_newlines_id _ Hcr13). fold signature.
  replace (contains signature new_content) with true; [done | ].
  symmetry. apply (contains_later signature (rstrip content)).
  apply (contains_later signature [10; 10]), contains_here.
Qed.

Lemma credits_patch_appends_witness :
  stat_at (disk_with_credits (lit "Textures by someone  "))
          (pjoin Sample.pack_root (lit "credits.txt"))
  = Some (KFile (lit "Textures by someone  ")) /\
  stat_at (final (modify_credits Sample.pack_root Sample.script_root
                    (disk_with_credits (lit "Textures by someone  "))))
          (pjoin Sample.pack_root (lit "credits.txt"))
  = Some (KFile (lit "Textures by someone" ++ [10; 10] ++
                 lit "Mini version by TunaFish2K" ++ [10])).
Proof.
  assert (Hcr : stat_at (disk_with_credits (lit "Textures by someone  "))
                        (pjoin Sample.pack_root (lit "credits.txt"))
                = Some (KFile (lit "Textures by someone  ")))
    by (vm_compute; reflexivity).
  split; [exact Hcr | ].
  destruct (credits_patch_appends Sample.pack_root Sample.script_root
              Sample.template (lit "Textures by someone  ")
              (disk_with_credits (lit "Textures by someone  ")))
    as [_ Hnew].
  - vm_compute. reflexivity.
  - exact Hcr.
  - destruct Hnew as (_ & Hnew & _); [vm_compute; reflexivity | ].
    exact Hnew.
Defined.

(** ** Locating the pack *)

Lemma find_pack_mcmeta_outcome target_dir t :
  find_pack_mcmeta target_dir t =
  match resolve t target_dir with
  | None => Done None t [Error (Target_directory_missing target_dir)]
  | Some _ =>
      if exists_ t (target_dir ++ [lit "pack.mcmeta"])
      then Done (Some target_dir) t []
      else match rglob_first t target_dir (lit "pack.mcmeta") with
           | Some d => Done (Some (target_dir ++ d)) t []
           | None => Done None t []
           end
  end.
Proof.
  unfold find_pack_mcmeta. rewrite bind_read.
  destruct (exists_ t target_dir) eqn:Hex; cbn [negb].
  - apply exists_resolve in Hex as [q Hq]. rewrite Hq.
    rewrite bind_read, (pjoin_simple _ _ simple_name_mcmeta).
    destruct (exists_ t (target_dir ++ [lit "pack.mcmeta"])); [done | ].
    rewrite bind_read. by destruct (rglob_first t target_dir _).
  - apply not_exists_resolve in Hex. by rewrite Hex.
Qed.

(** X17 — [find_pack_mcmeta] never raises and never changes the tree.  It logs
    nothing but the error for a missing target directory.  It finds a root
    exactly when [pack.mcmeta] occurs in the subtree of the target
    directory; the target directory itself is preferred when it holds the
    file; and a root it returns is the target directory followed by the
    path of a directory of its subtree that holds [pack.mcmeta]. *)
Theorem pack_root_found target_dir t :
  exists found l,
    find_pack_mcmeta target_dir t = Done found t l /\
    Forall (fun e => is_error e = true) l /\
    (is_Some found <-> has_marker t target_dir) /\
    (exists_ t (pjoin target_dir (lit "pack.mcmeta")) = true ->
     found = Some target_dir) /\
    (forall root, found = Some root ->
       exists q d, resolve t target_dir = Some q /\ root = target_dir ++ d /\
                   is_Some (stat (q ++ d ++ [lit "pack.mcmeta"]) t)).
Proof.
  destruct (find_pack_mcmeta_cases target_dir t) as (found & l & Hrun & Hmark).
  exists found, l. split; [done | ].
  rewrite find_pack_mcmeta_outcome in Hrun.
  rewrite (pjoin_simple _ _ simple_name_mcmeta).
  split; [ | split; [ | split]].
  - destruct (resolve t target_dir); [ | injection Hrun as <- <-; by repeat constructor].
    destruct (exists_ t _); [by injection Hrun as <- <- | ].
    destruct (rglob_first t target_dir _); by injection Hrun as <- <-.
  - destruct found as [root | ]; split.
    + by intros _.
    + intros _. by exists root.
    + by intros [? ?].
    + intros Hyes. by destruct Hmark.
  - intros Hhere. rewrite Hhere in Hrun.
    destruct (resolve t target_dir) as [q | ] eqn:Hq; [by injection Hrun | ].
    apply bool_decide_eq_true in Hhere as [k Hk].
    apply stat_at_snoc_inv in Hk as (q' & Hq' & _); [congruence | done].
  - intros root ->.
    destruct (resolve t target_dir) as [q | ] eqn:Hq; [ | done].
    destruct (exists_ t (target_dir ++ [lit "pack.mcmeta"])) eqn:Hhere.
    + injection Hrun as <- _. exists q, []. split; [done | ].
      split; [by rewrite app_nil_r | ].
      apply bool_decide_eq_true in Hhere as [k Hk].
      apply stat_at_snoc_inv in Hk as (q' & Hq' & _ & Hk); [ | done].
      assert (q' = q) as -> by congruence. by exists k.
    + destruct (rglob_first t target_dir (lit "pack.mcmeta")) as [d | ] eqn:Hd;
        [ | done].
      injection Hrun as <- _. exists q, d. split; [done | ]. split; [done | ].
      unfold rglob_first in Hd. rewrite Hq in Hd.
      destruct (find q t) as [x | ]; [ | done].
      apply find_some in Hd as [_ Hd]. by apply bool_decide_eq_true in Hd.
Qed.

(** ** A fatal exit of [main] *)

Lemma find_pack_mcmeta_quiet target_dir t :
  exists found l,
    find_pack_mcmeta target_dir t = Done found t l /\
    Forall (fun e => is_error e = true) l.
Proof.
  rewrite find_pack_mcmeta_outcome.
  destruct (resolve t target_dir); [ | by repeat econstructor].
  destruct (exists_ t _); [by repeat econstructor | ].
  destruct (rglob_first t target_dir _); by repeat econstructor.
Qed.

(** X18 — When [main] returns 1 it has changed nothing on disk and has logged
    nothing but errors: every fatal check comes before the first
    modification. *)
Theorem main_fatal_before_changes json_load json_dump order copy_overrides
    script_root pack_dir type t :
  let r := main json_load json_dump order copy_overrides
             script_root pack_dir type t in
  returned r = Some 1%Z ->
  final r = t /\ Forall (fun e => is_error e = true) (events r).
Proof.
  cbv zeta. unfold main.
  set (script_dir := match type with
                     | Legacy_pack => pjoin script_root (lit "legacy")
                     | Modern_pack => pjoin script_root (lit "modern")
                     end).
  set (ok := fun r : res Z =>
               returned r = Some 1%Z ->
               final r = t /\ Forall (fun e => is_error e = true) (events r)).
  match goal with |- returned ?r = _ -> _ => change (ok r) end.
  assert (Hfatal : forall l m,
            Forall (fun e => is_error e = true) l ->
            ok (after l ((emit (Error m) ;; ret 1%Z)%eff t))).
  { intros l m Hl _. rewrite final_after, events_after. split; [done | ].
    apply Forall_app. split; [done | by repeat constructor]. }
  rewrite bind_read.
  destruct (exists_ t (pjoin script_dir (lit "delete.json"))); cbn [negb];
    [ | by apply (Hfatal [])].
  unfold bind at 1.
  destruct (read_text (pjoin script_dir (lit "delete.json")) t)
    as [source t0 l0 | ] eqn:Hread; [ | done].
  assert (t0 = t /\ l0 = []) as [-> ->].
  { unfold read_text in Hread.
    destruct (stat_at t _) as [[c | ] | ]; try done. by injection Hread. }
  rewrite after_nil.
  destruct (json_load source) as [config | ]; [ | done].
  unfold bind at 1.
  destruct (find_pack_mcmeta_quiet pack_dir t) as (found & l & -> & Hl).
  destruct found as [pack_root | ]; [ | by apply Hfatal].
  rewrite bind_read.
  destruct (exists_ t (pjoin pack_root (lit "assets"))); cbn [negb];
    [ | by apply Hfatal].
  destruct (py_in (lit "assets") config) as [[ | ] | ];
    [ | by apply Hfatal | by destruct l].
  destruct (py_getitem config (lit "assets")) as [[ | | | | | rules] | ];
    try (by destruct l).
  unfold ok. rewrite returned_after. intros Hone. exfalso.
  assert (Hzero : yields 0%Z
            (for_each (fun m => process_rule order (pjoin pack_root (lit "assets"))
                                  m.1 m.2) rules ;;
             copy_overrides script_dir pack_root ;;
             modify_pack_mcmeta json_load json_dump pack_root ;;
             modify_credits pack_root script_root ;;
             emit (Print P_complete) ;;
             ret 0%Z)%eff).
  { repeat (apply yields_bind; intros ?). apply yields_ret. }
  by apply Hzero in Hone.
Qed.

Lemma main_fatal_before_changes_witness :
  returned (main Sample.load Sample.dump Sample.same_order Sample.no_overrides
              Sample.script_root [lit "nowhere"] Legacy_pack Sample.disk)
  = Some 1%Z /\
  final (main Sample.load Sample.dump Sample.same_order Sample.no_overrides
           Sample.script_root [lit "nowhere"] Legacy_pack Sample.disk)
  = Sample.disk.
Proof.
  assert (Hone : returned (main Sample.load Sample.dump Sample.same_order
                             Sample.no_overrides Sample.script_root
                             [lit "nowhere"] Legacy_pack Sample.disk)
                 = Some 1%Z) by (vm_compute; reflexivity).
  split; [exact Hone | ].
  exact (proj1 (main_fatal_before_changes Sample.load Sample.dump
                  Sample.same_order Sample.no_overrides Sample.script_root
                  [lit "nowhere"] Legacy_pack Sample.disk Hone)).
Defined.

(** * The legacy script *)

Lemma idle_only_prints (m : M unit) :
  idle m -> (forall t, completed (m t) = true) -> only_prints m.
Proof.
  intros Hm Hc t. destruct (Hm t) as [Hf He]. specialize (Hc t).
  destruct (m t) as [[] t' l | ]; [ | done]. simpl in *. subst t'. by exists l.
Qed.

Lemma only_prints_idle (m : M unit) : only_prints m -> idle m.
Proof. intros Hm t. by destruct (Hm t) as (l & -> & Hl). Qed.

Lemma completed_catch_emit (body : M unit) e t :
  completed (catch body (emit e) t) = true.
Proof. unfold catch. by destruct (body t). Qed.


Lemma dry_run_patchers_quiet json_load json_dump pack_root :
  only_prints (LegacyScript.modify_pack_mcmeta json_load json_dump
                 pack_root true) /\
  only_prints (LegacyScript.modify_credits pack_root true).
Proof.
  split.
  - unfold LegacyScript.modify_pack_mcmeta.
    apply only_prints_read. intros e.
    destruct e; cbn [negb]; [ | apply only_prints_emit].
    apply only_prints_seq; [apply only_prints_emit | ].
    apply idle_only_prints; [ | intros t; apply completed_catch_emit].
    apply idle_catch; [ | apply idle_emit].
    apply idle_bind; [apply idle_read_text | ]. intros source.
    destruct (json_load source) as [pack_data | ]; [ | apply idle_emit].
    destruct (LegacyScript.description_of pack_data) as [d pm ms | | ];
      [ | apply idle_emit | apply idle_raise].
    destruct (is_prefix_of prefix d); cbn [negb]; [apply idle_emit | ].
    repeat (apply idle_bind; [apply idle_say | intros _]). apply idle_emit.
  - unfold LegacyScript.modify_credits.
    apply only_prints_seq; [apply only_prints_emit | ].
    apply idle_only_prints; [ | intros t; apply completed_catch_emit].
    apply idle_catch; [ | apply idle_emit].
    apply idle_bind; [apply idle_read | ]. intros e. destruct e.
    + apply idle_bind; [apply idle_read_text | ]. intros content.
      destruct (contains _ content); [apply idle_emit | ].
      apply idle_bind; [apply idle_emit | intros _]. apply idle_emit.
    + apply idle_bind; [apply idle_emit | intros _]. apply idle_emit.
Qed.

(** X19 — In a dry run neither patcher of the legacy script raises or changes
    anything on disk, whatever the files hold: all they do is print. *)
Theorem dry_run_patchers_change_nothing json_load json_dump pack_root t :
  (exists l,
     LegacyScript.modify_pack_mcmeta json_load json_dump pack_root true t
     = Done tt t l /\ Forall (fun e => is_print e = true) l) /\
  (exists l,
     LegacyScript.modify_credits pack_root true t = Done tt t l /\
     Forall (fun e => is_print e = true) l).
Proof.
  destruct (dry_run_patchers_quiet json_load json_dump pack_root) as [Hd Hc].
  split; [apply Hd | apply Hc].
Qed.

Lemma idle_legacy_find_pack_mcmeta target_dir :
  idle (LegacyScript.find_pack_mcmeta target_dir).
Proof.
  unfold LegacyScript.find_pack_mcmeta.
  apply idle_bind; [apply idle_read | ]. intros e. destruct e; cbn [negb].
  - apply idle_bind; [apply idle_read | ]. intros e.
    destruct e; [apply idle_ret | ].
    apply idle_bind; [apply idle_read | ]. intros [d | ]; apply idle_ret.
  - apply idle_bind; [apply idle_say | intros _; apply idle_ret].
Qed.

(** A computation that leaves the tree as it is, whether it returns or
    raises. *)
Definition keeps {A} (m : M A) : Prop := forall t, final (m t) = t.

Lemma idle_keeps {A} (m : M A) : idle m -> keeps m.
Proof. intros Hm t. apply Hm. Qed.

Lemma keeps_bind {A B} (m : M A) (k : A -> M B) :
  keeps m -> (forall a, keeps (k a)) -> keeps (bind m k).
Proof.
  intros Hm Hk t. specialize (Hm t). unfold bind.
  destruct (m t) as [a t' l | t' l]; simpl in Hm; subst t'; [ | done].
  rewrite final_after. apply Hk.
Qed.

Lemma keeps_for_each {A} (f : A -> M unit) xs :
  (forall x, keeps (f x)) -> keeps (for_each f xs).
Proof.
  intros Hf. induction xs as [ | x xs IH ]; [done | ].
  rewrite for_each_cons. apply keeps_bind; [apply Hf | by intros _].
Qed.

Lemma keeps_dry_process_rule order base rel rule :
  keeps (Legacy.process_rule order base rel rule true).
Proof. apply idle_keeps, idle_dry_process_rule. Qed.

(** X20 — With [--dry-run], and an overlay copier that changes nothing in a dry
    run, the legacy [main] leaves the disk exactly as it is, whether it
    returns 0, returns 1 or raises. *)
Theorem dry_run_main_changes_nothing json_load json_dump order copy_overrides
    script_dir pack_dir t :
  (forall d r s, final (copy_overrides d r true s) = s) ->
  final (LegacyScript.main json_load json_dump order copy_overrides
           script_dir pack_dir true t) = t.
Proof.
  intros Hcopy. revert t.
  change (keeps (LegacyScript.main json_load json_dump order copy_overrides
                   script_dir pack_dir true)).
  assert (Hsay : forall shown m, keeps (say shown m))
    by (intros shown m; apply idle_keeps, idle_say).
  assert (Hstop : forall shown m, keeps (say shown m ;; ret 1%Z)%eff)
    by (intros shown m; by apply keeps_bind).
  unfold LegacyScript.main.
  apply keeps_bind; [done | ]. intros e. destruct e; cbn [negb];
    [ | apply Hstop].
  apply keeps_bind; [apply Hsay | intros _].
  apply keeps_bind; [apply idle_keeps, idle_read_text | ]. intros source.
  destruct (json_load source) as [config | ]; [ | done].
  apply keeps_bind; [apply Hsay | intros _].
  apply keeps_bind; [apply idle_keeps, idle_legacy_find_pack_mcmeta | ].
  intros [pack_root | ]; [ | by apply keeps_bind].
  apply keeps_bind; [apply Hsay | intros _].
  apply keeps_bind; [done | ]. intros e. destruct e; cbn [negb];
    [ | apply Hstop].
  apply keeps_bind; [apply Hsay | intros _].
  apply keeps_bind; [done | intros _].
  destruct (py_in (lit "assets") config) as [[ | ] | ];
    [ | by apply keeps_bind | done].
  destruct (py_getitem config (lit "assets")) as [[ | | | | | rules] | ];
    try done.
  apply keeps_bind; [ | intros _].
  { apply keeps_for_each. intros m. apply keeps_dry_process_rule. }
  apply keeps_bind; [done | intros _].
  apply keeps_bind; [exact (Hcopy _ _) | intros _].
  destruct (dry_run_patchers_quiet json_load json_dump pack_root) as [Hd Hc].
  apply keeps_bind; [apply idle_keeps, only_prints_idle, Hd | intros _].
  apply keeps_bind; [apply idle_keeps, only_prints_idle, Hc | intros _].
  by apply keeps_bind.
Qed.

Lemma dry_run_main_changes_nothing_witness :
  final (LegacyScript.main Sample.load Sample.dump Sample.same_order
           (fun _ _ _ => ret tt) [lit "tool"; lit "legacy"] Sample.pack_root
           true Sample.disk)
  = Sample.disk.
Proof.
  apply (dry_run_main_changes_nothing Sample.load Sample.dump Sample.same_order
           (fun _ _ _ => ret tt) [lit "tool"; lit "legacy"] Sample.pack_root
           Sample.disk).
  intros d r s. reflexivity.
Defined.

(** [m], when it returns 1, has left the tree as it was and has only
    printed. *)
Definition fatal_is_harmless (m : M Z) : Prop :=
  forall t, returned (m t) = Some 1%Z ->
            final (m t) = t /\
            Forall (fun e => is_print e = true) (events (m t)).

Lemma fatal_bind {A} (m : M A) (k : A -> M Z) :
  idle m -> (forall a, fatal_is_harmless (k a)) ->
  fatal_is_harmless (bind m k).
Proof.
  intros Hm Hk t. destruct (Hm t) as [Hf He]. unfold bind.
  destruct (m t) as [a t' l | t' l]; simpl in Hf, He; subst t'; [ | done].
  rewrite returned_after, final_after, events_after. intros Hone.
  destruct (Hk a t Hone) as [Hf' He']. split; [done | by apply Forall_app].
Qed.

Lemma fatal_ret z : fatal_is_harmless (ret z).
Proof. by intros t _. Qed.

Lemma fatal_yields_0 (m : M Z) : yields 0%Z m -> fatal_is_harmless m.
Proof. intros Hm t Hone. by apply Hm in Hone. Qed.

(** X21 — When the legacy [main] returns 1, in a dry run or not, it has changed
    nothing on disk and has only printed: every fatal check comes before
    the first modification. *)
Theorem legacy_main_fatal_before_changes json_load json_dump order
    copy_overrides script_dir pack_dir dry_run t :
  let r := LegacyScript.main json_load json_dump order copy_overrides
             script_dir pack_dir dry_run t in
  returned r = Some 1%Z ->
  final r = t /\ Forall (fun e => is_print e = true) (events r).
Proof.
  cbv zeta. revert t.
  change (fatal_is_harmless
            (LegacyScript.main json_load json_dump order copy_overrides
               script_dir pack_dir dry_run)).
  assert (Hstop : forall m, fatal_is_harmless (emit (Print m) ;; ret 1%Z)%eff).
  { intros m. apply fatal_bind; [apply idle_emit | intros _; apply fatal_ret]. }
  assert (Hquit : forall shown m,
            fatal_is_harmless (say shown m ;; ret 1%Z)%eff).
  { intros shown m.
    apply fatal_bind; [apply idle_say | intros _; apply fatal_ret]. }
  unfold LegacyScript.main.
  apply fatal_bind; [apply idle_read | ]. intros e.
  destruct e; cbn [negb]; [ | apply Hquit].
  apply fatal_bind; [apply idle_say | intros _].
  apply fatal_bind; [apply idle_read_text | ]. intros source.
  destruct (json_load source) as [config | ]; [ | done].
  apply fatal_bind; [apply idle_say | intros _].
  apply fatal_bind; [apply idle_legacy_find_pack_mcmeta | ].
  intros [pack_root | ]; [ | apply Hstop].
  apply fatal_bind; [apply idle_say | intros _].
  apply fatal_bind; [apply idle_read | ]. intros e.
  destruct e; cbn [negb]; [ | apply Hquit].
  apply fatal_bind; [apply idle_say | intros _].
  apply fatal_bind; [apply idle_emit | intros _].
  destruct (py_in (lit "assets") config) as [[ | ] | ];
    [ | apply Hstop | done].
  destruct (py_getitem config (lit "assets")) as [[ | | | | | rules] | ];
    try done.
  apply fatal_yields_0.
  repeat (apply yields_bind; intros ?). apply yields_ret.
Qed.

Lemma legacy_main_fatal_before_changes_witness :
  returned (LegacyScript.main Sample.load Sample.dump Sample.same_order
              (fun _ _ _ => ret tt) [lit "tool"; lit "legacy"]
              [lit "nowhere"] false Sample.disk)
  = Some 1%Z /\
  final (LegacyScript.main Sample.load Sample.dump Sample.same_order
           (fun _ _ _ => ret tt) [lit "tool"; lit "legacy"]
           [lit "nowhere"] false Sample.disk)
  = Sample.disk.
Proof.
  assert (Hone : returned (LegacyScript.main Sample.load Sample.dump
                             Sample.same_order (fun _ _ _ => ret tt)
                             [lit "tool"; lit "legacy"] [lit "nowhere"] false
                             Sample.disk)
                 = Some 1%Z) by (vm_compute; reflexivity).
  split; [exact Hone | ].
  exact (proj1 (legacy_main_fatal_before_changes Sample.load Sample.dump
                  Sample.same_order (fun _ _ _ => ret tt)
                  [lit "tool"; lit "legacy"] [lit "nowhere"] false
                  Sample.disk Hone)).
Defined.

(** ** The legacy patchers *)

Lemma legacy_signature_no_cr : 13 ∉ LegacyScript.signature.
Proof. by apply (bool_decide_unpack _). Qed.

Lemma legacy_modify_credits_cases pack_root t :
  LegacyScript.modify_credits pack_root false t =
  let credits_path := pack_root ++ [lit "credits.txt"] in
  after [Print P_credits_start]
    match stat_at t credits_path with
    | Some (KFile raw) =>
        let content := universal_newlines raw in
        if contains LegacyScript.signature content
        then Done tt t [Print P_credits_signed]
        else
          after [Print (P_credits_append LegacyScript.signature)]
            (catch (write_text credits_path
                      (rstrip content ++ [10] ++ LegacyScript.signature ++ [10]) ;;
                    emit (Print P_credits_modified))%eff
                   (emit (Print P_credits_failed)) t)
    | Some KDir => Done tt t [Print P_credits_failed]
    | None =>
        after [Print P_credits_absent]
          (catch (write_text credits_path (LegacyScript.signature ++ [10]) ;;
                  emit (Print P_credits_created))%eff
                 (emit (Print P_credits_failed)) t)
    end.
Proof.
  unfold LegacyScript.modify_credits.
  rewrite !(pjoin_simple _ _ simple_name_credits). cbv zeta.
  rewrite bind_emit. f_equal. unfold catch at 1.
  rewrite bind_read, exists_stat_at.
  destruct (stat_at t (pack_root ++ [lit "credits.txt"]))
    as [[raw | ] | ] eqn:Hcr.
  - rewrite bool_decide_eq_true_2 by (by eauto).
    unfold bind at 1. rewrite (read_text_file _ _ _ Hcr), after_nil.
    destruct (contains _ _); [done | ]. cbn [negb].
    rewrite bind_emit. unfold catch.
    by destruct ((_ ;; _)%eff t).
  - rewrite bool_decide_eq_true_2 by (by eauto).
    unfold bind, read_text. by rewrite Hcr.
  - rewrite bool_decide_eq_false_2 by (by intros [? ?]). cbn [negb].
    rewrite bind_emit. unfold catch.
    by destruct ((_ ;; _)%eff t).
Qed.

Lemma legacy_credits_written pack_root t q c said :
  let credits_path := pack_root ++ [lit "credits.txt"] in
  let t' := put q (lit "credits.txt") (File c) t in
  resolve t pack_root = Some q -> stat q t = Some KDir ->
  stat (q ++ [lit "credits.txt"]) t <> Some KDir ->
  13 ∉ c -> contains LegacyScript.signature c = true ->
  catch (write_text credits_path c ;; emit (Print said))%eff
        (emit (Print P_credits_failed)) t
  = Done tt t' [Written (q ++ [lit "credits.txt"]) c; Print said] /\
  stat_at t' credits_path = Some (KFile c) /\
  LegacyScript.modify_credits pack_root false t'
  = Done tt t' [Print P_credits_start; Print P_credits_signed].
Proof.
  intros credits_path t' Hq Hdir Hfile Hcr Hsig.
  destruct (stat_at_written t pack_root (lit "credits.txt") c q [] KDir
              ltac:(done) Hq Hdir Hfile) as [Hnew _].
  fold t' credits_path in Hnew.
  split; [ | split; [exact Hnew | ]].
  - unfold catch, bind, credits_path.
    by rewrite (write_text_at pack_root (lit "credits.txt") c t q).
  - rewrite legacy_modify_credits_cases. cbv zeta.
    fold credits_path. rewrite Hnew.
    by rewrite (universal_newlines_id _ Hcr), Hsig.
Qed.

(** X22 — The legacy credits patcher, not in a dry run, on a pack root that is a
    directory: a missing [credits.txt] is created with the signature and a
    newline; an existing one that contains the signature is left alone; any
    other is rewritten as its content without trailing white space, a
    newline, the signature and a newline.  After a write, a second run
    finds the signature and changes nothing. *)
Theorem legacy_credits_patch pack_root t :
  let credits_path := pjoin pack_root (lit "credits.txt") in
  let once := LegacyScript.modify_credits pack_root false t in
  let twice := LegacyScript.modify_credits pack_root false (final once) in
  let skipped s := Done tt s [Print P_credits_start; Print P_credits_signed] in
  stat_at t pack_root = Some KDir ->
  (stat_at t credits_path = None ->
   stat_at (final once) credits_path
   = Some (KFile (LegacyScript.signature ++ [10])) /\
   twice = skipped (final once)) /\
  (forall raw,
     stat_at t credits_path = Some (KFile raw) ->
     let content := universal_newlines raw in
     (contains LegacyScript.signature content = true -> once = skipped t) /\
     (contains LegacyScript.signature content = false ->
      stat_at (final once) credits_path
      = Some (KFile (rstrip content ++ [10] ++ LegacyScript.signature ++ [10])) /\
      twice = skipped (final once))).
Proof.
  cbv zeta. rewrite !(pjoin_simple _ _ simple_name_credits). intros Hroot.
  destruct (stat_at_dir _ _ Hroot) as (q & Hq & Hdir).
  pose proof (stat_at_snoc t pack_root (lit "credits.txt") q
                ltac:(done) Hq Hdir) as Hcr.
  rewrite legacy_modify_credits_cases. cbv zeta. split.
  - intros Hnone. rewrite Hnone.
    destruct (legacy_credits_written pack_root t q
                (LegacyScript.signature ++ [10]) P_credits_created Hq Hdir)
      as (-> & Hnew & Hagain).
    + rewrite <- Hcr, Hnone. done.
    + by apply (bool_decide_unpack _).
    + apply contains_here.
    + done.
  - intros raw Hfile. rewrite Hfile. split; [by intros -> | ].
    intros Hnot. rewrite Hnot.
    destruct (legacy_credits_written pack_root t q
                (rstrip (universal_newlines raw) ++ [10] ++
                 LegacyScript.signature ++ [10]) P_credits_modified Hq Hdir)
      as (-> & Hnew & Hagain).
    + rewrite <- Hcr, Hfile. done.
    + intros [Hin | [Hin | [Hin | Hin]%elem_of_app]%elem_of_app]%elem_of_app.
      * apply rstrip_subset in Hin. by apply universal_newlines_no_cr in Hin.
      * by apply list_elem_of_singleton in Hin.
      * by apply legacy_signature_no_cr in Hin.
      * by apply list_elem_of_singleton in Hin.
    + apply (contains_later _ (rstrip (universal_newlines raw))).
      apply (contains_later _ [10]), contains_here.
    + done.
Qed.

Lemma legacy_credits_patch_witness :
  stat_at Sample.disk Sample.pack_root = Some KDir /\
  stat_at (final (LegacyScript.modify_credits Sample.pack_root false
                    Sample.disk))
          (pjoin Sample.pack_root (lit "credits.txt"))
  = Some (KFile (LegacyScript.signature ++ [10])).
Proof.
  assert (Hroot : stat_at Sample.disk Sample.pack_root = Some KDir)
    by (vm_compute; reflexivity).
  split; [exact Hroot | ].
  destruct (legacy_credits_patch Sample.pack_root Sample.disk Hroot)
    as [Hfresh _].
  destruct Hfresh as [Hnew _]; [vm_compute; reflexivity | exact Hnew].
Defined.

Lemma legacy_description_found members pack desc :
  assoc (lit "pack") members = Some (JObj pack) ->
  assoc (lit "description") pack = Some (JStr desc) ->
  LegacyScript.description_of (JObj members)
  = LegacyScript.Description desc pack members.
Proof.
  intros Hpack Hdesc. unfold LegacyScript.description_of.
  rewrite (py_in_member _ _ _ Hpack). simpl. rewrite Hpack.
  rewrite (py_in_member _ _ _ Hdesc). simpl. by rewrite Hdesc.
Qed.

Lemma legacy_modify_pack_mcmeta_loaded json_load json_dump pack_root dry_run
    t source pack_data :
  let pack_meta_path := pack_root ++ [lit "pack.mcmeta"] in
  stat_at t pack_meta_path = Some (KFile source) ->
  json_load (universal_newlines source) = Some pack_data ->
  LegacyScript.modify_pack_mcmeta json_load json_dump pack_root dry_run t =
  after [Print P_mcmeta_start]
    match LegacyScript.description_of pack_data with
    | LegacyScript.Description original_desc pack_members members =>
        if is_prefix_of prefix original_desc
        then Done tt t [Print P_description_prefixed]
        else if printable original_desc then
          let new_desc := prefix ++ original_desc in
          after [Print (P_old_description original_desc);
                 Print (P_new_description new_desc)]
            (if dry_run then Done tt t [Print P_mcmeta_would_modify]
             else
               catch
                 (dump_to pack_meta_path
                    (json_dump
                       (JObj (set_member (lit "pack")
                                (JObj (set_member (lit "description")
                                         (JStr new_desc) pack_members))
                                members))) ;;
                  emit (Print P_mcmeta_modified))%eff
                 (emit (Print P_mcmeta_failed)) t)
        else Done tt t [Print P_mcmeta_failed]
    | LegacyScript.No_description => Done tt t [Print P_mcmeta_no_description]
    | LegacyScript.Failed => Done tt t [Print P_mcmeta_failed]
    end.
Proof.
  intros pack_meta_path Hfile Hload. unfold LegacyScript.modify_pack_mcmeta.
  rewrite (pjoin_simple _ _ simple_name_mcmeta). fold pack_meta_path.
  rewrite bind_read, exists_stat_at, Hfile.
  rewrite bool_decide_eq_true_2 by (by eauto). cbn [negb].
  rewrite bind_emit. f_equal.
  unfold catch at 1. unfold bind at 1.
  rewrite (read_text_file _ _ _ Hfile), Hload, after_nil.
  destruct (LegacyScript.description_of pack_data) as [d pm ms | | ];
    try done.
  destruct (is_prefix_of prefix d); cbn [negb]; [done | ]. cbv zeta.
  destruct (printable d) eqn:Hd.
  - assert (Hnew : forallb printable [prefix ++ d] = true).
    { cbn [forallb]. rewrite printable_app, Hd. reflexivity. }
    rewrite (say_printable [d]) by (cbn [forallb]; by rewrite Hd).
    rewrite (say_printable _ _ Hnew), !bind_emit.
    destruct dry_run; cbn [negb]; [done | ].
    unfold catch. by destruct ((_ ;; _)%eff t) as [[] t' l' | t' l'].
  - unfold bind, say. simpl. by rewrite Hd.
Qed.

Lemma legacy_catch_dump_at p0 n d said t q :
  n <> lit ".." -> resolve t p0 = Some q ->
  stat q t = Some KDir -> stat (q ++ [n]) t <> Some KDir ->
  catch (dump_to (p0 ++ [n]) d ;; emit (Print said))%eff
        (emit (Print P_mcmeta_failed)) t =
  match d with
  | Dumped c =>
      Done tt (put q n (File c) t) [Written (q ++ [n]) c; Print said]
  | Dump_failed w =>
      Done tt (put q n (File w) t)
           [Written (q ++ [n]) w; Print P_mcmeta_failed]
  end.
Proof.
  intros Hn Hq Hdir Hfile. unfold catch, dump_to, bind. destruct d as [c | w].
  - by rewrite (write_text_at p0 n c t q).
  - by rewrite (write_text_at p0 n w t q).
Qed.

(** X23 — The legacy description patcher on a [pack.mcmeta] whose
    [pack.description] is a string.  A description that starts with the
    prefix is left alone, in a dry run or not.  A description without the
    prefix that cannot be printed makes the patcher report an error and
    write nothing.  Any other description gets the prefix put in front of
    it as a whole (no attribution line is added) and, not in a dry run, the
    file is rewritten: with the changed document when the dump succeeds
    (and then, when the codec reads back what it wrote, a second run finds
    the prefix and changes nothing), with what the dump wrote before it
    raised otherwise. *)
Theorem legacy_description_patch json_load json_dump pack_root t source
    members pack desc :
  let pack_meta_path := pjoin pack_root (lit "pack.mcmeta") in
  let patched_data :=
    JObj (set_member (lit "pack")
            (JObj (set_member (lit "description")
                     (JStr (prefix ++ desc)) pack))
            members) in
  let run := LegacyScript.modify_pack_mcmeta json_load json_dump pack_root in
  let skipped s :=
    Done tt s [Print P_mcmeta_start; Print P_description_prefixed] in
  stat_at t pack_meta_path = Some (KFile source) ->
  json_load (universal_newlines source) = Some (JObj members) ->
  assoc (lit "pack") members = Some (JObj pack) ->
  assoc (lit "description") pack = Some (JStr desc) ->
  (is_prefix_of prefix desc = true ->
   forall dry_run, run dry_run t = skipped t) /\
  (is_prefix_of prefix desc = false -> printable desc = false ->
   forall dry_run,
     run dry_run t = Done tt t [Print P_mcmeta_start; Print P_mcmeta_failed]) /\
  (is_prefix_of prefix desc = false -> printable desc = true ->
   completed (run false t) = true /\
   match json_dump patched_data with
   | Dumped content =>
       stat_at (final (run false t)) pack_meta_path = Some (KFile content) /\
       (json_load (universal_newlines content) = Some patched_data ->
        run false (final (run false t)) = skipped (final (run false t)))
   | Dump_failed written =>
       stat_at (final (run false t)) pack_meta_path = Some (KFile written) /\
       exists q,
         events (run false t)
         = [Print P_mcmeta_start;
            Print (P_old_description desc);
            Print (P_new_description (prefix ++ desc));
            Written q written; Print P_mcmeta_failed]
   end).
Proof.
  cbv zeta. rewrite (pjoin_simple _ _ simple_name_mcmeta).
  intros Hfile Hload Hpack Hdesc.
  pose proof (legacy_description_found _ _ _ Hpack Hdesc) as Hfound.
  split; [ | split].
  - intros Hpre dry_run.
    rewrite (legacy_modify_pack_mcmeta_loaded _ _ _ _ _ source (JObj members))
      by done.
    by rewrite Hfound, Hpre.
  - intros Hpre Hbad dry_run.
    rewrite (legacy_modify_pack_mcmeta_loaded _ _ _ _ _ source (JObj members))
      by done.
    by rewrite Hfound, Hpre, Hbad.
  - intros Hpre Hgood.
    rewrite (legacy_modify_pack_mcmeta_loaded _ _ _ _ _ source (JObj members))
      by done.
    rewrite Hfound, Hpre, Hgood. cbv zeta.
    destruct (stat_at_snoc_inv t pack_root (lit "pack.mcmeta") _
                ltac:(done) Hfile) as (q & Hq & Hdir & Hk).
    assert (Hnot : stat (q ++ [lit "pack.mcmeta"]) t <> Some KDir)
      by (by rewrite Hk).
    set (patched_data :=
           JObj (set_member (lit "pack")
                   (JObj (set_member (lit "description")
                            (JStr (prefix ++ desc)) pack))
                   members)).
    rewrite (legacy_catch_dump_at pack_root (lit "pack.mcmeta") _ _ t q
               ltac:(done) Hq Hdir Hnot).
    destruct (json_dump patched_data) as [content | written] eqn:Hdump.
    + destruct (stat_at_written t pack_root (lit "pack.mcmeta")
                  content q [] KDir ltac:(done) Hq Hdir Hnot) as [Hnew _].
      simpl. split; [done | ]. split; [exact Hnew | ]. intros Hback.
      rewrite (legacy_modify_pack_mcmeta_loaded _ _ _ _ _
                 content patched_data) by done.
      subst patched_data.
      rewrite (legacy_description_found _
                 (set_member (lit "description") (JStr (prefix ++ desc)) pack)
                 (prefix ++ desc)).
      * by rewrite is_prefix_of_app.
      * rewrite assoc_set_member. by rewrite decide_True.
      * rewrite assoc_set_member. by rewrite decide_True.
    + destruct (stat_at_written t pack_root (lit "pack.mcmeta")
                  written q [] KDir ltac:(done) Hq Hdir Hnot) as [Hnew _].
      simpl. split; [done | ]. split; [exact Hnew | by eexists].
Qed.

Lemma legacy_description_patch_witness :
  stat_at Sample.disk (pjoin Sample.pack_root (lit "pack.mcmeta"))
  = Some (KFile Sample.mcmeta_text) /\
  stat_at (final (LegacyScript.modify_pack_mcmeta Sample.load legacy_dump
                    Sample.pack_root false Sample.disk))
          (pjoin Sample.pack_root (lit "pack.mcmeta"))
  = Some (KFile legacy_patched_text).
Proof.
  assert (Hfile : stat_at Sample.disk (pjoin Sample.pack_root (lit "pack.mcmeta"))
                  = Some (KFile Sample.mcmeta_text))
    by (vm_compute; reflexivity).
  split; [exact Hfile | ].
  destruct (legacy_description_patch Sample.load legacy_dump Sample.pack_root
              Sample.disk Sample.mcmeta_text
              [(lit "pack",
                JObj [(lit "pack_format", JNum 1);
                      (lit "description", JStr (lit "Foo"))])]
              [(lit "pack_format", JNum 1);
               (lit "description", JStr (lit "Foo"))]
              (lit "Foo") Hfile) as (_ & _ & Hnew).
  - vm_compute. reflexivity.
  - reflexivity.
  - reflexivity.
  - destruct Hnew as (_ & Hnew & _);
      [vm_compute; reflexivity | vm_compute; reflexivity | ].
    exact Hnew.
Defined.

(** ** The two scripts side by side *)

Lemma legacy_find_pack_mcmeta_outcome target_dir t :
  exists found l,
    find_pack_mcmeta target_dir t = Done found t l /\
    if exists_ t target_dir || forallb printable target_dir
    then exists l', LegacyScript.find_pack_mcmeta target_dir t = Done found t l'
    else LegacyScript.find_pack_mcmeta target_dir t = Crash t [] /\
         found = None.
Proof.
  unfold find_pack_mcmeta, LegacyScript.find_pack_mcmeta. rewrite !bind_read.
  destruct (exists_ t target_dir); cbn [negb orb].
  - rewrite !bind_read.
    destruct (exists_ t (pjoin target_dir (lit "pack.mcmeta")));
      [by eexists _, _; split; [ | eexists] | ].
    rewrite !bind_read.
    destruct (rglob_first t target_dir (lit "pack.mcmeta"));
      by eexists _, _; split; [ | eexists].
  - eexists _, _. split; [done | ]. unfold say, bind.
    destruct (forallb printable target_dir); [by eexists | done].
Qed.

(** X24 — The legacy script locates the pack as the current one does, and
    neither changes the tree: when the target directory exists, or its path
    can be printed, both return the same root or both return none.  For a
    missing target directory whose path cannot be printed the legacy script
    raises where the current one returns none. *)
Theorem legacy_find_pack_mcmeta_agrees target_dir t :
  let old := LegacyScript.find_pack_mcmeta target_dir t in
  let new := find_pack_mcmeta target_dir t in
  final old = t /\ final new = t /\
  (exists_ t target_dir || forallb printable target_dir = true ->
   returned old = returned new) /\
  (exists_ t target_dir || forallb printable target_dir = false ->
   returned old = None /\ returned new = Some None).
Proof.
  cbv zeta.
  destruct (legacy_find_pack_mcmeta_outcome target_dir t)
    as (found & l & -> & Hold).
  destruct (exists_ t target_dir || forallb printable target_dir).
  - destruct Hold as [l' ->]. done.
  - destruct Hold as [-> ->]. done.
Qed.

Lemma returned_emit {B} e (k : unit -> M B) t :
  returned (bind (emit e) k t) = returned (k tt t).
Proof. rewrite bind_emit. apply returned_after. Qed.

Lemma returned_say {B} shown m (k : unit -> M B) t :
  returned (bind (say shown m) k t)
  = if forallb printable shown then returned (k tt t) else None.
Proof.
  unfold say. destruct (forallb printable shown); [apply returned_emit | done].
Qed.

Lemma returned_bind_cases {A B} (m : M A) (k : A -> M B) t :
  returned (bind m k t) =
  match m t with
  | Done a t' _ => returned (k a t')
  | Crash _ _ => None
  end.
Proof.
  unfold bind. destruct (m t) as [a t' l | ]; [ | done]. apply returned_after.
Qed.

(** Where the located root lies. *)
Lemma find_pack_mcmeta_root target_dir t root l :
  find_pack_mcmeta target_dir t = Done (Some root) t l ->
  exists q d, resolve t target_dir = Some q /\ root = target_dir ++ d /\
              is_Some (stat (q ++ d ++ [lit "pack.mcmeta"]) t).
Proof.
  rewrite find_pack_mcmeta_outcome. intros Hrun.
  destruct (resolve t target_dir) as [q | ] eqn:Hq; [ | done].
  destruct (exists_ t (target_dir ++ [lit "pack.mcmeta"])) eqn:Hhere.
  - injection Hrun as <- _. exists q, []. split; [done | ].
    split; [by rewrite app_nil_r | ].
    apply bool_decide_eq_true in Hhere as [k Hk].
    apply stat_at_snoc_inv in Hk as (q' & Hq' & _ & Hk); [ | done].
    assert (q' = q) as -> by congruence. by exists k.
  - destruct (rglob_first t target_dir (lit "pack.mcmeta")) as [d | ] eqn:Hd;
      [ | done].
    injection Hrun as <- _. exists q, d. split; [done | ]. split; [done | ].
    unfold rglob_first in Hd. rewrite Hq in Hd.
    destruct (find q t) as [x | ]; [ | done].
    apply find_some in Hd as [_ Hd]. by apply bool_decide_eq_true in Hd.
Qed.

Lemma find_pack_mcmeta_printable target_dir t root l :
  forallb printable target_dir = true -> legible_tree t ->
  find_pack_mcmeta target_dir t = Done (Some root) t l ->
  forallb printable root = true.
Proof.
  intros Htarget Ht Hrun.
  destruct (find_pack_mcmeta_root _ _ _ _ Hrun) as (q & d & _ & -> & Hk).
  apply Ht in Hk. rewrite !forallb_app in Hk.
  apply andb_prop in Hk as [_ Hk]. apply andb_prop in Hk as [Hd _].
  by rewrite forallb_app, Htarget, Hd.
Qed.

(** X25 — The legacy [main], run from the [legacy] directory of the tool,
    and the current [main] with [--type legacy], in a dry run or not and
    whatever the overlay copiers do: when the legacy one returns 1 so does
    the current one; and when the current one returns 1 so does the legacy
    one, provided the paths it prints can be encoded (no lone surrogate in
    the script directory, the pack directory or the names in the tree). *)
Theorem legacy_main_rejects_alike json_load json_dump order order'
    copy_overrides copy_overrides' script_root pack_dir dry_run t :
  let old :=
    returned (LegacyScript.main json_load json_dump order' copy_overrides'
                (pjoin script_root (lit "legacy")) pack_dir dry_run t) in
  let new :=
    returned (main json_load json_dump order copy_overrides
                script_root pack_dir Legacy_pack t) in
  (old = Some 1%Z -> new = Some 1%Z) /\
  (forallb printable script_root = true ->
   forallb printable pack_dir = true -> names_printable t = true ->
   new = Some 1%Z -> old = Some 1%Z).
Proof.
  cbv zeta.
  set (legible_input :=
         forallb printable script_root = true /\
         forallb printable pack_dir = true /\ names_printable t = true).
  enough (Hboth :
    (returned (LegacyScript.main json_load json_dump order' copy_overrides'
                 (pjoin script_root (lit "legacy")) pack_dir dry_run t)
     = Some 1%Z ->
     returned (main json_load json_dump order copy_overrides
                 script_root pack_dir Legacy_pack t) = Some 1%Z) /\
    (legible_input ->
     returned (main json_load json_dump order copy_overrides
                 script_root pack_dir Legacy_pack t) = Some 1%Z ->
     returned (LegacyScript.main json_load json_dump order' copy_overrides'
                 (pjoin script_root (lit "legacy")) pack_dir dry_run t)
     = Some 1%Z)).
  { destruct Hboth as [H1 H2]. split; [exact H1 | ].
    intros Hs Hp Ht. by apply H2. }
  unfold LegacyScript.main, main.
  set (script_dir := pjoin script_root (lit "legacy")).
  set (config_path := pjoin script_dir (lit "delete.json")).
  assert (Hconfig : legible_input -> forallb printable config_path = true).
  { intros (Hs & _ & _). subst config_path script_dir.
    apply printable_pjoin; [ | done]. by apply printable_pjoin. }
  rewrite !bind_read.
  destruct (exists_ t config_path); cbn [negb].
  2:{ rewrite returned_say. split; [done | ]. intros Hin _.
      by rewrite (Hconfig Hin). }
  rewrite returned_say.
  destruct (forallb printable config_path) eqn:Hcp.
  2:{ split; [done | ]. intros Hin. pose proof (Hconfig Hin). congruence. }
  rewrite !returned_bind_cases.
  destruct (read_text config_path t) as [source t0 l0 | ] eqn:Hread; [ | done].
  assert (t0 = t) as ->.
  { unfold read_text in Hread.
    destruct (stat_at t _) as [[c | ] | ]; try done. by injection Hread. }
  destruct (json_load source) as [config | ]; [ | done].
  rewrite returned_say.
  destruct (forallb printable pack_dir) eqn:Hpd.
  2:{ split; [done | ]. intros (_ & Hp & _). congruence. }
  rewrite !returned_bind_cases.
  destruct (legacy_find_pack_mcmeta_outcome pack_dir t)
    as (found & l & Hfind & Hold).
  rewrite Hpd, orb_true_r in Hold. destruct Hold as [l' Hold].
  rewrite Hfind, Hold.
  destruct found as [pack_root | ]; [ | done].
  assert (Hroot : legible_input -> forallb printable pack_root = true).
  { intros (_ & _ & Ht).
    apply (find_pack_mcmeta_printable pack_dir t pack_root l Hpd);
      [by apply names_printable_legible | exact Hfind]. }
  rewrite returned_say.
  destruct (forallb printable pack_root) eqn:Hpr.
  2:{ split; [done | ]. intros Hin. pose proof (Hroot Hin). congruence. }
  assert (Hassets : forallb printable (pjoin pack_root (lit "assets")) = true)
    by (by apply printable_pjoin).
  rewrite !bind_read.
  destruct (exists_ t (pjoin pack_root (lit "assets"))); cbn [negb].
  2:{ rewrite returned_say, Hassets. done. }
  rewrite returned_say, Hassets, !returned_emit.
  destruct (py_in (lit "assets") config) as [[ | ] | ]; [ | done | done].
  destruct (py_getitem config (lit "assets")) as [[ | | | | | rules] | ];
    try done.
  split; [intros Hone | intros _ Hone]; exfalso.
  - assert (Hzero : yields 0%Z
              (for_each (fun m => Legacy.process_rule order'
                                    (pjoin pack_root (lit "assets"))
                                    m.1 m.2 dry_run) rules ;;
               emit (Print P_deleted) ;;
               copy_overrides' script_dir pack_root dry_run ;;
               LegacyScript.modify_pack_mcmeta json_load json_dump
                 pack_root dry_run ;;
               LegacyScript.modify_credits pack_root dry_run ;;
               emit (Print P_all_done) ;;
               ret 0%Z)%eff).
    { repeat (apply yields_bind; intros ?). apply yields_ret. }
    by apply Hzero in Hone.
  - assert (Hzero : yields 0%Z
              (for_each (fun m => process_rule order
                                    (pjoin pack_root (lit "assets"))
                                    m.1 m.2) rules ;;
               copy_overrides script_dir pack_root ;;
               modify_pack_mcmeta json_load json_dump pack_root ;;
               modify_credits pack_root script_root ;;
               emit (Print P_complete) ;;
               ret 0%Z)%eff).
    { repeat (apply yields_bind; intros ?). apply yields_ret. }
    by apply Hzero in Hone.
Qed.
